(** * WIG_Designer: the structured mesher, its mirror logic and the union driver

    A shallow embedding of [src/geometry/mesher.py], [src/geometry/components.py],
    [src/utils/helpers.py] and of the mesh-handling helpers of
    [src/gui/designer.py].

    Numbers.  The program computes with numpy [float64] arrays.  Here every
    float is a real number ([R]) and every float operation is the exact real
    operation, so "equal within floating tolerance" is read as equality in [R].
    numpy arrays of shape (n,) are lists of reals, arrays of shape (n,3) are
    lists of points, and arrays of shape (s,c,3) are lists of rows together
    with the row width [c].

    Python exceptions are values of type [exn]; a fallible function returns
    [result A]. *)

From Stdlib Require Import String.
From Stdlib Require Import Reals Lra Lia List ZArith Bool Arith Sorted.
Import ListNotations.
Local Open Scope R_scope.

(** ** Exceptions *)

Inductive exn : Type :=
| ValueError
| IndexError
| AttributeError
| ZeroDivisionError.

Definition result (A : Type) : Type := (exn + A)%type.

Definition ok {A} (a : A) : result A := inr a.
Definition raise {A} (e : exn) : result A := inl e.

Definition bind {A B} (c : result A) (k : A -> result B) : result B :=
  match c with
  | inl e => inl e
  | inr a => k a
  end.

Notation "x <- c ;; k" := (bind c (fun x => k))
  (at level 61, c at next level, right associativity).

(** [a / b] on Python floats: a zero divisor raises. *)
Definition py_div (a b : R) : result R :=
  if Req_dec_T b 0 then raise ZeroDivisionError else ok (a / b).

(** ** numpy *)

Module np.

Definition radians (deg : R) : R := deg * PI / 180.

(** [np.linspace(start, stop, num)] with [endpoint=True]: the samples
    [i * step + start], the last one overwritten by [stop] when [num > 1]. *)
Definition linspace (start stop : R) (num : nat) : list R :=
  let step := (stop - start) / INR (num - 1) in
  let y := map (fun i => INR i * step + start) (seq 0 num) in
  if (1 <? num)%nat then removelast y ++ [stop] else y.

(** [a[-1] = v]; an empty array has no last element. *)
Definition set_last {A} (a : list A) (v : A) : result (list A) :=
  match a with
  | [] => raise IndexError
  | _ => ok (removelast a ++ [v])
  end.

(** [a[0] = v] on an array known to be non-empty. *)
Definition set_first {A} (a : list A) (v : A) : list A :=
  match a with
  | [] => []
  | _ :: tl => v :: tl
  end.

Fixpoint zipWith {A B C} (f : A -> B -> C) (a : list A) (b : list B) : list C :=
  match a, b with
  | x :: a', y :: b' => f x y :: zipWith f a' b'
  | _, _ => []
  end.

Definition add := zipWith Rplus.
Definition sub := zipWith Rminus.
Definition mul := zipWith Rmult.
Definition scale (k : R) (a : list R) : list R := map (Rmult k) a.
Definition zeros_like (a : list R) : list R := map (fun _ => 0) a.

Definition sum (a : list R) : R := fold_right Rplus 0 a.
Definition mean (a : list R) : R := sum a / INR (length a).

(** [a[-n:]]: the whole array when [n] is 0 or exceeds its length. *)
Definition lastn {A} (n : nat) (a : list A) : list A :=
  if (n =? 0)%nat then a else skipn (length a - n) a.

(** [np.interp(x, xp, fp)] at one abscissa, for [xp] increasing: clamped to
    the end values, linear between neighbouring nodes.  [interp_from x0 f0
    rest] continues from the node [(x0, f0)] with [x0 <= x].  numpy does not
    check that [xp] is increasing and documents the result as meaningless
    when it is not; every statement below that depends on an interpolated
    value assumes an increasing [xp]. *)
Fixpoint interp_from (x x0 f0 : R) (rest : list (R * R)) : R :=
  match rest with
  | [] => f0
  | (x1, f1) :: rest' =>
      if Rlt_dec x x1
      then (f1 - f0) / (x1 - x0) * (x - x0) + f0
      else interp_from x x1 f1 rest'
  end.

Definition interp (x : R) (nodes : list (R * R)) : R :=
  match nodes with
  | [] => 0
  | (x0, f0) :: rest => if Rle_dec x x0 then f0 else interp_from x x0 f0 rest
  end.

End np.

(** ** Points *)

Record P3 : Type := mkP3 { px : R; py : R; pz : R }.

(** Two points coincide when their coordinates are equal. *)
Definition P3_eq_dec (p q : P3) : {p = q} + {p <> q} :=
  match Req_dec_T (px p) (px q), Req_dec_T (py p) (py q), Req_dec_T (pz p) (pz q) with
  | left Hx, left Hy, left Hz =>
      left (match p, q return px p = px q -> py p = py q -> pz p = pz q -> p = q with
            | mkP3 _ _ _, mkP3 _ _ _ =>
                fun Ex Ey Ez => f_equal3 mkP3 Ex Ey Ez
            end Hx Hy Hz)
  | right Hx, _, _ => right (fun E => Hx (f_equal px E))
  | _, right Hy, _ => right (fun E => Hy (f_equal py E))
  | _, _, right Hz => right (fun E => Hz (f_equal pz E))
  end.

Definition col_y (pts : list P3) : list R := map py pts.

(** ** components.py *)

Record WingStation : Type := mkWingStation {
  ws_y : R;
  ws_chord : R;
  ws_x : R;
  ws_z : R;
  ws_twist : R;
  ws_airfoil_params : list R;
  ws_m : R;
  ws_p : R;
  ws_t : R;
  ws_r : R
}.

(** [WingStation.__init__]: the default profile is NACA 0012; the first three
    parameters are unpacked into [m], [p], [t] (anything but exactly three
    values in [params[:3]] raises), the fourth is the reflex when present. *)
Definition WingStation_init (y_pos chord x_leading_edge z_pos twist : R)
    (airfoil_params : option (list R)) : result WingStation :=
  let params := match airfoil_params with
                | Some ps => ps
                | None => [0; 0; 0.12; 0]
                end in
  match firstn 3 params with
  | [m; p; t] =>
      let r := match skipn 3 params with
               | r :: _ => r
               | [] => 0
               end in
      ok (mkWingStation y_pos chord x_leading_edge z_pos twist params m p t r)
  | _ => raise ValueError
  end.

Record LiftingSurface : Type := mkLiftingSurface {
  ls_name : string;
  ls_stations : list WingStation;
  ls_position : P3;
  ls_orientation : P3;
  ls_mirrored : bool
}.

(** [LiftingSurface.__init__]: position and orientation default to zeros,
    [mirrored] defaults to [True] at the call sites that omit it. *)
Definition LiftingSurface_init (name : string) (stations : list WingStation)
    (position orientation : option P3) (mirrored : bool) : LiftingSurface :=
  mkLiftingSurface name stations
    (match position with Some p => p | None => mkP3 0 0 0 end)
    (match orientation with Some o => o | None => mkP3 0 0 0 end)
    mirrored.

Record Fuselage : Type := mkFuselage {
  fu_name : string;
  fu_profile : list (R * R);
  fu_position : P3
}.

Record Vehicle : Type := mkVehicle {
  v_name : string;
  v_surfaces : list LiftingSurface;
  v_fuselage : option Fuselage
}.

(** ** helpers.py *)

Definition M33 : Type := (P3 * P3 * P3)%type.

Definition row_dot (r v : P3) : R := px r * px v + py r * py v + pz r * pz v.

Definition mat_vec (m : M33) (v : P3) : P3 :=
  let '(r1, r2, r3) := m in mkP3 (row_dot r1 v) (row_dot r2 v) (row_dot r3 v).

Definition mat_col (m : M33) (j : nat) : P3 :=
  let '(r1, r2, r3) := m in
  match j with
  | O => mkP3 (px r1) (px r2) (px r3)
  | S O => mkP3 (py r1) (py r2) (py r3)
  | _ => mkP3 (pz r1) (pz r2) (pz r3)
  end.

(** [A @ B] *)
Definition matmul (a b : M33) : M33 :=
  let '(a1, a2, a3) := a in
  let row r := mkP3 (row_dot r (mat_col b 0)) (row_dot r (mat_col b 1)) (row_dot r (mat_col b 2)) in
  (row a1, row a2, row a3).

Definition Rx (phi : R) : M33 :=
  (mkP3 1 0 0, mkP3 0 (cos phi) (- sin phi), mkP3 0 (sin phi) (cos phi)).

Definition Ry (theta : R) : M33 :=
  (mkP3 (cos theta) 0 (sin theta), mkP3 0 1 0, mkP3 (- sin theta) 0 (cos theta)).

Definition Rz (psi : R) : M33 :=
  (mkP3 (cos psi) (- sin psi) 0, mkP3 (sin psi) (cos psi) 0, mkP3 0 0 1).

Definition get_rotation_matrix (roll pitch yaw : R) : M33 :=
  let phi := np.radians roll in
  let theta := np.radians pitch in
  let psi := np.radians yaw in
  matmul (matmul (Rz psi) (Ry theta)) (Rx phi).

(** ** pyvista

    The part of the pyvista API the program calls.  A [StructuredGrid] is a
    flat point array with its dimensions; a [PolyData] is a point array with
    its cells, each given as the list of its point indices (a vertex cell has
    one index, a polygon has one per corner).  Rotations are right-handed, in
    degrees, about the global axes through the origin.  The VTK filters whose
    output depends on the geometric kernel ([triangulate], [clean],
    [subdivide], [compute_normals], [boolean_union]) are kept abstract in
    [Filters]. *)

Module pv.

Record StructuredGrid : Type := mkGrid {
  points : list P3;
  dimensions : nat * nat * nat
}.

Record PolyData : Type := mkPoly {
  poly_points : list P3;
  poly_faces : list (list nat)
}.

Inductive Mesh : Type :=
| GridMesh (g : StructuredGrid)
| PolyMesh (p : PolyData).

Definition MultiBlock : Type := list (string * Mesh).

Definition rot_x (angle : R) (q : P3) : P3 :=
  let a := np.radians angle in
  mkP3 (px q) (cos a * py q - sin a * pz q) (sin a * py q + cos a * pz q).

Definition rot_y (angle : R) (q : P3) : P3 :=
  let a := np.radians angle in
  mkP3 (cos a * px q + sin a * pz q) (py q) (- sin a * px q + cos a * pz q).

Definition rot_z (angle : R) (q : P3) : P3 :=
  let a := np.radians angle in
  mkP3 (cos a * px q - sin a * py q) (sin a * px q + cos a * py q) (pz q).

Definition shift (v q : P3) : P3 :=
  mkP3 (px q + px v) (py q + py v) (pz q + pz v).

Definition map_points (f : P3 -> P3) (g : StructuredGrid) : StructuredGrid :=
  mkGrid (map f (points g)) (dimensions g).

Definition rotate_x (angle : R) := map_points (rot_x angle).
Definition rotate_y (angle : R) := map_points (rot_y angle).
Definition rotate_z (angle : R) := map_points (rot_z angle).
Definition translate (v : P3) := map_points (shift v).

(** [points[:, 1] *= -1] *)
Definition neg_y (q : P3) : P3 := mkP3 (px q) (-1 * py q) (pz q).

(** [extract_surface] of an [nx * ny * 1] grid: the same points and one
    quadrilateral per cell. *)
Definition quad (nx i j : nat) : list nat :=
  [i + nx * j; i + 1 + nx * j; i + 1 + nx * (j + 1); i + nx * (j + 1)]%nat.

Definition extract_surface (g : StructuredGrid) : PolyData :=
  let '(nx, ny, _) := dimensions g in
  mkPoly (points g)
    (flat_map (fun j => map (fun i => quad nx i j) (seq 0 (nx - 1))) (seq 0 (ny - 1))).

(** The first position of [q] in [pts] ([length pts] when it is absent). *)
Fixpoint index_of (q : P3) (pts : list P3) : nat :=
  match pts with
  | [] => 0
  | p :: rest => if P3_eq_dec p q then 0 else S (index_of q rest)
  end.

Definition coincide (p q : P3) : bool :=
  if P3_eq_dec p q then true else false.

(** Coincident points merged: every point is kept where it first occurs. *)
Fixpoint merge_points (pts : list P3) : list P3 :=
  match pts with
  | [] => []
  | p :: rest => p :: filter (fun q => negb (coincide p q)) (merge_points rest)
  end.

(** [a + b], that is [a.merge(b)] with [merge_points=True]: the points of
    both meshes with coincident points merged, then the cells of [a] and the
    cells of [b], renumbered to the merged points. *)
Definition poly_add (a b : PolyData) : PolyData :=
  let merged := merge_points (poly_points a ++ poly_points b) in
  let renumber (pts : list P3) (i : nat) := index_of (nth i pts (mkP3 0 0 0)) merged in
  mkPoly merged
    (map (map (renumber (poly_points a))) (poly_faces a)
     ++ map (map (renumber (poly_points b))) (poly_faces b)).

(** [PolyData(points)]: with no faces given, one vertex cell per point. *)
Definition from_points (pts : list P3) : PolyData :=
  mkPoly pts (map (fun i => [i]) (seq 0 (length pts))).

(** [poly.faces = faces]: the polygons are replaced, the vertex cells stay
    (and come first in the cell order). *)
Definition set_faces (p : PolyData) (faces : list (list nat)) : PolyData :=
  mkPoly (poly_points p)
    (filter (fun cell => (length cell =? 1)%nat) (poly_faces p) ++ faces).

(** [reflect((0,1,0), point=(0,0,0))] *)
Definition reflect (p : PolyData) : PolyData :=
  mkPoly (map neg_y (poly_points p)) (poly_faces p).

Definition flip_faces (p : PolyData) : PolyData :=
  mkPoly (poly_points p) (map (@rev nat) (poly_faces p)).

Definition n_points (p : PolyData) : nat := length (poly_points p).
Definition n_cells (p : PolyData) : nat := length (poly_faces p).

Record Filters : Type := mkFilters {
  triangulate : PolyData -> PolyData;
  clean : option R -> PolyData -> PolyData;
  subdivide : nat -> PolyData -> PolyData;
  compute_normals : PolyData -> PolyData;
  boolean_union : PolyData -> PolyData -> result PolyData
}.

End pv.

(** ** mesher.py *)

Record StructuredMesher : Type := mkMesher {
  chord_res : nat;
  span_res : nat;
  fus_rad_res : nat;
  fus_long_res : nat
}.

(** [StructuredMesher.__init__] with its default resolutions. *)
Definition StructuredMesher_init (c s fr fl : option nat) : StructuredMesher :=
  mkMesher (match c with Some n => n | None => 30 end)
           (match s with Some n => n | None => 15 end)
           (match fr with Some n => n | None => 36 end)
           (match fl with Some n => n | None => 50 end).

(** An array of shape [(len nd_rows, nd_width, 3)]. *)
Record ndarray3 : Type := mkNd {
  nd_rows : list (list P3);
  nd_width : nat
}.

Definition term5 : R := -0.1015.

(** The thickness distribution at one chordwise sample. *)
Definition thickness (t_max x : R) : R :=
  5 * t_max * (0.2969 * sqrt x - 0.1260 * x - 0.3516 * x ^ 2 + 0.2843 * x ^ 3 + term5 * x ^ 4).

(** The array [yc] of [_get_airfoil_coords].  The factors [m / p**2] and
    [m / (1 - p)**2] are scalar divisions, evaluated whatever the masks
    select: a zero divisor raises [ZeroDivisionError].  The source fills [yc]
    and [dyc_dx] in turn inside one branch; every failure there is the same
    exception, so the two arrays are computed one after the other here. *)
Definition camber_line (m p r : R) (x : list R) : result (list R) :=
  yc <- (if Rlt_dec 0 m then
           if Rlt_dec 0 p then
             k1 <- py_div m (p ^ 2) ;;
             k2 <- py_div m ((1 - p) ^ 2) ;;
             ok (map (fun xi => if Rle_dec xi p
                                then k1 * (2 * p * xi - xi ^ 2)
                                else k2 * ((1 - 2 * p) + 2 * p * xi - xi ^ 2)) x)
           else ok (np.zeros_like x)
         else ok (np.zeros_like x)) ;;
  ok (if Req_dec_T r 0 then yc
      else np.add yc (map (fun xi => r * (xi ^ 3 - xi ^ 2) * 4) x)).

(** The array [dyc_dx] of [_get_airfoil_coords]. *)
Definition camber_slope (m p : R) (x : list R) : result (list R) :=
  if Rlt_dec 0 m then
    if Rlt_dec 0 p then
      k1 <- py_div (2 * m) (p ^ 2) ;;
      k2 <- py_div (2 * m) ((1 - p) ^ 2) ;;
      ok (map (fun xi => if Rle_dec xi p
                         then k1 * (p - xi)
                         else k2 * (p - xi)) x)
    else ok (np.zeros_like x)
  else ok (np.zeros_like x).

(** The chordwise samples [x] (half-cosine spacing). *)
Definition chord_samples (n : nat) : list R :=
  map (fun b => (1 - cos b) / 2) (np.linspace 0 PI n).

(** Trailing-edge closure, [x_loop[0] = x_loop[-1] = x_te]; the loop is
    never empty where this is reached. *)
Definition close_te (loop : list R) : list R :=
  match loop with
  | [] => []
  | _ =>
      let te := (hd 0 loop + last loop 0) / 2 in
      removelast (np.set_first loop te) ++ [te]
  end.

Definition _get_airfoil_coords (self : StructuredMesher) (station : WingStation)
  : result (list P3) :=
  let m := ws_m station in
  let p := ws_p station in
  let t_max := ws_t station in
  let r := ws_r station in
  let x := chord_samples (chord_res self) in
  yt <- np.set_last (map (thickness t_max) x) 0 ;;
  yc <- camber_line m p r x ;;
  dyc_dx <- camber_slope m p x ;;
  let theta := map atan dyc_dx in
  let xu := np.sub x (np.mul yt (map sin theta)) in
  let zu := np.add yc (np.mul yt (map cos theta)) in
  let xl := np.add x (np.mul yt (map sin theta)) in
  let zl := np.sub yc (np.mul yt (map cos theta)) in
  let x_loop := rev xu ++ tl xl in
  let z_loop := rev zu ++ tl zl in
  let x_loop := close_te x_loop in
  let z_loop := close_te z_loop in
  ok (np.zipWith (fun xi zi => mkP3 xi 0 zi) x_loop z_loop).

(** [_position_profile].  [x_vals] and [z_vals] are views of the columns of
    [new_coords]: when column 2 is computed, [x_vals] already holds the new
    column 0. *)
Definition _position_profile (coords : list P3) (station : WingStation) : list P3 :=
  let theta := np.radians (- ws_twist station) in
  let c := cos theta in
  let s := sin theta in
  map (fun q =>
         let x0 := px q * ws_chord station in
         let y0 := py q * ws_chord station in
         let z0 := pz q * ws_chord station in
         let x1 := x0 * c - z0 * s in
         let z1 := x1 * s + z0 * c in
         mkP3 (x1 + ws_x station) (y0 + ws_y station) (z1 + ws_z station))
      coords.

Definition lerp (t : R) (a b : P3) : P3 :=
  mkP3 ((1 - t) * px a + t * px b)
       ((1 - t) * py a + t * py b)
       ((1 - t) * pz a + t * pz b).

Definition _loft_segment (self : StructuredMesher) (st1 st2 : WingStation)
  : result ndarray3 :=
  af1 <- _get_airfoil_coords self st1 ;;
  af2 <- _get_airfoil_coords self st2 ;;
  let p1 := _position_profile af1 st1 in
  let p2 := _position_profile af2 st2 in
  let t := np.linspace 0 1 (span_res self) in
  ok (mkNd (map (fun ti => np.zipWith (lerp ti) p1 p2) t) (length p1)).

(** The loop of [_mesh_surface] over consecutive station pairs, from index [i]. *)
Fixpoint loft_segments (self : StructuredMesher) (i : nat) (stations : list WingStation)
  : result (list ndarray3) :=
  match stations with
  | st_in :: ((st_out :: _) as rest) =>
      segment_points <- _loft_segment self st_in st_out ;;
      let segment_points :=
        if (0 <? i)%nat
        then mkNd (tl (nd_rows segment_points)) (nd_width segment_points)
        else segment_points in
      all_points <- loft_segments self (S i) rest ;;
      ok (segment_points :: all_points)
  | _ => ok []
  end.

(** [np.concatenate(all_points, axis=0)] *)
Definition concatenate (all_points : list ndarray3) : result ndarray3 :=
  match all_points with
  | [] => raise ValueError
  | a :: _ => ok (mkNd (flat_map nd_rows all_points) (nd_width a))
  end.

Definition _transform_grid (grid : pv.StructuredGrid) (surface : LiftingSurface)
  : pv.StructuredGrid :=
  let o := ls_orientation surface in
  let grid := pv.rotate_x (px o) grid in
  let grid := pv.rotate_y (py o) grid in
  let grid := pv.rotate_z (pz o) grid in
  pv.translate (ls_position surface) grid.

(** [_add_cap]: a mesh of the ring's points with one polygon through them,
    in ring order or reversed, merged into the body. *)
Definition _add_cap (poly_body : pv.PolyData) (ring_points : list P3) (flip : bool)
  : pv.PolyData :=
  let n_pts := length ring_points in
  let cap := pv.from_points ring_points in
  let indices := seq 0 n_pts in
  let indices := if flip then rev indices else indices in
  let cap := pv.set_faces cap [indices] in
  pv.poly_add poly_body cap.

(** The open grid of [_mesh_surface]: everything up to [_transform_grid]. *)
Definition surface_grid (self : StructuredMesher) (surface : LiftingSurface)
  : result pv.StructuredGrid :=
  all_points <- loft_segments self 0 (ls_stations surface) ;;
  grid_points <- concatenate all_points ;;
  let n_span := length (nd_rows grid_points) in
  let n_chord := nd_width grid_points in
  let grid := pv.mkGrid (concat (nd_rows grid_points)) (n_chord, n_span, 1%nat) in
  ok (_transform_grid grid surface).

Definition tol_root : R := 1e-3.

(** The first and the last spanwise slice of a grid, [grid.points[:n_chord]]
    and [grid.points[-n_chord:]]. *)
Definition root_slice (grid : pv.StructuredGrid) : list P3 :=
  firstn (fst (fst (pv.dimensions grid))) (pv.points grid).

Definition tip_slice (grid : pv.StructuredGrid) : list P3 :=
  np.lastn (fst (fst (pv.dimensions grid))) (pv.points grid).

(** The capped surface of [_mesh_surface] before [triangulate().clean()]. *)
Definition surface_caps (grid : pv.StructuredGrid) : pv.PolyData :=
  let poly := pv.extract_surface grid in
  let root_pts := root_slice grid in
  let root_y_avg := np.mean (col_y root_pts) in
  let poly := if Rlt_dec tol_root (Rabs root_y_avg)
              then _add_cap poly root_pts true
              else poly in
  let tip_pts := tip_slice grid in
  _add_cap poly tip_pts false.

(** The open grid of [_mesh_fuselage]: a body of revolution. *)
Definition fuselage_grid (self : StructuredMesher) (fuselage : Fuselage)
  : result (pv.StructuredGrid * list R) :=
  let profile := fu_profile fuselage in
  match profile with
  | [] => raise IndexError
  | (x_first, _) :: _ =>
      let x_last := fst (last profile (0, 0)) in
      let x_dense := np.linspace x_first x_last (fus_long_res self) in
      let r_dense := map (fun x => np.interp x profile) x_dense in
      let theta := np.linspace 0 (2 * PI) (fus_rad_res self) in
      let grid_points :=
        flat_map (fun xr => map (fun t => mkP3 (fst xr) (snd xr * cos t) (snd xr * sin t)) theta)
                 (combine x_dense r_dense) in
      let grid := pv.mkGrid grid_points (fus_rad_res self, fus_long_res self, 1%nat) in
      ok (pv.translate (fu_position fuselage) grid, r_dense)
  end.

Definition tol_ring : R := 1e-6.

(** The capped fuselage of [_mesh_fuselage] before [triangulate().clean()]. *)
Definition fuselage_caps (self : StructuredMesher) (grid : pv.StructuredGrid)
    (r_dense : list R) : result pv.PolyData :=
  let poly := pv.extract_surface grid in
  match r_dense with
  | [] => raise IndexError
  | r_front :: _ =>
      let poly := if Rlt_dec tol_ring r_front
                  then _add_cap poly (firstn (fus_rad_res self) (pv.points grid)) true
                  else poly in
      let poly := if Rlt_dec tol_ring (last r_dense 0)
                  then _add_cap poly (np.lastn (fus_rad_res self) (pv.points grid)) false
                  else poly in
      ok poly
  end.

(** [mesh.copy()] followed by [points[:, 1] *= -1], on either kind of mesh. *)
Definition negate_y (mesh : pv.Mesh) : pv.Mesh :=
  match mesh with
  | pv.GridMesh g => pv.GridMesh (pv.map_points pv.neg_y g)
  | pv.PolyMesh p => pv.PolyMesh (pv.reflect p)
  end.

(** [reflect((0,1,0), point=(0,0,0))] followed by [flip_faces], which only
    [PolyData] offers. *)
Definition reflect_flip (mesh : pv.Mesh) : result pv.Mesh :=
  match mesh with
  | pv.GridMesh _ => raise AttributeError
  | pv.PolyMesh p => ok (pv.PolyMesh (pv.flip_faces (pv.reflect p)))
  end.

Section Mesher.

Variable K : pv.Filters.

Definition _mesh_surface (self : StructuredMesher) (surface : LiftingSurface)
    (solid : bool) : result pv.Mesh :=
  grid <- surface_grid self surface ;;
  if negb solid then ok (pv.GridMesh grid)
  else ok (pv.PolyMesh (pv.clean K None (pv.triangulate K (surface_caps grid)))).

Definition _mesh_fuselage (self : StructuredMesher) (fuselage : Fuselage)
    (solid : bool) : result pv.Mesh :=
  gr <- fuselage_grid self fuselage ;;
  let '(grid, r_dense) := gr in
  if negb solid then ok (pv.GridMesh grid)
  else
    poly <- fuselage_caps self grid r_dense ;;
    ok (pv.PolyMesh (pv.clean K None (pv.triangulate K poly))).

(** The loop of [mesh_vehicle] over the lifting surfaces. *)
Fixpoint mesh_surfaces (self : StructuredMesher) (surfaces : list LiftingSurface)
    (solid : bool) (parts : pv.MultiBlock) : result pv.MultiBlock :=
  match surfaces with
  | [] => ok parts
  | surface :: rest =>
      mesh <- _mesh_surface self surface solid ;;
      let parts := parts ++ [(ls_name surface, mesh)] in
      if ls_mirrored surface then
        mirrored_mesh <- (if solid then reflect_flip mesh else ok (negate_y mesh)) ;;
        mesh_surfaces self rest solid
          (parts ++ [((ls_name surface ++ "_Mirror")%string, mirrored_mesh)])
      else mesh_surfaces self rest solid parts
  end.

Definition mesh_vehicle (self : StructuredMesher) (vehicle : Vehicle) (solid : bool)
  : result pv.MultiBlock :=
  parts <- mesh_surfaces self (v_surfaces vehicle) solid [] ;;
  match v_fuselage vehicle with
  | Some fuselage =>
      fus_mesh <- _mesh_fuselage self fuselage solid ;;
      ok (parts ++ [(fu_name fuselage, fus_mesh)])
  | None => ok parts
  end.

End Mesher.

(** ** designer.py: the mesh-handling helpers of the editor *)

(** The display preferences injected into a component; [getattr] falls back
    to [solid_view = False] and [flip_normals = True] when they are absent. *)
Record Viz : Type := mkViz {
  solid_view : bool;
  flip_normals : bool
}.

Inductive Component : Type :=
| SurfaceObj (s : LiftingSurface)
| FuselageObj (f : Fuselage)
| OtherObj.

(** [a.reshape(rows, width, 3)] of a flat point array. *)
Fixpoint chunks (width rows : nat) (pts : list P3) : list (list P3) :=
  match rows with
  | O => []
  | S rows' => firstn width pts :: chunks width rows' (skipn width pts)
  end.

Definition reshape (rows width : nat) (pts : list P3) : result (list (list P3)) :=
  if (length pts =? rows * width)%nat then ok (chunks width rows pts)
  else raise ValueError.

(** [flip_winding]: on a structured grid, reverse the fastest (chordwise)
    index; any other mesh is left alone. *)
Definition flip_winding (g : pv.Mesh) : result pv.Mesh :=
  match g with
  | pv.GridMesh sg =>
      let '(d0, d1, d2) := pv.dimensions sg in
      rows <- reshape (d2 * d1) d0 (pv.points sg) ;;
      ok (pv.GridMesh (pv.mkGrid (concat (map (@rev P3) rows)) (pv.dimensions sg)))
  | pv.PolyMesh _ => ok g
  end.

(** The mirroring branch of [process_component]. *)
Definition mirror_part (use_solid : bool) (grid : pv.Mesh) : result pv.Mesh :=
  if use_solid then reflect_flip grid
  else flip_winding (negate_y grid).

(** The user-requested flip of [process_component]. *)
Definition user_flip (grid : pv.Mesh) : result pv.Mesh :=
  match grid with
  | pv.PolyMesh p => ok (pv.PolyMesh (pv.flip_faces p))
  | pv.GridMesh _ => flip_winding grid
  end.

Inductive Msg : Type :=
| GeneratingSolids
| Refining (i count : nat)
| Merging (i total : nat).

Definition Progress : Type := list (Msg * Z).

Definition percents (log : Progress) : list Z := map snd log.

(** [base + int(i / n * span)] *)
Definition pct (base : Z) (i n : nat) (span : Z) : Z :=
  (base + (Z.of_nat i * span) / Z.of_nat n)%Z.

(** A pyvista dataset is truthy. *)
Definition truthy (block : pv.Mesh) : bool := true.

(** [solids.sort(key=lambda m: m.n_cells, reverse=True)]: stable, descending. *)
Fixpoint insert_desc (x : pv.PolyData) (l : list pv.PolyData) : list pv.PolyData :=
  match l with
  | [] => [x]
  | y :: l' =>
      if (pv.n_cells y <=? pv.n_cells x)%nat then x :: l
      else y :: insert_desc x l'
  end.

Definition sort_desc (l : list pv.PolyData) : list pv.PolyData :=
  fold_right insert_desc [] l.

(** Reading [m.n_cells] of every element; [None] has no such attribute. *)
Fixpoint all_solids (l : list (option pv.PolyData)) : result (list pv.PolyData) :=
  match l with
  | [] => ok []
  | None :: _ => raise AttributeError
  | Some p :: l' => ps <- all_solids l' ;; ok (p :: ps)
  end.

Section Designer.

Variable K : pv.Filters.
Variable mesher : StructuredMesher.

(** [process_component] up to the call of [add_mesh_to_all]: the mesh that
    is handed to the plotter ([None] for an object that is no component). *)
Definition process_component (obj : Component) (viz : option Viz) (mirrored : bool)
  : result (option pv.Mesh) :=
  let use_solid := match viz with Some v => solid_view v | None => false end in
  let flip := match viz with Some v => flip_normals v | None => true end in
  let finish (grid : pv.Mesh) :=
    grid <- (if mirrored then mirror_part use_solid grid else ok grid) ;;
    grid <- (if flip then user_flip grid else ok grid) ;;
    ok (Some grid) in
  match obj with
  | SurfaceObj s => grid <- _mesh_surface K mesher s use_solid ;; finish grid
  | FuselageObj f => grid <- _mesh_fuselage K mesher f use_solid ;; finish grid
  | OtherObj => ok None
  end.

Definition make_solid (mesh : pv.Mesh) : result (option pv.PolyData) :=
  match mesh with
  | pv.PolyMesh p =>
      if (pv.n_points p =? 0)%nat then ok None
      else
        let refined := pv.subdivide K 2 (pv.triangulate K p) in
        let clean := pv.clean K (Some 1e-5) refined in
        ok (Some (pv.compute_normals K clean))
  | pv.GridMesh g =>
      if (length (pv.points g) =? 0)%nat then ok None
      else raise AttributeError
  end.

(** The refining loop of [run_heavy_union], from block index [i]. *)
Fixpoint refine_loop (count i : nat) (blocks : pv.MultiBlock)
  : Progress * result (list (option pv.PolyData)) :=
  match blocks with
  | [] => ([], ok [])
  | (_, block) :: rest =>
      if truthy block then
        let ev := (Refining (i + 1) count, pct 10 i count 30) in
        match make_solid block with
        | inl e => ([ev], inl e)
        | inr s =>
            let '(log, r) := refine_loop count (S i) rest in
            (ev :: log, solids <- r ;; ok (s :: solids))
        end
      else refine_loop count (S i) rest
  end.

(** The merging loop of [run_heavy_union], from index [i]. *)
Fixpoint merge_loop (total i : nat) (unified : pv.PolyData) (rest : list pv.PolyData)
  : Progress * pv.PolyData :=
  match rest with
  | [] => ([], unified)
  | s :: rest' =>
      let ev := (Merging i total, pct 40 i total 50) in
      let unified :=
        match pv.boolean_union K unified s with
        | inr u => u
        | inl _ => pv.poly_add unified s
        end in
      let '(log, u) := merge_loop total (S i) unified rest' in
      (ev :: log, u)
  end.

(** [run_heavy_union]: the progress reported to [progress_callback], in
    order, and the outcome. *)
Definition run_heavy_union (vehicle : Vehicle) : Progress * result pv.PolyData :=
  let ev0 := (GeneratingSolids, 10%Z) in
  match mesh_vehicle K mesher vehicle true with
  | inl e => ([ev0], inl e)
  | inr multiblock =>
      match multiblock with
      | [] => ([ev0], raise ValueError)
      | _ =>
          let count := length multiblock in
          let '(log1, r) := refine_loop count 0 multiblock in
          match r with
          | inl e => (ev0 :: log1, inl e)
          | inr solids =>
              match solids with
              | [] => (ev0 :: log1, raise ValueError)
              | _ =>
                  match all_solids solids with
                  | inl e => (ev0 :: log1, inl e)
                  | inr ps =>
                      match sort_desc ps with
                      | [] => (ev0 :: log1, raise IndexError)
                      | unified :: rest =>
                          let '(log2, u) :=
                            merge_loop (length solids) 1 unified rest in
                          (ev0 :: log1 ++ log2, ok u)
                      end
                  end
              end
          end
      end
  end.

End Designer.

(** ** Concrete inputs *)

(** A stand-in for the geometric kernel, to run the model on concrete
    vehicles: every filter returns its input and the boolean union is the
    plain merge [a + b]. *)
Definition append_kernel : pv.Filters :=
  pv.mkFilters (fun p => p) (fun _ p => p) (fun _ p => p) (fun p => p)
               (fun a b => ok (pv.poly_add a b)).

(** The two stations of the default wing (Scenario A): NACA 0012 sections. *)
Definition root_station : WingStation :=
  mkWingStation 0 2 0 0 0 [0; 0; 0.12; 0] 0 0 0.12 0.

Definition tip_station : WingStation :=
  mkWingStation 5 1 1 0.5 0 [0; 0; 0.12; 0] 0 0 0.12 0.

Definition main_wing : LiftingSurface :=
  LiftingSurface_init "Main_Wing" [root_station; tip_station] None None true.

(** A surface left with a single station. *)
Definition stub_fin : LiftingSurface :=
  LiftingSurface_init "Fin" [root_station] None None false.

Definition default_mesher : StructuredMesher :=
  StructuredMesher_init None None None None.

(** A vehicle whose first surface has lost a station. *)
Definition damaged_vehicle : Vehicle :=
  mkVehicle "WIG Prototype" [stub_fin; main_wing] None.

(** A part as [process_component] mirrors it: a solid is [PolyData]; an
    open part is a structured grid whose point count matches its dimensions. *)
Definition mirror_ready (use_solid : bool) (part : pv.Mesh) : Prop :=
  match part with
  | pv.GridMesh g =>
      let '(d0, d1, d2) := pv.dimensions g in
      use_solid = false /\ length (pv.points g) = (d2 * d1 * d0)%nat
  | pv.PolyMesh _ => True
  end.

(** A 3 x 2 open grid with distinct points. *)
Definition small_grid : pv.StructuredGrid :=
  pv.mkGrid [mkP3 0 1 0; mkP3 1 1 0; mkP3 2 1 0; mkP3 0 2 1; mkP3 1 2 1; mkP3 2 2 1]
            (3%nat, 2%nat, 1%nat).

(** Reflection of a section point about the chord line z = 0. *)
Definition mirror_z (q : P3) : P3 := mkP3 (px q) (py q) (- pz q).

(** A section with no camber ([m = 0]) but a reflex of 1. *)
Definition reflex_station : WingStation :=
  mkWingStation 0 1 0 0 0 [0; 0; 0.12; 1] 0 0 0.12 1.

(** The global placement [_transform_grid] gives to one point. *)
Definition place_point (surface : LiftingSurface) (q : P3) : P3 :=
  let o := ls_orientation surface in
  pv.shift (ls_position surface) (pv.rot_z (pz o) (pv.rot_y (py o) (pv.rot_x (px o) q))).

(** The default wing moved one unit aft. *)
Definition shifted_wing : LiftingSurface :=
  LiftingSurface_init "Main_Wing" [root_station; tip_station] (Some (mkP3 1 0 0)) None true.








(** The default vehicle: one mirrored wing, no fuselage. *)
Definition scenario_vehicle : Vehicle :=
  mkVehicle "WIG Prototype" [main_wing] None.

(** A coarse mesher: 3 chordwise samples (a loop of 5 points), 2 slices. *)
Definition coarse_mesher : StructuredMesher := mkMesher 3 2 36 50.

(** Where the camber is evaluated ([m > 0] and [p > 0]), the camber position
    lies in the range on which squaring a float neither underflows to zero
    nor overflows.  Floats are read as reals here, but [p**2 == 0.0] and an
    overflowing [p**2] or [(1 - p)**2] raise in Python; this precondition
    keeps those ends of the float range out of the statements. *)
Definition camber_in_range (st : WingStation) : Prop :=
  0 < ws_m st -> 0 < ws_p st -> 1e-150 <= ws_p st <= 1e150.

(** The camber of a station can be evaluated: the camber position is in
    range and the one zero divisor, [(1 - p)**2] at [p = 1], is not met with
    [m > 0]. *)
Definition camber_defined (st : WingStation) : Prop :=
  camber_in_range st /\ ~ (0 < ws_m st /\ ws_p st = 1).

(** A cambered section whose camber position is the trailing edge. *)
Definition aft_camber_station : WingStation :=
  mkWingStation 0 1 0 0 0 [0.02; 1; 0.12; 0] 0.02 1 0.12 0.

(** A NACA 2412 section. *)
Definition cambered_station : WingStation :=
  mkWingStation 0 1 0 0 0 [0.02; 0.4; 0.12; 0] 0.02 0.4 0.12 0.

(** The station transform as the specification words it: scale by the chord,
    rotate by [-twist] degrees about the spanwise axis, translate by
    [(x, y, z)].  The rotation turns in the sense of the formulas of
    [_position_profile], each reading the scaled coordinates. *)
Definition station_transform (st : WingStation) (q : P3) : P3 :=
  let theta := np.radians (- ws_twist st) in
  let x := px q * ws_chord st in
  let y := py q * ws_chord st in
  let z := pz q * ws_chord st in
  mkP3 (x * cos theta - z * sin theta + ws_x st)
       (y + ws_y st)
       (x * sin theta + z * cos theta + ws_z st).

(** The twist is a whole number of half turns (in particular, no twist). *)
Definition flat_twist (st : WingStation) : Prop :=
  sin (np.radians (- ws_twist st)) = 0.

(** A unit-chord station twisted by -90 degrees. *)
Definition twisted_station : WingStation :=
  mkWingStation 0 1 0 0 (-90) [0; 0; 0.12; 0] 0 0 0.12 0.

(** A wing at the origin whose root is twisted by -90 degrees. *)
Definition twisted_wing : LiftingSurface :=
  LiftingSurface_init "Twisted" [twisted_station; tip_station] None None true.

(** A flat plate: a section of zero thickness with camber and reflex. *)
Definition plate_station : WingStation :=
  mkWingStation 0 1 0 0 0 [0.02; 0.4; 0; 0.01] 0.02 0.4 0 0.01.

(** A wing with a third station (a winglet break) beyond the tip. *)
Definition outer_station : WingStation :=
  mkWingStation 6 0.5 1.5 1 0 [0; 0; 0.12; 0] 0 0 0.12 0.

Definition cranked_wing : LiftingSurface :=
  LiftingSurface_init "Cranked" [root_station; tip_station; outer_station] None None true.

(** Squared distance between two points. *)
Definition sq_dist (p q : P3) : R :=
  (px p - px q) ^ 2 + (py p - py q) ^ 2 + (pz p - pz q) ^ 2.

(** [_get_local_axes] of designer.py: the images of the unit vectors under
    [Rz @ Ry @ Rx], the matrices being built as in [get_rotation_matrix]. *)
Definition _get_local_axes (rotation_deg : P3) : P3 * P3 * P3 :=
  let r := np.radians (px rotation_deg) in
  let p := np.radians (py rotation_deg) in
  let y := np.radians (pz rotation_deg) in
  let Rm := matmul (matmul (Rz y) (Ry p)) (Rx r) in
  (mat_vec Rm (mkP3 1 0 0), mat_vec Rm (mkP3 0 1 0), mat_vec Rm (mkP3 0 0 1)).

(** The difference of two points. *)
Definition vec_sub (p q : P3) : P3 := mkP3 (px p - px q) (py p - py q) (pz p - pz q).


(** The fuselage of the editor's "add fuselage" button (Scenario B): a body
    that tapers to a point at both ends. *)
Definition scenario_fuselage : Fuselage :=
  mkFuselage "Fuselage" [(0, 0); (0.5, 0.4); (4.0, 0.4); (5.0, 0)] (mkP3 0 0 0).

(** Profile nodes in strictly ascending x. *)
Definition profile_ascending (profile : list (R * R)) : Prop :=
  StronglySorted (fun a b => fst a < fst b) profile.

(** The labels [mesh_vehicle] gives its parts, in order. *)
Definition part_names (vehicle : Vehicle) : list string :=
  flat_map (fun s => ls_name s :: (if ls_mirrored s
                                   then [(ls_name s ++ "_Mirror")%string] else []))
           (v_surfaces vehicle)
  ++ match v_fuselage vehicle with
     | Some f => [fu_name f]
     | None => []
     end.

Definition is_poly (mesh : pv.Mesh) : bool :=
  match mesh with
  | pv.PolyMesh _ => true
  | pv.GridMesh _ => false
  end.

(** The default vehicle with the Scenario B fuselage. *)
Definition full_vehicle : Vehicle :=
  mkVehicle "WIG Prototype" [main_wing; cranked_wing] (Some scenario_fuselage).

(** The inline chordwise reversal of [export_obj]: it reads
    [g.dimensions], which only a structured grid has. *)
Definition reverse_chordwise (g : pv.Mesh) : result pv.Mesh :=
  match g with
  | pv.GridMesh _ => flip_winding g
  | pv.PolyMesh _ => raise AttributeError
  end.

(** [g.flip_faces(inplace=True)], which only [PolyData] offers. *)
Definition flip_faces_inplace (g : pv.Mesh) : result pv.Mesh :=
  match g with
  | pv.PolyMesh p => ok (pv.PolyMesh (pv.flip_faces p))
  | pv.GridMesh _ => raise AttributeError
  end.

(** [get_grid] of [export_obj].  Anything that is no lifting surface is
    meshed as a fuselage. *)
Definition get_grid (K : pv.Filters) (mesher : StructuredMesher) (obj : Component)
    (viz : option Viz) (mirrored : bool) : result pv.Mesh :=
  let solid := match viz with Some v => solid_view v | None => false end in
  let flip := match viz with Some v => flip_normals v | None => true end in
  g <- match obj with
       | SurfaceObj s => _mesh_surface K mesher s solid
       | FuselageObj f => _mesh_fuselage K mesher f solid
       | OtherObj => raise AttributeError
       end ;;
  g <- (if mirrored
        then if solid then reflect_flip g else reverse_chordwise (negate_y g)
        else ok g) ;;
  g <- (if flip
        then if solid then flip_faces_inplace g else reverse_chordwise g
        else ok g) ;;
  ok g.

(** [add_station_to_selected] on a lifting surface: a station one unit
    outboard of the last one, built with the default section and then given
    the last station's [airfoil_params], [m], [p] and [t]. *)
Definition add_station (surf : LiftingSurface) : result LiftingSurface :=
  match ls_stations surf with
  | [] => raise IndexError
  | st0 :: _ =>
      let last_st := last (ls_stations surf) st0 in
      new_st <- WingStation_init (ws_y last_st + 1.0) (ws_chord last_st) (ws_x last_st)
                  (ws_z last_st) (ws_twist last_st) None ;;
      let new_st :=
        mkWingStation (ws_y new_st) (ws_chord new_st) (ws_x new_st) (ws_z new_st)
          (ws_twist new_st) (ws_airfoil_params last_st)
          (ws_m last_st) (ws_p last_st) (ws_t last_st) (ws_r new_st) in
      ok (mkLiftingSurface (ls_name surf) (ls_stations surf ++ [new_st])
            (ls_position surf) (ls_orientation surf) (ls_mirrored surf))
  end.

(** A wing whose only two stations carry a reflex. *)
Definition reflex_wing : LiftingSurface :=
  LiftingSurface_init "Reflex" [reflex_station; reflex_station] None None true.


(** A block the union can refine: PolyData with at least one point. *)
Definition refinable (block : string * pv.Mesh) : Prop :=
  match snd block with
  | pv.PolyMesh p => pv.n_points p <> 0%nat
  | pv.GridMesh _ => False
  end.

(** [arr[idx] = val] on a Python list. *)
Fixpoint list_set (arr : list R) (idx : nat) (val : R) : result (list R) :=
  match arr, idx with
  | [], _ => raise IndexError
  | _ :: tl, O => ok (val :: tl)
  | a :: tl, S i => tl' <- list_set tl i val ;; ok (a :: tl')
  end.

(** [set_arr(obj.airfoil_params, idx, val, obj)] on a station: the entry is
    written, then [m], [p], [t] are unpacked again from the first three. *)
Definition set_arr_station (st : WingStation) (idx : nat) (val : R) : result WingStation :=
  params <- list_set (ws_airfoil_params st) idx val ;;
  match firstn 3 params with
  | [m; p; t] =>
      ok (mkWingStation (ws_y st) (ws_chord st) (ws_x st) (ws_z st) (ws_twist st)
            params m p t (ws_r st))
  | _ => raise ValueError
  end.

(** [m], [p], [t] agree with the first three entries of the parameter list. *)
Definition params_in_sync (st : WingStation) : Prop :=
  firstn 3 (ws_airfoil_params st) = [ws_m st; ws_p st; ws_t st].

(** The drawing loop of [update_3d_view]: the meshes handed to the plotter,
    in order, and the exception that ended the loop, if any.  Each component
    comes with its display preferences. *)
Fixpoint view_surfaces (K : pv.Filters) (mesher : StructuredMesher)
    (surfaces : list (LiftingSurface * option Viz)) (drawn : list pv.Mesh)
  : list pv.Mesh * option exn :=
  match surfaces with
  | [] => (drawn, None)
  | (surf, viz) :: rest =>
      match process_component K mesher (SurfaceObj surf) viz false with
      | inl e => (drawn, Some e)
      | inr g =>
          let drawn := drawn ++ match g with Some m => [m] | None => [] end in
          if ls_mirrored surf then
            match process_component K mesher (SurfaceObj surf) viz true with
            | inl e => (drawn, Some e)
            | inr g' =>
                view_surfaces K mesher rest
                  (drawn ++ match g' with Some m => [m] | None => [] end)
            end
          else view_surfaces K mesher rest drawn
      end
  end.

Definition update_3d_view (K : pv.Filters) (mesher : StructuredMesher)
    (surfaces : list (LiftingSurface * option Viz))
    (fuselage : option (Fuselage * option Viz)) : list pv.Mesh * option exn :=
  match view_surfaces K mesher surfaces [] with
  | (drawn, Some e) => (drawn, Some e)
  | (drawn, None) =>
      match fuselage with
      | None => (drawn, None)
      | Some (f, viz) =>
          match process_component K mesher (FuselageObj f) viz false with
          | inl e => (drawn, Some e)
          | inr g => (drawn ++ match g with Some m => [m] | None => [] end, None)
          end
      end
  end.

(** * Properties *)

(** ** Rotation composition *)

Lemma map_points_compose (f g : P3 -> P3) (grid : pv.StructuredGrid) :
  pv.map_points f (pv.map_points g grid) = pv.map_points (fun q => f (g q)) grid.
Proof.
  unfold pv.map_points; simpl. now rewrite map_map.
Qed.

Lemma sequential_rotation_point (roll pitch yaw : R) (q : P3) :
  pv.rot_z yaw (pv.rot_y pitch (pv.rot_x roll q))
  = mat_vec (get_rotation_matrix roll pitch yaw) q.
Proof.
  destruct q as [x y z].
  unfold pv.rot_z, pv.rot_y, pv.rot_x, get_rotation_matrix, matmul, mat_vec,
    mat_col, row_dot, Rx, Ry, Rz; simpl.
  f_equal; ring.
Qed.

(** C10: the three sequential rotations of [_transform_grid] (about X by
    roll, then about Y by pitch, then about Z by yaw, each about the fixed
    global axis) move every grid point to the image of that point under the
    single matrix [Rz @ Ry @ Rx] of [get_rotation_matrix]; [_transform_grid]
    is that matrix followed by the translation. *)
Theorem transform_grid_is_combined_matrix (grid : pv.StructuredGrid) (surface : LiftingSurface) :
  let o := ls_orientation surface in
  pv.rotate_z (pz o) (pv.rotate_y (py o) (pv.rotate_x (px o) grid))
  = pv.map_points (mat_vec (get_rotation_matrix (px o) (py o) (pz o))) grid
  /\ _transform_grid grid surface
     = pv.translate (ls_position surface)
         (pv.map_points (mat_vec (get_rotation_matrix (px o) (py o) (pz o))) grid).
Proof.
  intros o.
  assert (E : pv.rotate_z (pz o) (pv.rotate_y (py o) (pv.rotate_x (px o) grid))
              = pv.map_points (mat_vec (get_rotation_matrix (px o) (py o) (pz o))) grid).
  { unfold pv.rotate_z, pv.rotate_y, pv.rotate_x.
    rewrite !map_points_compose. unfold pv.map_points. f_equal.
    apply map_ext. intros q. apply sequential_rotation_point. }
  split; [exact E|].
  unfold _transform_grid. fold o. now rewrite E.
Qed.

(** ** Array shapes *)

Lemma zipWith_length {A B C} (f : A -> B -> C) (a : list A) (b : list B) :
  length (np.zipWith f a b) = Nat.min (length a) (length b).
Proof.
  revert b; induction a as [|x a IH]; intros [|y b]; simpl; auto.
Qed.

Lemma removelast_length {A} (l : list A) :
  length (removelast l) = (length l - 1)%nat.
Proof. rewrite removelast_firstn_len, length_firstn. lia. Qed.

Lemma removelast_app_length {A} (l : list A) (v : A) :
  l <> [] -> length (removelast l ++ [v]) = length l.
Proof.
  intros H. rewrite length_app, removelast_length; simpl.
  destruct l; [congruence | simpl; lia].
Qed.

Lemma linspace_length (a b : R) (n : nat) : length (np.linspace a b n) = n.
Proof.
  unfold np.linspace.
  destruct (Nat.ltb_spec 1 n) as [H|H].
  - rewrite removelast_app_length; [now rewrite length_map, length_seq|].
    destruct n; [lia | discriminate].
  - now rewrite length_map, length_seq.
Qed.

Lemma chord_samples_length (n : nat) : length (chord_samples n) = n.
Proof. unfold chord_samples. now rewrite length_map, linspace_length. Qed.

Lemma py_div_ok (a b : R) : b <> 0 -> py_div a b = ok (a / b).
Proof. intros H. unfold py_div. destruct (Req_dec_T b 0); [contradiction | reflexivity]. Qed.

Lemma py_div_zero (a b : R) : b = 0 -> py_div a b = raise ZeroDivisionError.
Proof. intros H. unfold py_div. destruct (Req_dec_T b 0); [reflexivity | contradiction]. Qed.

Lemma camber_line_ok (m p r : R) (x : list R) :
  ~ (0 < m /\ p = 1) ->
  exists yc, camber_line m p r x = ok yc /\ length yc = length x.
Proof.
  intros H. unfold camber_line, np.add, np.zeros_like.
  destruct (Rlt_dec 0 m) as [Hm|Hm]; [destruct (Rlt_dec 0 p) as [Hp|Hp]|].
  - rewrite !py_div_ok by (apply pow_nonzero; lra). cbn [bind ok].
    eexists; split; [reflexivity|].
    destruct (Req_dec_T r 0); rewrite ?zipWith_length, ?length_map; lia.
  - cbn [bind ok]. eexists; split; [reflexivity|].
    destruct (Req_dec_T r 0); rewrite ?zipWith_length, ?length_map; lia.
  - cbn [bind ok]. eexists; split; [reflexivity|].
    destruct (Req_dec_T r 0); rewrite ?zipWith_length, ?length_map; lia.
Qed.

Lemma camber_slope_ok (m p : R) (x : list R) :
  ~ (0 < m /\ p = 1) ->
  exists dyc, camber_slope m p x = ok dyc /\ length dyc = length x.
Proof.
  intros H. unfold camber_slope, np.zeros_like.
  destruct (Rlt_dec 0 m) as [Hm|Hm]; [destruct (Rlt_dec 0 p) as [Hp|Hp]|].
  - rewrite !py_div_ok by (apply pow_nonzero; lra). cbn [bind ok].
    eexists; split; [reflexivity | now rewrite length_map].
  - eexists; split; [reflexivity | now rewrite length_map].
  - eexists; split; [reflexivity | now rewrite length_map].
Qed.

Lemma camber_line_fails (m p r : R) (x : list R) :
  0 < m -> p = 1 -> camber_line m p r x = raise ZeroDivisionError.
Proof.
  intros Hm ->. unfold camber_line.
  destruct (Rlt_dec 0 m) as [_|H]; [|contradiction].
  destruct (Rlt_dec 0 1) as [_|H]; [|lra].
  rewrite py_div_ok by (apply pow_nonzero; lra).
  rewrite py_div_zero by ring. reflexivity.
Qed.

Lemma close_te_length (l : list R) : length (close_te l) = length l.
Proof.
  unfold close_te. destruct l as [|a l]; [reflexivity|].
  rewrite removelast_app_length; simpl; congruence.
Qed.

Lemma set_last_ok {A} (a : list A) (v : A) :
  a <> [] -> np.set_last a v = ok (removelast a ++ [v]).
Proof. destruct a; [congruence | reflexivity]. Qed.

(** With at least one chordwise sample the airfoil generator returns a loop
    of [2 * chord_res - 1] points. *)
(** The loop assembled from the thickness, camber and slope arrays. *)
Lemma get_airfoil_coords_unfold (self : StructuredMesher) (st : WingStation)
    (yc dyc_dx : list R) :
  (1 <= chord_res self)%nat ->
  let x := chord_samples (chord_res self) in
  let yt := removelast (map (thickness (ws_t st)) x) ++ [0] in
  camber_line (ws_m st) (ws_p st) (ws_r st) x = ok yc ->
  camber_slope (ws_m st) (ws_p st) x = ok dyc_dx ->
  length yt = length x
  /\ _get_airfoil_coords self st
     = ok (np.zipWith (fun xi zi => mkP3 xi 0 zi)
             (close_te (rev (np.sub x (np.mul yt (map sin (map atan dyc_dx))))
                        ++ tl (np.add x (np.mul yt (map sin (map atan dyc_dx))))))
             (close_te (rev (np.add yc (np.mul yt (map cos (map atan dyc_dx))))
                        ++ tl (np.sub yc (np.mul yt (map cos (map atan dyc_dx))))))).
Proof.
  intros HN x yt Ec Es. unfold _get_airfoil_coords. fold x.
  pose proof (chord_samples_length (chord_res self)) as Hx. fold x in Hx.
  assert (Hne : map (thickness (ws_t st)) x <> []).
  { intros E. apply (f_equal (@length R)) in E. rewrite length_map in E. simpl in E. lia. }
  rewrite (set_last_ok _ 0 Hne). cbn [bind ok]. fold yt.
  rewrite Ec. cbn [bind ok]. rewrite Es. cbn [bind ok].
  split; [|reflexivity].
  unfold yt. rewrite removelast_app_length by exact Hne. now rewrite length_map.
Qed.

(** With at least one chordwise sample and a camber that can be evaluated,
    the airfoil generator returns a loop of [2 * chord_res - 1] points. *)
Lemma get_airfoil_coords_ok (self : StructuredMesher) (st : WingStation) :
  (1 <= chord_res self)%nat -> camber_defined st ->
  exists loop, _get_airfoil_coords self st = ok loop
               /\ length loop = (2 * chord_res self - 1)%nat.
Proof.
  intros HN [_ Hc].
  destruct (camber_line_ok (ws_m st) (ws_p st) (ws_r st)
              (chord_samples (chord_res self)) Hc) as (yc & Ec & Lc).
  destruct (camber_slope_ok (ws_m st) (ws_p st)
              (chord_samples (chord_res self)) Hc) as (dyc & Es & Ls).
  destruct (get_airfoil_coords_unfold self st yc dyc HN Ec Es) as [Hyt E].
  rewrite E. eexists; split; [reflexivity|].
  pose proof (chord_samples_length (chord_res self)) as Hx.
  unfold np.add, np.sub, np.mul.
  rewrite zipWith_length, !close_te_length, !length_app, !length_rev, !length_tl.
  rewrite !zipWith_length, !length_map, Lc, Ls, Hyt, Hx.
  lia.
Qed.

Lemma get_airfoil_coords_empty (self : StructuredMesher) (st : WingStation) :
  chord_res self = 0%nat -> _get_airfoil_coords self st = raise IndexError.
Proof.
  intros H. unfold _get_airfoil_coords, chord_samples. now rewrite H.
Qed.

(** A cambered section with [p = 1] cannot be generated. *)
Lemma get_airfoil_coords_zero_division (self : StructuredMesher) (st : WingStation) :
  (1 <= chord_res self)%nat -> 0 < ws_m st -> ws_p st = 1 ->
  _get_airfoil_coords self st = raise ZeroDivisionError.
Proof.
  intros HN Hm Hp. unfold _get_airfoil_coords.
  pose proof (chord_samples_length (chord_res self)) as Hx.
  set (x := chord_samples (chord_res self)) in *.
  assert (Hne : map (thickness (ws_t st)) x <> []).
  { intros E. apply (f_equal (@length R)) in E. rewrite length_map in E. simpl in E. lia. }
  rewrite (set_last_ok _ 0 Hne). cbn [bind ok].
  now rewrite (camber_line_fails _ _ _ _ Hm Hp).
Qed.

Lemma position_profile_length (coords : list P3) (st : WingStation) :
  length (_position_profile coords st) = length coords.
Proof. unfold _position_profile. now rewrite length_map. Qed.

Lemma loft_segment_ok (self : StructuredMesher) (st1 st2 : WingStation) :
  (1 <= chord_res self)%nat -> camber_defined st1 -> camber_defined st2 ->
  exists af1 af2,
    _get_airfoil_coords self st1 = ok af1
    /\ _get_airfoil_coords self st2 = ok af2
    /\ length af1 = (2 * chord_res self - 1)%nat
    /\ length af2 = (2 * chord_res self - 1)%nat
    /\ _loft_segment self st1 st2
       = ok (mkNd (map (fun ti => np.zipWith (lerp ti) (_position_profile af1 st1)
                                                      (_position_profile af2 st2))
                       (np.linspace 0 1 (span_res self)))
                  (2 * chord_res self - 1)).
Proof.
  intros HN Hc1 Hc2.
  destruct (get_airfoil_coords_ok self st1 HN Hc1) as (af1 & E1 & L1).
  destruct (get_airfoil_coords_ok self st2 HN Hc2) as (af2 & E2 & L2).
  exists af1, af2. repeat split; auto.
  unfold _loft_segment. rewrite E1, E2. simpl.
  now rewrite position_profile_length, L1.
Qed.

Lemma loft_segments_cons (self : StructuredMesher) (i : nat) (a b : WingStation)
    (l : list WingStation) :
  loft_segments self i (a :: b :: l)
  = (segment_points <- _loft_segment self a b ;;
     all_points <- loft_segments self (S i) (b :: l) ;;
     ok ((if (0 <? i)%nat
          then mkNd (tl (nd_rows segment_points)) (nd_width segment_points)
          else segment_points) :: all_points)).
Proof. reflexivity. Qed.

Lemma loft_segments_ok (self : StructuredMesher) (stations : list WingStation) :
  (1 <= chord_res self)%nat -> Forall camber_defined stations ->
  forall i, exists segs,
    loft_segments self i stations = ok segs
    /\ length segs = (length stations - 1)%nat
    /\ Forall (fun nd => nd_width nd = (2 * chord_res self - 1)%nat) segs.
Proof.
  intros HN Hc. induction stations as [|st_in rest IH]; intros i.
  - exists []. simpl. auto.
  - destruct rest as [|st_out rest'].
    + exists []. simpl. auto.
    + inversion Hc as [|? ? Hc1 Hc']; subst. inversion Hc' as [|? ? Hc2 _]; subst.
      destruct (loft_segment_ok self st_in st_out HN Hc1 Hc2)
        as (af1 & af2 & _ & _ & _ & _ & E).
      destruct (IH Hc' (S i)) as (segs & Es & Ls & Fs).
      rewrite loft_segments_cons, E. cbn [bind ok]. rewrite Es. cbn [bind ok].
      eexists; split; [reflexivity|]. split.
      * simpl in *. lia.
      * constructor; [destruct (0 <? i)%nat; reflexivity | exact Fs].
Qed.

(** ** Too few stations *)

Lemma loft_segments_short (self : StructuredMesher) (stations : list WingStation) (i : nat) :
  (length stations < 2)%nat -> loft_segments self i stations = ok [].
Proof.
  destruct stations as [|a [|b l]]; simpl; intros H; try reflexivity; lia.
Qed.

Lemma mesh_surface_short (K : pv.Filters) (self : StructuredMesher)
    (surface : LiftingSurface) (solid : bool) :
  (length (ls_stations surface) < 2)%nat ->
  _mesh_surface K self surface solid = raise ValueError.
Proof.
  intros H. unfold _mesh_surface, surface_grid.
  now rewrite (loft_segments_short self (ls_stations surface) 0 H).
Qed.

(** C9: a surface with fewer than two stations is rejected.  The loop over
    station pairs runs zero times, so no segment is lofted, and
    [np.concatenate] of the empty list raises [ValueError]: [_mesh_surface]
    returns the exception, in open and in solid mode, and never a mesh. *)
Theorem mesh_surface_rejects_short_surface (K : pv.Filters) (self : StructuredMesher)
    (surface : LiftingSurface) (solid : bool) :
  (length (ls_stations surface) < 2)%nat ->
  loft_segments self 0 (ls_stations surface) = ok []
  /\ _mesh_surface K self surface solid = raise ValueError
  /\ forall mesh, _mesh_surface K self surface solid <> ok mesh.
Proof.
  intros H. split; [now apply loft_segments_short|].
  pose proof (mesh_surface_short K self surface solid H) as E.
  split; [exact E|]. intros mesh. rewrite E. discriminate.
Qed.

Lemma mesh_surface_rejects_short_surface_witness :
  (length (ls_stations stub_fin) < 2)%nat
  /\ _mesh_surface append_kernel default_mesher stub_fin false = raise ValueError.
Proof.
  split; [simpl; lia|].
  apply (mesh_surface_rejects_short_surface append_kernel default_mesher stub_fin false).
  simpl; lia.
Defined.

(** ** Failures inside the assembler *)

Lemma surface_grid_ok (self : StructuredMesher) (surface : LiftingSurface) :
  (1 <= chord_res self)%nat ->
  (2 <= length (ls_stations surface))%nat ->
  Forall camber_defined (ls_stations surface) ->
  exists grid, surface_grid self surface = ok grid.
Proof.
  intros HN HS Hc. unfold surface_grid.
  destruct (loft_segments_ok self (ls_stations surface) HN Hc 0) as (segs & E & L & _).
  rewrite E. cbn [bind ok].
  destruct segs as [|a segs]; [simpl in L; lia|].
  simpl. eexists; reflexivity.
Qed.

Lemma mesh_surface_ok (K : pv.Filters) (self : StructuredMesher)
    (surface : LiftingSurface) (solid : bool) :
  (1 <= chord_res self)%nat ->
  (2 <= length (ls_stations surface))%nat ->
  Forall camber_defined (ls_stations surface) ->
  exists mesh, _mesh_surface K self surface solid = ok mesh.
Proof.
  intros HN HS Hc. unfold _mesh_surface.
  destruct (surface_grid_ok self surface HN HS Hc) as (grid & E).
  rewrite E. cbn [bind ok]. destruct solid; simpl; eexists; reflexivity.
Qed.

Lemma mesh_surfaces_propagates (K : pv.Filters) (self : StructuredMesher) (solid : bool)
    (surfaces : list LiftingSurface) :
  (exists s e, In s surfaces /\ _mesh_surface K self s solid = inl e) ->
  forall parts, exists e, mesh_surfaces K self surfaces solid parts = inl e.
Proof.
  induction surfaces as [|surface rest IH]; intros (s & e & Hin & Hs) parts.
  - destruct Hin.
  - cbn [mesh_surfaces].
    destruct (_mesh_surface K self surface solid) as [e1|mesh] eqn:E1.
    + exists e1. reflexivity.
    + assert (Hrest : exists s e, In s rest /\ _mesh_surface K self s solid = inl e).
      { destruct Hin as [->|Hin]; [congruence|]. exists s, e. auto. }
      cbn [bind]. destruct (ls_mirrored surface).
      * destruct (if solid then reflect_flip mesh else ok (negate_y mesh)) as [e2|mm].
        -- exists e2. reflexivity.
        -- cbn [bind]. apply IH, Hrest.
      * apply IH, Hrest.
Qed.

(** C8 (as the code has it): [mesh_vehicle] has no handler.  When meshing any
    one surface fails, or meshing the fuselage fails, the exception leaves
    [mesh_vehicle] and no collection of parts is returned, whatever the other
    components are. *)
Theorem mesh_vehicle_propagates_failure (K : pv.Filters) (self : StructuredMesher)
    (vehicle : Vehicle) (solid : bool) :
  (exists s e, In s (v_surfaces vehicle) /\ _mesh_surface K self s solid = inl e)
  \/ (exists f e, v_fuselage vehicle = Some f /\ _mesh_fuselage K self f solid = inl e) ->
  exists e, mesh_vehicle K self vehicle solid = inl e.
Proof.
  intros [Hs|(f & e & Hf & Ef)]; unfold mesh_vehicle.
  - destruct (mesh_surfaces_propagates K self solid _ Hs []) as (e & E).
    exists e. now rewrite E.
  - destruct (mesh_surfaces K self (v_surfaces vehicle) solid []) as [e1|parts].
    + exists e1. reflexivity.
    + cbn [bind]. rewrite Hf, Ef. exists e. reflexivity.
Qed.

Lemma stub_fin_fails :
  _mesh_surface append_kernel default_mesher stub_fin false = raise ValueError.
Proof. apply mesh_surface_short. simpl; lia. Qed.

Lemma symmetric_camber_defined (st : WingStation) : ws_m st = 0 -> camber_defined st.
Proof. intros H. split; [intros Hm; lra | intros [Hm _]; lra]. Qed.

Lemma main_wing_camber_defined : Forall camber_defined (ls_stations main_wing).
Proof.
  repeat (apply Forall_cons; [now apply symmetric_camber_defined|]). apply Forall_nil.
Qed.

Lemma main_wing_meshes (solid : bool) :
  exists mesh, _mesh_surface append_kernel default_mesher main_wing solid = ok mesh.
Proof.
  apply mesh_surface_ok; [simpl; lia | simpl; lia | exact main_wing_camber_defined].
Qed.

Lemma mesh_vehicle_propagates_failure_witness :
  exists e, mesh_vehicle append_kernel default_mesher damaged_vehicle false = inl e.
Proof.
  apply (mesh_vehicle_propagates_failure append_kernel default_mesher damaged_vehicle false).
  left. exists stub_fin, ValueError. split; [simpl; auto | exact stub_fin_fails].
Defined.

(** C8 fails as stated: the first surface of [damaged_vehicle] cannot be
    meshed, the second one can, and [mesh_vehicle] returns the exception
    instead of a collection holding the second surface. *)
Lemma mesh_vehicle_aborts_on_bad_component :
  _mesh_surface append_kernel default_mesher stub_fin false = raise ValueError
  /\ (exists mesh, _mesh_surface append_kernel default_mesher main_wing false = ok mesh)
  /\ mesh_vehicle append_kernel default_mesher damaged_vehicle false = raise ValueError
  /\ ~ (exists parts, mesh_vehicle append_kernel default_mesher damaged_vehicle false = ok parts).
Proof.
  assert (E : mesh_vehicle append_kernel default_mesher damaged_vehicle false = raise ValueError).
  { unfold mesh_vehicle, damaged_vehicle. cbn [v_surfaces mesh_surfaces].
    now rewrite stub_fin_fails. }
  split; [exact stub_fin_fails|].
  split; [exact (main_wing_meshes false)|].
  split; [exact E|].
  intros (parts & Hp). rewrite E in Hp. discriminate.
Qed.

(** ** Progress of the union *)

Lemma pct_mono (base span : Z) (i j n : nat) :
  (0 <= span)%Z -> (i <= j)%nat -> (pct base i n span <= pct base j n span)%Z.
Proof.
  intros Hs Hij. unfold pct.
  destruct (Nat.eq_dec n 0) as [->|Hn].
  - simpl. rewrite !Z.div_0_r. lia.
  - apply Zplus_le_compat_l, Z.div_le_mono; nia.
Qed.

Lemma pct_bounds (base span : Z) (i n : nat) :
  (0 < span)%Z -> (i < n)%nat ->
  (base <= pct base i n span <= base + span - 1)%Z.
Proof.
  intros Hs Hin. unfold pct.
  assert (0 <= Z.of_nat i * span / Z.of_nat n)%Z by (apply Z.div_pos; nia).
  assert (Z.of_nat i * span / Z.of_nat n < span)%Z by (apply Z.div_lt_upper_bound; nia).
  lia.
Qed.

Lemma StronglySorted_app (l1 l2 : list Z) :
  StronglySorted Z.le l1 -> StronglySorted Z.le l2 ->
  (forall a b, In a l1 -> In b l2 -> (a <= b)%Z) ->
  StronglySorted Z.le (l1 ++ l2).
Proof.
  induction l1 as [|a l1 IH]; simpl; intros H1 H2 H; auto.
  inversion H1; subst. constructor.
  - apply IH; auto.
  - apply Forall_app; split; auto.
    apply Forall_forall. intros b Hb. apply H; auto.
Qed.

Section Progress.

Variable K : pv.Filters.
Variable mesher : StructuredMesher.

Lemma refine_loop_percents (count : nat) (blocks : pv.MultiBlock) :
  forall i, (i + length blocks <= count)%nat ->
  let ps := percents (fst (refine_loop K count i blocks)) in
  StronglySorted Z.le ps
  /\ Forall (fun p => (pct 10 i count 30 <= p <= 39)%Z) ps.
Proof.
  induction blocks as [|[name block] rest IH]; intros i Hi; cbn [refine_loop].
  - simpl. split; constructor.
  - cbn [length] in Hi. unfold truthy.
    assert (Hb : (10 <= pct 10 i count 30 <= 39)%Z)
      by (pose proof (pct_bounds 10 30 i count); lia).
    destruct (make_solid K block) as [e|s].
    + cbn [fst percents map snd]. split.
      * constructor; constructor.
      * constructor; [lia | constructor].
    + specialize (IH (S i) ltac:(lia)).
      destruct (refine_loop K count (S i) rest) as [log r].
      cbn [fst percents map snd] in *. destruct IH as [IHs IHb].
      pose proof (pct_mono 10 30 i (S i) count ltac:(lia) ltac:(lia)) as Hm.
      split.
      * constructor; auto.
        eapply Forall_impl; [|exact IHb]. cbv beta. intros; lia.
      * constructor; [lia|].
        eapply Forall_impl; [|exact IHb]. cbv beta. intros; lia.
Qed.

Lemma merge_loop_percents (total : nat) (rest : list pv.PolyData) :
  forall i unified, (i + length rest <= total)%nat ->
  let ps := percents (fst (merge_loop K total i unified rest)) in
  StronglySorted Z.le ps
  /\ Forall (fun p => (pct 40 i total 50 <= p <= 89)%Z) ps.
Proof.
  induction rest as [|s rest IH]; intros i unified Hi; cbn [merge_loop].
  - simpl. split; constructor.
  - cbn [length] in Hi.
    assert (Hb : (40 <= pct 40 i total 50 <= 89)%Z)
      by (pose proof (pct_bounds 40 50 i total); lia).
    match goal with |- context [merge_loop K total (S i) ?u rest] =>
      specialize (IH (S i) u ltac:(lia));
      destruct (merge_loop K total (S i) u rest) as [log u'] end.
    cbn [fst percents map snd] in *. destruct IH as [IHs IHb].
    pose proof (pct_mono 40 50 i (S i) total ltac:(lia) ltac:(lia)) as Hm.
    split.
    + constructor; auto.
      eapply Forall_impl; [|exact IHb]. cbv beta. intros; lia.
    + constructor; [lia|].
      eapply Forall_impl; [|exact IHb]. cbv beta. intros; lia.
Qed.

Lemma refine_loop_length (count : nat) (blocks : pv.MultiBlock) :
  forall i solids, snd (refine_loop K count i blocks) = ok solids ->
  length solids = length blocks.
Proof.
  induction blocks as [|[name block] rest IH]; intros i solids; cbn [refine_loop].
  - simpl. intros E. inversion E. reflexivity.
  - unfold truthy. destruct (make_solid K block) as [e|s]; [discriminate|].
    specialize (IH (S i)).
    destruct (refine_loop K count (S i) rest) as [log [e|ss]]; [discriminate|].
    simpl. intros E. inversion E. simpl. f_equal. now apply IH.
Qed.

End Progress.

Lemma all_solids_length (l : list (option pv.PolyData)) (ps : list pv.PolyData) :
  all_solids l = ok ps -> length ps = length l.
Proof.
  revert ps; induction l as [|[p|] l IH]; simpl; intros ps E.
  - inversion E; reflexivity.
  - destruct (all_solids l) as [e|ps']; [discriminate|].
    inversion E; simpl. f_equal. now apply IH.
  - discriminate.
Qed.

Lemma insert_desc_length (x : pv.PolyData) (l : list pv.PolyData) :
  length (insert_desc x l) = S (length l).
Proof.
  induction l as [|y l IH]; simpl; auto.
  destruct (pv.n_cells y <=? pv.n_cells x)%nat; simpl; auto.
Qed.

Lemma sort_desc_length (l : list pv.PolyData) : length (sort_desc l) = length l.
Proof.
  induction l as [|x l IH]; simpl; auto.
  now rewrite insert_desc_length, IH.
Qed.

Lemma Forall_last {A} (P : A -> Prop) (l : list A) (d : A) :
  Forall P l -> l <> [] -> P (last l d).
Proof.
  induction 1 as [|a l Ha Hl IH]; [congruence|]. intros _.
  destruct l as [|b l]; [exact Ha|]. apply IH. discriminate.
Qed.

Lemma run_heavy_union_percents (K : pv.Filters) (mesher : StructuredMesher)
    (vehicle : Vehicle) :
  exists ps, percents (fst (run_heavy_union K mesher vehicle)) = 10%Z :: ps
             /\ StronglySorted Z.le (10%Z :: ps)
             /\ Forall (fun p => (10 <= p <= 89)%Z) (10%Z :: ps).
Proof.
  assert (Base : StronglySorted Z.le [10%Z] /\ Forall (fun p => (10 <= p <= 89)%Z) [10%Z]).
  { split; repeat constructor; lia. }
  unfold run_heavy_union.
  destruct (mesh_vehicle K mesher vehicle true) as [e|multiblock];
    [exists []; auto|].
  destruct multiblock as [|b0 bs] eqn:Emb; [exists []; auto|].
  rewrite <- Emb. clear Base.
  pose proof (refine_loop_percents K (length multiblock) multiblock 0%nat ltac:(lia)) as H1.
  pose proof (refine_loop_length K (length multiblock) multiblock 0%nat) as HL.
  destruct (refine_loop K (length multiblock) 0 multiblock) as [log1 r].
  cbn [fst snd] in *. destruct H1 as [S1 B1].
  assert (P0 : pct 10 0 (length multiblock) 30 = 10%Z).
  { unfold pct. change (Z.of_nat 0 * 30)%Z with 0%Z. destruct (Z.of_nat (length multiblock)); reflexivity. }
  rewrite P0 in B1.
  assert (Head : StronglySorted Z.le (10%Z :: percents log1)
                 /\ Forall (fun p => (10 <= p <= 89)%Z) (10%Z :: percents log1)).
  { split.
    - constructor; auto. eapply Forall_impl; [|exact B1]. cbv beta. intros; lia.
    - constructor; [lia|]. eapply Forall_impl; [|exact B1]. cbv beta. intros; lia. }
  destruct r as [e|solids]; [exists (percents log1); auto|].
  destruct solids as [|s0 ss] eqn:Es; [exists (percents log1); auto|].
  rewrite <- Es.
  destruct (all_solids solids) as [e|ps] eqn:Eps; [exists (percents log1); auto|].
  destruct (sort_desc ps) as [|unified rest] eqn:Esort; [exists (percents log1); auto|].
  assert (Hlen : (1 + length rest <= length solids)%nat).
  { rewrite <- (all_solids_length _ _ Eps), <- (sort_desc_length ps), Esort. simpl. lia. }
  pose proof (merge_loop_percents K (length solids) rest 1%nat unified Hlen) as H2.
  destruct (merge_loop K (length solids) 1 unified rest) as [log2 u].
  cbn [fst] in *. destruct H2 as [S2 B2].
  exists (percents log1 ++ percents log2).
  unfold percents in *. cbn [map snd]. rewrite map_app.
  assert (B2' : Forall (fun p => (40 <= p <= 89)%Z) (map snd log2)).
  { eapply Forall_impl; [|exact B2]. cbv beta. intros a Ha.
    assert (40 <= pct 40 1 (length solids) 50)%Z; [|lia].
    unfold pct. pose proof (Z_div_nonneg_nonneg (Z.of_nat 1 * 50) (Z.of_nat (length solids))).
    lia. }
  split; [reflexivity|]. destruct Head as [HS HB]. split.
  - apply (StronglySorted_app (10%Z :: map snd log1) (map snd log2)); auto.
    intros a b Ha Hb.
    rewrite Forall_forall in B2'. specialize (B2' b Hb).
    destruct Ha as [<-|Ha]; [lia|].
    rewrite Forall_forall in B1. specialize (B1 a Ha). lia.
  - apply (Forall_app _ (10%Z :: map snd log1) (map snd log2)). split; auto.
    eapply Forall_impl; [|exact B2']. cbv beta. intros; lia.
Qed.

(** C7 (as the code has it): the percent values handed to
    [progress_callback] by [run_heavy_union] never decrease; the first one
    is 10 and every one lies between 10 and 89, so the last value reported is
    never 100. *)
Theorem run_heavy_union_progress (K : pv.Filters) (mesher : StructuredMesher)
    (vehicle : Vehicle) :
  let ps := percents (fst (run_heavy_union K mesher vehicle)) in
  StronglySorted Z.le ps
  /\ hd_error ps = Some 10%Z
  /\ Forall (fun p => (10 <= p <= 89)%Z) ps
  /\ last ps 0%Z <> 100%Z.
Proof.
  destruct (run_heavy_union_percents K mesher vehicle) as (ps & E & HS & HB).
  cbv zeta. rewrite E. repeat split; auto.
  pose proof (Forall_last _ _ 0%Z HB ltac:(discriminate)) as HL.
  cbv beta in HL. lia.
Qed.

(** ** Mirroring *)

Lemma firstn_length_app {A} (a b : list A) : firstn (length a) (a ++ b) = a.
Proof. induction a; simpl; [now destruct b | congruence]. Qed.

Lemma skipn_length_app {A} (a b : list A) : skipn (length a) (a ++ b) = b.
Proof. induction a; simpl; auto. Qed.

Lemma chunks_concat (width : nat) (rs : list (list P3)) :
  Forall (fun r => length r = width) rs ->
  chunks width (length rs) (concat rs) = rs.
Proof.
  induction 1 as [|r rs Hr Hrs IH]; simpl; [reflexivity|].
  subst width. now rewrite firstn_length_app, skipn_length_app, IH.
Qed.

Lemma chunks_shape (width rows : nat) :
  forall pts, length pts = (rows * width)%nat ->
  Forall (fun r => length r = width) (chunks width rows pts)
  /\ length (chunks width rows pts) = rows
  /\ concat (chunks width rows pts) = pts.
Proof.
  induction rows as [|rows IH]; intros pts H; simpl in *.
  - destruct pts; [auto | discriminate].
  - destruct (IH (skipn width pts)) as (F & L & C).
    { rewrite length_skipn. lia. }
    repeat split.
    + constructor; auto. rewrite length_firstn. lia.
    + now rewrite L.
    + rewrite C. apply firstn_skipn.
Qed.

Lemma chunks_map (f : P3 -> P3) (width rows : nat) :
  forall pts, chunks width rows (map f pts) = map (map f) (chunks width rows pts).
Proof.
  induction rows as [|rows IH]; intros pts; simpl; [reflexivity|].
  now rewrite firstn_map, skipn_map, IH.
Qed.

(** The point array of a flipped grid. *)
Lemma flip_rows_map (f : P3 -> P3) (width rows : nat) (pts : list P3) :
  concat (map (@rev P3) (chunks width rows (map f pts)))
  = map f (concat (map (@rev P3) (chunks width rows pts))).
Proof.
  rewrite chunks_map, concat_map, !map_map. f_equal.
  apply map_ext. intros r. now rewrite map_rev.
Qed.

Lemma flip_rows_length (width rows : nat) (pts : list P3) :
  length pts = (rows * width)%nat ->
  length (concat (map (@rev P3) (chunks width rows pts))) = (rows * width)%nat.
Proof.
  intros H. destruct (chunks_shape width rows pts H) as (F & L & C).
  transitivity (length (concat (chunks width rows pts))); [|now rewrite C].
  rewrite !length_concat, map_map. f_equal. apply map_ext.
  intros r. apply length_rev.
Qed.

Lemma flip_rows_involutive (width rows : nat) (pts : list P3) :
  length pts = (rows * width)%nat ->
  concat (map (@rev P3) (chunks width rows
     (concat (map (@rev P3) (chunks width rows pts))))) = pts.
Proof.
  intros H. destruct (chunks_shape width rows pts H) as (F & L & C).
  assert (F' : Forall (fun r => length r = width) (map (@rev P3) (chunks width rows pts))).
  { apply Forall_map. eapply Forall_impl; [|exact F]. intros r Hr. now rewrite length_rev. }
  pose proof (chunks_concat width _ F') as E.
  rewrite length_map, L in E. rewrite E, map_map.
  rewrite <- C at 2. f_equal. rewrite <- (map_id (chunks width rows pts)) at 2.
  apply map_ext. intros r. apply rev_involutive.
Qed.

Lemma neg_y_involutive (q : P3) : pv.neg_y (pv.neg_y q) = q.
Proof. destruct q as [x y z]. unfold pv.neg_y; simpl. f_equal. ring. Qed.

Lemma map_neg_y_involutive (pts : list P3) : map pv.neg_y (map pv.neg_y pts) = pts.
Proof.
  rewrite map_map. rewrite <- (map_id pts) at 2.
  apply map_ext, neg_y_involutive.
Qed.

Lemma reflect_involutive (p : pv.PolyData) : pv.reflect (pv.reflect p) = p.
Proof.
  destruct p as [pts fs]. unfold pv.reflect; simpl. now rewrite map_neg_y_involutive.
Qed.

Lemma flip_faces_involutive (p : pv.PolyData) : pv.flip_faces (pv.flip_faces p) = p.
Proof.
  destruct p as [pts fs]. unfold pv.flip_faces; simpl. f_equal.
  rewrite map_map. rewrite <- (map_id fs) at 2.
  apply map_ext, rev_involutive.
Qed.

Lemma negate_y_involutive (mesh : pv.Mesh) : negate_y (negate_y mesh) = mesh.
Proof.
  destruct mesh as [[pts d]|p]; simpl.
  - unfold pv.map_points; simpl. now rewrite map_neg_y_involutive.
  - now rewrite reflect_involutive.
Qed.

Lemma flip_winding_grid (pts : list P3) (d0 d1 d2 : nat) :
  length pts = (d2 * d1 * d0)%nat ->
  flip_winding (pv.GridMesh (pv.mkGrid pts (d0, d1, d2)))
  = ok (pv.GridMesh (pv.mkGrid (concat (map (@rev P3) (chunks d0 (d2 * d1) pts)))
                               (d0, d1, d2))).
Proof.
  intros H. unfold flip_winding, reshape. cbn [pv.dimensions pv.points].
  rewrite H, Nat.eqb_refl. reflexivity.
Qed.

(** C6: mirroring is an involution.  The mirror of [process_component]
    (negate y, then flip the faces of a solid or reverse the chordwise index
    of an open grid) succeeds on every part and, applied to its own result,
    gives back the part: the same points in the same order, the same faces,
    the same dimensions.  The mirror of [mesh_vehicle], which only negates y
    on an open grid, is an involution as well. *)
Theorem mirror_is_involution (use_solid : bool) (part : pv.Mesh) :
  mirror_ready use_solid part ->
  (exists m1, mirror_part use_solid part = ok m1 /\ mirror_part use_solid m1 = ok part)
  /\ negate_y (negate_y part) = part.
Proof.
  intros H. split; [|apply negate_y_involutive].
  destruct part as [[pts [[d0 d1] d2]]|p].
  - cbn in H. destruct H as [-> HL]. unfold mirror_part.
    cbn [negate_y]. unfold pv.map_points. cbn [pv.points pv.dimensions].
    rewrite flip_winding_grid by now rewrite length_map.
    eexists; split; [reflexivity|].
    cbn [negate_y]. unfold pv.map_points. cbn [pv.points pv.dimensions].
    rewrite flip_winding_grid.
    + rewrite !flip_rows_map, map_neg_y_involutive.
      now rewrite flip_rows_involutive.
    + rewrite length_map. apply flip_rows_length. now rewrite length_map.
  - unfold mirror_part, reflect_flip. destruct use_solid.
    + eexists; split; [reflexivity|].
      destruct p as [pts fs]. unfold pv.flip_faces, pv.reflect, ok; simpl.
      do 3 f_equal; [apply map_neg_y_involutive|].
      rewrite map_map. rewrite <- (map_id fs) at 2.
      apply map_ext. intros f. apply rev_involutive.
    + exists (pv.PolyMesh (pv.reflect p)). split; [reflexivity|].
      cbn [negate_y flip_winding]. now rewrite reflect_involutive.
Qed.

Lemma mirror_is_involution_witness :
  mirror_ready false (pv.GridMesh small_grid)
  /\ exists m1, mirror_part false (pv.GridMesh small_grid) = ok m1
                /\ mirror_part false m1 = ok (pv.GridMesh small_grid).
Proof.
  assert (H : mirror_ready false (pv.GridMesh small_grid)) by (simpl; auto).
  split; [exact H|].
  exact (proj1 (mirror_is_involution false (pv.GridMesh small_grid) H)).
Defined.

(** ** The symmetric airfoil *)

Lemma zipWith_const_r {A B C} (f : A -> B -> C) (c : B) (a : list A) (b : list R) :
  length a = length b ->
  np.zipWith f a (map (fun _ => c) b) = map (fun ai => f ai c) a.
Proof.
  revert b; induction a as [|x a IH]; intros [|y b]; simpl; intros H;
    try reflexivity; try discriminate.
  f_equal. apply IH. lia.
Qed.

Lemma zipWith_const_l {A B C} (f : A -> B -> C) (c : A) (a : list R) (b : list B) :
  length a = length b ->
  np.zipWith f (map (fun _ => c) a) b = map (fun bi => f c bi) b.
Proof.
  revert b; induction a as [|x a IH]; intros [|y b]; simpl; intros H;
    try reflexivity; try discriminate.
  f_equal. apply IH. lia.
Qed.

Lemma zipWith_map_r {A B B' C} (f : A -> B -> C) (g : B' -> B) (a : list A) (b : list B') :
  np.zipWith f a (map g b) = np.zipWith (fun x y => f x (g y)) a b.
Proof.
  revert b; induction a as [|x a IH]; intros [|y b]; simpl; auto.
  now rewrite IH.
Qed.

Lemma zipWith_fst {A B} (a : list A) (b : list B) :
  length a = length b -> np.zipWith (fun x _ => x) a b = a.
Proof.
  revert b; induction a as [|x a IH]; intros [|y b]; simpl; intros H;
    try reflexivity; try discriminate.
  f_equal. apply IH. lia.
Qed.

Lemma zipWith_ext {A B C} (f g : A -> B -> C) (a : list A) (b : list B) :
  (forall x y, f x y = g x y) -> np.zipWith f a b = np.zipWith g a b.
Proof.
  intros H. revert b; induction a as [|x a IH]; intros [|y b]; simpl; auto.
  now rewrite H, IH.
Qed.

Lemma zipWith_rev {A B C} (f : A -> B -> C) (a : list A) (b : list B) :
  length a = length b ->
  rev (np.zipWith f a b) = np.zipWith f (rev a) (rev b).
Proof.
  revert b; induction a as [|x a IH]; intros [|y b]; simpl; intros H;
    try reflexivity; try discriminate.
  rewrite IH by lia. clear IH.
  assert (L : length (rev a) = length (rev b)) by (rewrite !length_rev; lia).
  revert L. generalize (rev a) (rev b). clear.
  induction l as [|u l IH]; intros [|v l']; simpl; intros H;
    try reflexivity; try discriminate.
  f_equal. apply IH. lia.
Qed.

Lemma camber_line_symmetric (p : R) (x : list R) :
  camber_line 0 p 0 x = ok (np.zeros_like x).
Proof.
  unfold camber_line.
  destruct (Rlt_dec 0 0) as [H|_]; [lra|]. cbn [bind ok].
  destruct (Req_dec_T 0 0) as [_|H]; [reflexivity | congruence].
Qed.

Lemma camber_slope_symmetric (p : R) (x : list R) :
  camber_slope 0 p x = ok (np.zeros_like x).
Proof.
  unfold camber_slope. destruct (Rlt_dec 0 0) as [H|_]; [lra | reflexivity].
Qed.

(** For [m = 0] and [r = 0] the surfaces are [x] with ordinates [yt] and [-yt]. *)
Lemma get_airfoil_coords_symmetric (self : StructuredMesher) (st : WingStation) :
  ws_m st = 0 -> ws_r st = 0 -> (1 <= chord_res self)%nat ->
  let x := chord_samples (chord_res self) in
  let yt := removelast (map (thickness (ws_t st)) x) ++ [0] in
  _get_airfoil_coords self st
  = ok (np.zipWith (fun xi zi => mkP3 xi 0 zi)
          (close_te (rev x ++ tl x))
          (close_te (rev yt ++ tl (map Ropp yt)))).
Proof.
  intros Hm Hr HN x yt.
  destruct (get_airfoil_coords_unfold self st (np.zeros_like x) (np.zeros_like x) HN)
    as [Hyt E].
  { rewrite Hm, Hr. apply camber_line_symmetric. }
  { rewrite Hm. apply camber_slope_symmetric. }
  change (length yt = length x) in Hyt.
  rewrite E. fold x. fold yt.
  unfold np.zeros_like, np.add, np.sub, np.mul. rewrite !map_map.
  rewrite atan_0, sin_0, cos_0.
  rewrite !(zipWith_const_r Rmult _ yt x Hyt).
  rewrite !zipWith_map_r.
  rewrite (zipWith_ext (fun x0 y => x0 - y * 0) (fun x0 _ => x0)) by (intros; ring).
  rewrite (zipWith_ext (fun x0 y => x0 + y * 0) (fun x0 _ => x0)) by (intros; ring).
  rewrite (zipWith_fst x yt) by lia.
  rewrite (zipWith_const_l _ 0 x yt) by lia.
  rewrite (zipWith_const_l _ 0 x yt) by lia.
  replace (map (fun bi => 0 + bi * 1) yt) with yt
    by (rewrite <- (map_id yt) at 1; apply map_ext; intros; ring).
  replace (map (fun bi => 0 - bi * 1) yt) with (map Ropp yt)
    by (apply map_ext; intros; ring).
  reflexivity.
Qed.

Lemma close_te_ends (a b : R) (mid : list R) :
  close_te (a :: mid ++ [b]) = ((a + b) / 2) :: mid ++ [(a + b) / 2].
Proof.
  unfold close_te. cbn [hd np.set_first].
  change (a :: mid ++ [b]) with ((a :: mid) ++ [b]). rewrite last_last.
  change (((a + b) / 2) :: mid ++ [b]) with ((((a + b) / 2) :: mid) ++ [b]).
  now rewrite removelast_last.
Qed.

Lemma chord_samples_ends (n : nat) :
  (2 <= n)%nat -> exists xs xl, chord_samples n = 0 :: xs ++ [xl].
Proof.
  intros H. destruct n as [|[|n]]; try lia.
  unfold chord_samples, np.linspace.
  replace (1 <? S (S n))%nat with true by (symmetry; apply Nat.ltb_lt; lia).
  set (g := fun i : nat => INR i * ((PI - 0) / INR (S (S n) - 1)) + 0).
  cbn [seq map]. rewrite <- seq_shift, map_map.
  assert (E : forall l : list R, l <> [] -> forall a, removelast (a :: l) = a :: removelast l).
  { intros l Hl a. destruct l; [congruence | reflexivity]. }
  rewrite E by discriminate.
  cbn [app map]. rewrite map_app. cbn [map].
  eexists _, _. f_equal.
  unfold g. simpl INR. rewrite Rmult_0_l, Rplus_0_l, cos_0. lra.
Qed.

Lemma thickness_0 (t_max : R) : thickness t_max 0 = 0.
Proof. unfold thickness. rewrite sqrt_0. ring. Qed.

Lemma map_mirror_z_zipWith (a b : list R) :
  map mirror_z (np.zipWith (fun xi zi => mkP3 xi 0 zi) a b)
  = np.zipWith (fun xi zi => mkP3 xi 0 zi) a (map Ropp b).
Proof.
  revert b; induction a as [|x a IH]; intros [|y b]; simpl; auto.
  now rewrite IH.
Qed.

Lemma map_Ropp_involutive (l : list R) : map Ropp (map Ropp l) = l.
Proof.
  rewrite map_map. rewrite <- (map_id l) at 2. apply map_ext. intros; ring.
Qed.

Lemma symmetric_loop_mirror (xs ys : list R) (xl : R) :
  length xs = length ys ->
  let loop :=
    np.zipWith (fun xi zi => mkP3 xi 0 zi)
      (close_te (rev (0 :: xs ++ [xl]) ++ tl (0 :: xs ++ [xl])))
      (close_te (rev (0 :: ys ++ [0]) ++ tl (map Ropp (0 :: ys ++ [0])))) in
  map mirror_z (rev loop) = loop.
Proof.
  intros HL loop. subst loop.
  assert (EX : rev (0 :: xs ++ [xl]) ++ tl (0 :: xs ++ [xl])
               = xl :: (rev xs ++ 0 :: xs) ++ [xl]).
  { cbn [rev tl]. rewrite rev_app_distr. cbn [rev app].
    rewrite <- !app_assoc. reflexivity. }
  assert (EZ : rev (0 :: ys ++ [0]) ++ tl (map Ropp (0 :: ys ++ [0]))
               = 0 :: (rev ys ++ 0 :: map Ropp ys) ++ [- 0]).
  { cbn [rev tl map]. rewrite rev_app_distr, map_app. cbn [rev app map].
    rewrite <- !app_assoc. reflexivity. }
  rewrite EX, EZ, !close_te_ends.
  replace ((xl + xl) / 2) with xl by lra.
  replace ((0 + - 0) / 2) with 0 by lra.
  rewrite zipWith_rev.
  2:{ cbn [length]. rewrite !length_app, !length_rev. cbn [length].
      rewrite length_map. lia. }
  rewrite map_mirror_z_zipWith. f_equal.
  - cbn [rev]. rewrite !rev_app_distr. cbn [rev app].
    rewrite rev_involutive, <- !app_assoc. reflexivity.
  - assert (EM : rev (0 :: (rev ys ++ 0 :: map Ropp ys) ++ [0])
                 = 0 :: (rev (map Ropp ys) ++ 0 :: ys) ++ [0]).
    { cbn [rev]. rewrite !rev_app_distr. cbn [rev app].
      rewrite rev_involutive, <- !app_assoc. reflexivity. }
    rewrite EM. cbn [map]. rewrite !map_app. cbn [map].
    rewrite map_rev, map_Ropp_involutive, Ropp_0. reflexivity.
Qed.

(** C3 (amended): for a section with [m = 0] and no reflex ([r = 0]), any
    [p], any thickness and [N >= 3], the camber line is identically zero and
    the loop is its own mirror image about z = 0: reading the loop backwards
    and negating z gives the loop again, that is, the lower-surface point of
    sample [j] (index [N-1+j]) is the reflection of the upper-surface point of
    sample [j] (index [N-1-j]). *)
Theorem symmetric_airfoil_is_mirrored (self : StructuredMesher) (st : WingStation) :
  ws_m st = 0 -> ws_r st = 0 -> (3 <= chord_res self)%nat ->
  let N := chord_res self in
  camber_line (ws_m st) (ws_p st) (ws_r st) (chord_samples N)
  = ok (np.zeros_like (chord_samples N))
  /\ exists loop,
       _get_airfoil_coords self st = ok loop
       /\ length loop = (2 * N - 1)%nat
       /\ map mirror_z (rev loop) = loop
       /\ forall j, (j <= N - 1)%nat ->
            nth (N - 1 + j) loop (mkP3 0 0 0)
            = mirror_z (nth (N - 1 - j) loop (mkP3 0 0 0)).
Proof.
  intros Hm Hr HN N. split.
  { rewrite Hm, Hr. apply camber_line_symmetric. }
  destruct (get_airfoil_coords_ok self st ltac:(lia) (symmetric_camber_defined st Hm))
    as (loop & E & L).
  exists loop. split; [exact E|]. split; [exact L|].
  assert (M : map mirror_z (rev loop) = loop).
  { rewrite (get_airfoil_coords_symmetric self st Hm Hr ltac:(lia)) in E.
    destruct (chord_samples_ends (chord_res self) ltac:(lia)) as (xs & xl & Ex).
    rewrite Ex in E.
    assert (Ey : removelast (map (thickness (ws_t st)) (0 :: xs ++ [xl])) ++ [0]
                 = 0 :: map (thickness (ws_t st)) xs ++ [0]).
    { cbn [map]. rewrite map_app. cbn [map]. rewrite thickness_0.
      change (0 :: map (thickness (ws_t st)) xs ++ [thickness (ws_t st) xl])
        with ((0 :: map (thickness (ws_t st)) xs) ++ [thickness (ws_t st) xl]).
      now rewrite removelast_last. }
    rewrite Ey in E. injection E as E. rewrite <- E.
    apply symmetric_loop_mirror. now rewrite length_map. }
  split; [exact M|].
  intros j Hj. fold N in L.
  rewrite <- M at 1.
  rewrite (nth_indep _ (mkP3 0 0 0) (mirror_z (mkP3 0 0 0)))
    by (rewrite length_map, length_rev; lia).
  rewrite map_nth. f_equal.
  rewrite rev_nth by lia. f_equal. lia.
Qed.

Lemma symmetric_airfoil_is_mirrored_witness :
  exists loop,
    _get_airfoil_coords default_mesher root_station = ok loop
    /\ map mirror_z (rev loop) = loop.
Proof.
  destruct (symmetric_airfoil_is_mirrored default_mesher root_station)
    as (_ & loop & E & _ & M & _).
  - reflexivity.
  - reflexivity.
  - simpl; lia.
  - exists loop. split; [exact E | exact M].
Defined.

Lemma chord_samples_3 : chord_samples 3 = [0; 1 / 2; 1].
Proof.
  unfold chord_samples, np.linspace. cbn [Nat.ltb Nat.leb seq map removelast app Nat.sub].
  simpl INR.
  repeat f_equal.
  - rewrite Rmult_0_l, Rplus_0_l, cos_0. lra.
  - replace (1 * ((PI - 0) / (1 + 1)) + 0) with (PI / 2) by lra.
    rewrite cos_PI2. lra.
  - rewrite cos_PI. lra.
Qed.

(** C3 fails as stated: with [m = 0] and reflex [r = 1] at [N = 3] the camber
    line is [0, -1/2, 0], not zero. *)
Lemma reflex_camber_is_not_zero :
  ws_m reflex_station = 0
  /\ camber_line (ws_m reflex_station) (ws_p reflex_station) (ws_r reflex_station)
       (chord_samples 3) = ok [0; - (1 / 2); 0]
  /\ camber_line (ws_m reflex_station) (ws_p reflex_station) (ws_r reflex_station)
       (chord_samples 3) <> ok (np.zeros_like (chord_samples 3)).
Proof.
  assert (E : camber_line (ws_m reflex_station) (ws_p reflex_station)
                (ws_r reflex_station) (chord_samples 3) = ok [0; - (1 / 2); 0]).
  { rewrite chord_samples_3. unfold camber_line. cbn [ws_m ws_p ws_r reflex_station].
    destruct (Rlt_dec 0 0) as [H|_]; [lra|]. cbn [bind ok].
    destruct (Req_dec_T 1 0) as [H|_]; [lra|].
    unfold np.add, np.zeros_like. cbn [map np.zipWith].
    repeat f_equal; lra. }
  split; [reflexivity|]. split; [exact E|].
  rewrite E, chord_samples_3. unfold np.zeros_like. cbn [map].
  intros H. injection H as H. lra.
Qed.

(** ** The station transform *)

(** [_position_profile] computes the new z from the already rotated x (the
    column views alias the array): at a twist of -90 degrees the point
    (1, 0, 0) of the unit section lands on the origin, where a rotation by
    90 degrees would put it at distance 1. *)
Lemma position_profile_reads_rotated_x :
  _position_profile [mkP3 1 0 0] twisted_station = [mkP3 0 0 0].
Proof.
  unfold _position_profile, np.radians. cbn [map ws_twist ws_chord ws_x ws_y ws_z
    twisted_station px py pz].
  replace (- -90 * PI / 180) with (PI / 2) by lra.
  rewrite cos_PI2, sin_PI2. repeat f_equal; ring.
Qed.

(** ** The loft *)

Lemma transform_grid_points (grid : pv.StructuredGrid) (surface : LiftingSurface) :
  pv.points (_transform_grid grid surface) = map (place_point surface) (pv.points grid)
  /\ pv.dimensions (_transform_grid grid surface) = pv.dimensions grid.
Proof.
  unfold _transform_grid, pv.translate, pv.rotate_z, pv.rotate_y, pv.rotate_x.
  rewrite !map_points_compose. unfold pv.map_points; simpl. auto.
Qed.

Lemma place_point_identity (surface : LiftingSurface) (q : P3) :
  ls_orientation surface = mkP3 0 0 0 -> ls_position surface = mkP3 0 0 0 ->
  place_point surface q = q.
Proof.
  intros Ho Hp. unfold place_point. rewrite Ho, Hp. destruct q as [x y z].
  unfold pv.shift, pv.rot_z, pv.rot_y, pv.rot_x, np.radians; simpl.
  replace (0 * PI / 180) with 0 by lra. rewrite cos_0, sin_0.
  f_equal; ring.
Qed.

Lemma linspace_ends (a b : R) (n : nat) :
  (2 <= n)%nat -> exists mid, np.linspace a b n = a :: mid ++ [b].
Proof.
  intros H. destruct n as [|[|n]]; try lia.
  unfold np.linspace.
  replace (1 <? S (S n))%nat with true by (symmetry; apply Nat.ltb_lt; lia).
  cbn [seq map]. rewrite <- seq_shift, map_map.
  assert (E : forall l : list R, l <> [] -> forall x, removelast (x :: l) = x :: removelast l).
  { intros l Hl x. destruct l; [congruence | reflexivity]. }
  rewrite E by discriminate. cbn [app].
  eexists. f_equal. simpl INR. ring.
Qed.

Lemma lerp_0 (a b : P3) : lerp 0 a b = a.
Proof. destruct a, b. unfold lerp; simpl. f_equal; ring. Qed.

Lemma lerp_1 (a b : P3) : lerp 1 a b = b.
Proof. destruct a, b. unfold lerp; simpl. f_equal; ring. Qed.

Lemma zipWith_lerp_0 (p1 p2 : list P3) :
  length p1 = length p2 -> np.zipWith (lerp 0) p1 p2 = p1.
Proof.
  intros H. rewrite (zipWith_ext (lerp 0) (fun a _ => a)) by apply lerp_0.
  now apply zipWith_fst.
Qed.

Lemma zipWith_lerp_1 (p1 p2 : list P3) :
  length p1 = length p2 -> np.zipWith (lerp 1) p1 p2 = p2.
Proof.
  revert p2; induction p1 as [|a p1 IH]; intros [|b p2]; simpl; intros H;
    try reflexivity; try discriminate.
  rewrite lerp_1. f_equal. apply IH. lia.
Qed.

Lemma lastn_app {A} (a b : list A) : b <> [] -> np.lastn (length b) (a ++ b) = b.
Proof.
  intros Hb. unfold np.lastn.
  destruct (Nat.eqb_spec (length b) 0) as [E|_].
  - destruct b; [congruence | discriminate].
  - rewrite length_app. replace (length a + length b - length b)%nat with (length a) by lia.
    apply skipn_length_app.
Qed.

Lemma concat_rows_length (rows : list (list P3)) (w : nat) :
  Forall (fun r => length r = w) rows -> length (concat rows) = (length rows * w)%nat.
Proof.
  induction 1 as [|r rows Hr _ IH]; simpl; [reflexivity|].
  rewrite length_app, IH, Hr. reflexivity.
Qed.

(** The open grid of a two-station surface, written out. *)
Lemma surface_grid_two_stations (self : StructuredMesher) (surface : LiftingSurface)
    (st1 st2 : WingStation) :
  ls_stations surface = [st1; st2] ->
  (1 <= chord_res self)%nat -> camber_defined st1 -> camber_defined st2 ->
  exists af1 af2,
    _get_airfoil_coords self st1 = ok af1
    /\ _get_airfoil_coords self st2 = ok af2
    /\ length af1 = (2 * chord_res self - 1)%nat
    /\ length af2 = (2 * chord_res self - 1)%nat
    /\ surface_grid self surface
       = ok (_transform_grid
               (pv.mkGrid
                  (concat (map (fun ti => np.zipWith (lerp ti) (_position_profile af1 st1)
                                                               (_position_profile af2 st2))
                               (np.linspace 0 1 (span_res self))))
                  ((2 * chord_res self - 1)%nat, span_res self, 1%nat))
               surface).
Proof.
  intros Hst HN Hc1 Hc2.
  destruct (loft_segment_ok self st1 st2 HN Hc1 Hc2) as (af1 & af2 & E1 & E2 & L1 & L2 & E).
  exists af1, af2. repeat split; auto.
  unfold surface_grid. rewrite Hst, loft_segments_cons, E.
  cbn [bind ok loft_segments Nat.ltb Nat.leb concatenate flat_map nd_rows nd_width].
  rewrite app_nil_r, length_map, linspace_length. reflexivity.
Qed.

Lemma two_station_slices (self : StructuredMesher) (surface : LiftingSurface)
    (st1 st2 : WingStation) :
  ls_stations surface = [st1; st2] ->
  (1 <= chord_res self)%nat -> (2 <= span_res self)%nat ->
  camber_defined st1 -> camber_defined st2 ->
  exists grid af1 af2,
    surface_grid self surface = ok grid
    /\ _get_airfoil_coords self st1 = ok af1
    /\ _get_airfoil_coords self st2 = ok af2
    /\ length af1 = (2 * chord_res self - 1)%nat
    /\ length af2 = (2 * chord_res self - 1)%nat
    /\ pv.dimensions grid = ((2 * chord_res self - 1)%nat, span_res self, 1%nat)
    /\ length (pv.points grid) = (span_res self * (2 * chord_res self - 1))%nat
    /\ root_slice grid = map (place_point surface) (_position_profile af1 st1)
    /\ tip_slice grid = map (place_point surface) (_position_profile af2 st2).
Proof.
  intros Hst HN HS Hc1 Hc2.
  destruct (surface_grid_two_stations self surface st1 st2 Hst HN Hc1 Hc2)
    as (af1 & af2 & E1 & E2 & L1 & L2 & E).
  eexists _, af1, af2. split; [exact E|].
  repeat (split; [assumption|]).
  set (p1 := _position_profile af1 st1) in *.
  set (p2 := _position_profile af2 st2) in *.
  assert (Lp1 : length p1 = (2 * chord_res self - 1)%nat)
    by (unfold p1; now rewrite position_profile_length).
  assert (Lp2 : length p2 = (2 * chord_res self - 1)%nat)
    by (unfold p2; now rewrite position_profile_length).
  destruct (linspace_ends 0 1 (span_res self) HS) as (mid & Et).
  pose proof (linspace_length 0 1 (span_res self)) as Lt.
  set (row := fun ti => np.zipWith (lerp ti) p1 p2) in *.
  assert (Erows : concat (map row (np.linspace 0 1 (span_res self)))
                  = p1 ++ concat (map row mid) ++ p2).
  { rewrite Et. cbn [map concat]. rewrite map_app, concat_app. cbn [map concat].
    unfold row at 1 3. rewrite zipWith_lerp_0, zipWith_lerp_1 by lia.
    now rewrite app_nil_r. }
  destruct (transform_grid_points
              (pv.mkGrid (concat (map row (np.linspace 0 1 (span_res self))))
                         ((2 * chord_res self - 1)%nat, span_res self, 1%nat)) surface)
    as [Ep Ed].
  cbn [pv.points pv.dimensions] in Ep, Ed.
  split; [exact Ed|]. split; [|split].
  - rewrite Ep, length_map.
    rewrite (concat_rows_length _ (2 * chord_res self - 1)).
    + now rewrite length_map, Lt.
    + apply Forall_map, Forall_forall. intros ti _. unfold row.
      rewrite zipWith_length. lia.
  - unfold root_slice. rewrite Ed, Ep, Erows. cbn [fst].
    rewrite map_app, <- Lp1, <- (length_map (place_point surface) p1).
    apply firstn_length_app.
  - unfold tip_slice. rewrite Ed, Ep, Erows. cbn [fst].
    rewrite app_assoc, map_app, <- Lp2, <- (length_map (place_point surface) p2).
    apply lastn_app. intros Hnil. apply (f_equal (@length P3)) in Hnil.
    rewrite length_map in Hnil. simpl in Hnil. lia.
Qed.

(** Where the sine of the twist vanishes, [_position_profile] is the station
    transform of the specification. *)
Lemma position_profile_flat_twist (coords : list P3) (st : WingStation) :
  flat_twist st -> _position_profile coords st = map (station_transform st) coords.
Proof.
  unfold flat_twist, _position_profile, station_transform. intros H.
  apply map_ext. intros q. rewrite H. f_equal; ring.
Qed.

Lemma untwisted_is_flat (st : WingStation) : ws_twist st = 0 -> flat_twist st.
Proof.
  intros H. unfold flat_twist, np.radians.
  replace (- ws_twist st * PI / 180) with 0 by (rewrite H; lra).
  apply sin_0.
Qed.

Lemma half_turn_is_flat (st : WingStation) : ws_twist st = 180 -> flat_twist st.
Proof.
  intros H. unfold flat_twist, np.radians.
  replace (- ws_twist st * PI / 180) with (- PI) by (rewrite H; lra).
  rewrite sin_neg, sin_PI. lra.
Qed.

Lemma map_place_identity (surface : LiftingSurface) (pts : list P3) :
  ls_orientation surface = mkP3 0 0 0 -> ls_position surface = mkP3 0 0 0 ->
  map (place_point surface) pts = pts.
Proof.
  intros Ho Hp. rewrite <- (map_id pts) at 2.
  apply map_ext. intros q. now apply place_point_identity.
Qed.

(** C1 (amended): for a surface with exactly two stations, meshed open with
    [chord_res >= 1] and [span_res >= 2], whose stations have a camber that
    can be evaluated and a twist of a whole number of half turns, the first
    spanwise slice of the grid is the first station's loop, scaled by the
    chord, rotated by [-twist] and translated by (x, y, z), and then carried
    through the surface's global orientation and position; the last slice is
    the last station's loop treated the same way.  When orientation and
    position are zero the slices are the transformed loops themselves. *)
Theorem loft_ends_are_station_loops (K : pv.Filters) (self : StructuredMesher)
    (surface : LiftingSurface) (st1 st2 : WingStation) :
  ls_stations surface = [st1; st2] ->
  (1 <= chord_res self)%nat -> (2 <= span_res self)%nat ->
  camber_defined st1 -> camber_defined st2 ->
  flat_twist st1 -> flat_twist st2 ->
  exists grid af1 af2,
    _mesh_surface K self surface false = ok (pv.GridMesh grid)
    /\ _get_airfoil_coords self st1 = ok af1
    /\ _get_airfoil_coords self st2 = ok af2
    /\ root_slice grid = map (place_point surface) (map (station_transform st1) af1)
    /\ tip_slice grid = map (place_point surface) (map (station_transform st2) af2)
    /\ (ls_orientation surface = mkP3 0 0 0 -> ls_position surface = mkP3 0 0 0 ->
        root_slice grid = map (station_transform st1) af1
        /\ tip_slice grid = map (station_transform st2) af2).
Proof.
  intros Hst HN HS Hc1 Hc2 Hf1 Hf2.
  destruct (two_station_slices self surface st1 st2 Hst HN HS Hc1 Hc2)
    as (grid & af1 & af2 & E & E1 & E2 & _ & _ & _ & _ & Hr & Ht).
  rewrite (position_profile_flat_twist af1 st1 Hf1) in Hr.
  rewrite (position_profile_flat_twist af2 st2 Hf2) in Ht.
  exists grid, af1, af2.
  split; [unfold _mesh_surface; now rewrite E|].
  do 4 (split; [assumption|]).
  intros Ho Hp. rewrite Hr, Ht. split; now apply map_place_identity.
Qed.

Lemma loft_ends_are_station_loops_witness :
  exists grid af1 af2,
    _mesh_surface append_kernel default_mesher main_wing false = ok (pv.GridMesh grid)
    /\ _get_airfoil_coords default_mesher root_station = ok af1
    /\ _get_airfoil_coords default_mesher tip_station = ok af2
    /\ root_slice grid = map (station_transform root_station) af1
    /\ tip_slice grid = map (station_transform tip_station) af2.
Proof.
  destruct (loft_ends_are_station_loops append_kernel default_mesher main_wing
              root_station tip_station)
    as (grid & af1 & af2 & E & E1 & E2 & _ & _ & H).
  - reflexivity.
  - simpl; lia.
  - simpl; lia.
  - now apply symmetric_camber_defined.
  - now apply symmetric_camber_defined.
  - now apply untwisted_is_flat.
  - now apply untwisted_is_flat.
  - destruct (H eq_refl eq_refl) as [Hr Ht].
    exists grid, af1, af2. repeat split; assumption.
Defined.

(** The loop of a symmetric 12 percent section under the coarse mesher. *)
Lemma coarse_symmetric_loop (st : WingStation) :
  ws_m st = 0 -> ws_r st = 0 -> ws_t st = 0.12 ->
  _get_airfoil_coords coarse_mesher st
  = ok [mkP3 ((1 + 1) / 2) 0 ((0 + - 0) / 2);
        mkP3 (1 / 2) 0 (thickness 0.12 (1 / 2));
        mkP3 0 0 (thickness 0.12 0);
        mkP3 (1 / 2) 0 (- thickness 0.12 (1 / 2));
        mkP3 ((1 + 1) / 2) 0 ((0 + - 0) / 2)].
Proof.
  intros Hm Hr Ht.
  rewrite get_airfoil_coords_symmetric; [|exact Hm|exact Hr|simpl; lia].
  change (chord_res coarse_mesher) with 3%nat. rewrite chord_samples_3, Ht.
  reflexivity.
Qed.

(** C1 fails as stated, in two ways.  The default wing placed at position
    (1, 0, 0) has a first slice that is the first station's transformed loop
    moved by one unit in x.  And a wing at the origin whose root station is
    twisted by -90 degrees has a first slice that is not the root loop
    rotated by 90 degrees: its first point, the trailing edge (1, 0, 0) of the
    unit section, lands on the origin instead of at distance 1 from it. *)
Lemma loft_ends_are_not_station_loops :
  (exists grid af1,
     _mesh_surface append_kernel default_mesher shifted_wing false = ok (pv.GridMesh grid)
     /\ _get_airfoil_coords default_mesher root_station = ok af1
     /\ root_slice grid <> map (station_transform root_station) af1)
  /\ (exists grid af1,
        _mesh_surface append_kernel coarse_mesher twisted_wing false = ok (pv.GridMesh grid)
        /\ _get_airfoil_coords coarse_mesher twisted_station = ok af1
        /\ ls_orientation twisted_wing = mkP3 0 0 0
        /\ ls_position twisted_wing = mkP3 0 0 0
        /\ hd (mkP3 0 0 0) (root_slice grid) = mkP3 0 0 0
        /\ hd (mkP3 0 0 0) (map (station_transform twisted_station) af1) = mkP3 0 0 1
        /\ root_slice grid <> map (station_transform twisted_station) af1).
Proof.
  split.
  - destruct (two_station_slices default_mesher shifted_wing root_station tip_station)
      as (grid & af1 & af2 & E & E1 & _ & L1 & _ & _ & _ & Hr & _);
      [reflexivity | simpl; lia | simpl; lia
       | now apply symmetric_camber_defined | now apply symmetric_camber_defined |].
    exists grid, af1.
    split; [unfold _mesh_surface; now rewrite E|]. split; [exact E1|].
    rewrite Hr, (position_profile_flat_twist af1 root_station)
      by now apply untwisted_is_flat.
    intros H.
    destruct (map (station_transform root_station) af1) as [|q rest] eqn:Ep.
    + apply (f_equal (@length P3)) in Ep. rewrite length_map, L1 in Ep.
      simpl in Ep. lia.
    + cbn [map] in H. injection H as Hq _.
      apply (f_equal px) in Hq. revert Hq.
      unfold place_point, shifted_wing, LiftingSurface_init, pv.shift, pv.rot_z, pv.rot_y,
        pv.rot_x, np.radians. cbn [ls_orientation ls_position px py pz].
      replace (0 * PI / 180) with 0 by lra. rewrite cos_0, sin_0. lra.
  - destruct (two_station_slices coarse_mesher twisted_wing twisted_station tip_station)
      as (grid & af1 & af2 & E & E1 & _ & _ & _ & _ & _ & Hr & _);
      [reflexivity | simpl; lia | simpl; lia
       | now apply symmetric_camber_defined | now apply symmetric_camber_defined |].
    exists grid, af1.
    split; [unfold _mesh_surface; now rewrite E|]. split; [exact E1|].
    do 2 (split; [reflexivity|]).
    rewrite map_place_identity in Hr by reflexivity.
    rewrite (coarse_symmetric_loop twisted_station eq_refl eq_refl eq_refl) in E1.
    injection E1 as <-.
    assert (Q : np.radians (- ws_twist twisted_station) = PI / 2).
    { unfold np.radians. cbn [ws_twist twisted_station]. lra. }
    assert (H0 : hd (mkP3 0 0 0) (root_slice grid) = mkP3 0 0 0).
    { rewrite Hr. unfold _position_profile. rewrite Q, cos_PI2, sin_PI2.
      cbn [map hd px py pz ws_chord ws_x ws_y ws_z twisted_station]. f_equal; lra. }
    assert (H1 : hd (mkP3 0 0 0)
                   (map (station_transform twisted_station)
                      [mkP3 ((1 + 1) / 2) 0 ((0 + - 0) / 2);
                       mkP3 (1 / 2) 0 (thickness 0.12 (1 / 2));
                       mkP3 0 0 (thickness 0.12 0);
                       mkP3 (1 / 2) 0 (- thickness 0.12 (1 / 2));
                       mkP3 ((1 + 1) / 2) 0 ((0 + - 0) / 2)]) = mkP3 0 0 1).
    { unfold station_transform. rewrite Q, cos_PI2, sin_PI2.
      cbn [map hd px py pz ws_chord ws_x ws_y ws_z twisted_station]. f_equal; lra. }
    split; [exact H0|]. split; [exact H1|].
    intros H. rewrite H, H1 in H0. injection H0 as H0. lra.
Qed.

(** ** Scenario A *)

Lemma zipWith_Forall {A B C} (f : A -> B -> C) (P : C -> Prop) (a : list A) (b : list B) :
  (forall x y, P (f x y)) -> Forall P (np.zipWith f a b).
Proof.
  intros H. revert b; induction a as [|x a IH]; intros [|y b]; simpl; auto.
Qed.

Lemma airfoil_loop_in_plane (self : StructuredMesher) (st : WingStation) (loop : list P3) :
  _get_airfoil_coords self st = ok loop -> Forall (fun q => py q = 0) loop.
Proof.
  unfold _get_airfoil_coords.
  destruct (np.set_last _ _) as [e|yt]; cbn [bind ok]; [discriminate|].
  destruct (camber_line _ _ _ _) as [e|yc]; cbn [bind ok]; [discriminate|].
  destruct (camber_slope _ _ _) as [e|dyc_dx]; cbn [bind ok]; [discriminate|].
  intros E. injection E as <-. apply zipWith_Forall. reflexivity.
Qed.

Lemma position_profile_span (coords : list P3) (st : WingStation) :
  Forall (fun q => py q = 0) coords ->
  Forall (fun v => v = ws_y st) (col_y (_position_profile coords st)).
Proof.
  intros H. unfold col_y, _position_profile. rewrite map_map.
  apply Forall_map. eapply Forall_impl; [|exact H].
  intros q Hq. cbn [py]. rewrite Hq. ring.
Qed.

Lemma sum_const (c : R) (l : list R) :
  Forall (fun v => v = c) l -> np.sum l = INR (length l) * c.
Proof.
  induction 1 as [|v l Hv _ IH].
  - simpl. ring.
  - change (np.sum (v :: l)) with (v + np.sum l).
    rewrite IH, Hv. change (length (c :: l)) with (S (length l)).
    rewrite S_INR. ring.
Qed.

Lemma mean_const (c : R) (l : list R) :
  l <> [] -> Forall (fun v => v = c) l -> np.mean l = c.
Proof.
  intros Hne H. unfold np.mean. rewrite (sum_const c l H).
  assert (INR (length l) <> 0).
  { apply not_0_INR. destruct l; [congruence | discriminate]. }
  now field.
Qed.

Lemma main_wing_grid :
  exists grid,
    surface_grid default_mesher main_wing = ok grid
    /\ pv.dimensions grid = (59%nat, 15%nat, 1%nat)
    /\ length (pv.points grid) = 885%nat
    /\ length (root_slice grid) = 59%nat
    /\ length (tip_slice grid) = 59%nat
    /\ np.mean (col_y (root_slice grid)) = 0
    /\ np.mean (col_y (tip_slice grid)) = 5.
Proof.
  destruct (two_station_slices default_mesher main_wing root_station tip_station)
    as (grid & af1 & af2 & E & E1 & E2 & L1 & L2 & Hd & Hl & Hr & Ht);
    [reflexivity | simpl; lia | simpl; lia
     | now apply symmetric_camber_defined | now apply symmetric_camber_defined |].
  assert (Hr' : root_slice grid = _position_profile af1 root_station).
  { rewrite Hr. rewrite <- (map_id (_position_profile af1 root_station)) at 2.
    apply map_ext. intros q. now apply place_point_identity. }
  assert (Ht' : tip_slice grid = _position_profile af2 tip_station).
  { rewrite Ht. rewrite <- (map_id (_position_profile af2 tip_station)) at 2.
    apply map_ext. intros q. now apply place_point_identity. }
  exists grid.
  split; [exact E|].
  split; [exact Hd|]. split; [exact Hl|].
  split; [rewrite Hr', position_profile_length, L1; reflexivity|].
  split; [rewrite Ht', position_profile_length, L2; reflexivity|].
  split.
  - rewrite Hr'. apply (mean_const (ws_y root_station)).
    + intros Hnil. apply (f_equal (@length R)) in Hnil.
      unfold col_y in Hnil. rewrite length_map, position_profile_length, L1 in Hnil.
      discriminate.
    + apply position_profile_span. eapply airfoil_loop_in_plane, E1.
  - rewrite Ht'. apply (mean_const (ws_y tip_station)).
    + intros Hnil. apply (f_equal (@length R)) in Hnil.
      unfold col_y in Hnil. rewrite length_map, position_profile_length, L2 in Hnil.
      discriminate.
    + apply position_profile_span. eapply airfoil_loop_in_plane, E2.
Qed.

(** C2: Scenario A.  The two stations are the ones the constructor builds
    from the scenario's arguments; meshed open with [chord_res = 30] and
    [span_res = 15] the wing is a grid of 59 chordwise points by 15 spanwise
    slices (885 points), the mean y of its first slice is 0 and the mean y of
    its last slice is 5. *)
Theorem scenario_A_grid (K : pv.Filters) :
  WingStation_init 0 2 0 0 0 (Some [0; 0; 0.12; 0]) = ok root_station
  /\ WingStation_init 5 1 1 0.5 0 (Some [0; 0; 0.12; 0]) = ok tip_station
  /\ chord_res default_mesher = 30%nat /\ span_res default_mesher = 15%nat
  /\ exists grid,
       _mesh_surface K default_mesher main_wing false = ok (pv.GridMesh grid)
       /\ pv.dimensions grid = ((30 * 2 - 1)%nat, 15%nat, 1%nat)
       /\ length (pv.points grid) = (59 * 15)%nat
       /\ length (root_slice grid) = 59%nat
       /\ length (tip_slice grid) = 59%nat
       /\ np.mean (col_y (root_slice grid)) = 0
       /\ np.mean (col_y (tip_slice grid)) = 5.
Proof.
  do 4 (split; [reflexivity|]).
  destruct main_wing_grid as (grid & E & H).
  exists grid. split; [unfold _mesh_surface; now rewrite E | exact H].
Qed.

(** ** The grid of a surface *)

Lemma loft_rows_width (p1 p2 : list P3) (w : nat) (ts : list R) :
  length p1 = w -> length p2 = w ->
  Forall (fun r => length r = w) (map (fun ti => np.zipWith (lerp ti) p1 p2) ts).
Proof.
  intros H1 H2. apply Forall_map, Forall_forall. intros ti _.
  rewrite zipWith_length. lia.
Qed.

Lemma loft_segments_count (self : StructuredMesher) :
  (1 <= chord_res self)%nat -> (1 <= span_res self)%nat ->
  forall stations i, Forall camber_defined stations ->
  exists segs,
    loft_segments self i stations = ok segs
    /\ Forall (fun nd => nd_width nd = (2 * chord_res self - 1)%nat) segs
    /\ Forall (fun r => length r = (2 * chord_res self - 1)%nat) (flat_map nd_rows segs)
    /\ length (flat_map nd_rows segs)
       = (if (length stations <? 2)%nat then 0
          else (length stations - 1) * (span_res self - 1)
               + (if (i =? 0)%nat then 1 else 0))%nat.
Proof.
  intros HN HS. induction stations as [|a rest IH]; intros i Hc.
  - exists []. simpl. auto.
  - destruct rest as [|b rest'].
    + exists []. simpl. auto.
    + inversion Hc as [|? ? Hc1 Hc']; subst. inversion Hc' as [|? ? Hc2 _]; subst.
      destruct (loft_segment_ok self a b HN Hc1 Hc2) as (af1 & af2 & _ & _ & L1 & L2 & E).
      destruct (IH (S i) Hc') as (more & Em & Wm & Rm & Cm).
      rewrite loft_segments_cons, E. cbn [bind ok]. rewrite Em. cbn [bind ok].
      eexists. split; [reflexivity|].
      set (rows := map (fun ti => np.zipWith (lerp ti) (_position_profile af1 a)
                                             (_position_profile af2 b))
                       (np.linspace 0 1 (span_res self))).
      assert (Wr : Forall (fun r => length r = (2 * chord_res self - 1)%nat) rows).
      { apply loft_rows_width; now rewrite position_profile_length. }
      assert (Lr : length rows = span_res self)
        by (unfold rows; now rewrite length_map, linspace_length).
      split; [|split].
      * constructor; [destruct (0 <? i)%nat; reflexivity | exact Wm].
      * cbn [flat_map]. apply Forall_app. split; [|exact Rm].
        destruct (0 <? i)%nat; cbn [nd_rows]; [|exact Wr].
        destruct rows; [constructor | now inversion Wr].
      * cbn [flat_map]. rewrite length_app, Cm.
        change (length (a :: b :: rest')) with (S (S (length rest'))).
        change (length (b :: rest')) with (S (length rest')).
        replace (S (S (length rest')) <? 2)%nat with false
          by (symmetry; apply Nat.ltb_ge; lia).
        change (S i =? 0)%nat with false.
        destruct i as [|i]; cbn [Nat.ltb Nat.leb Nat.eqb nd_rows].
        -- rewrite Lr. destruct rest' as [|c rest'']; cbn [length Nat.ltb Nat.leb]; nia.
        -- rewrite length_tl, Lr.
           destruct rest' as [|c rest'']; cbn [length Nat.ltb Nat.leb]; nia.
Qed.

(** The open grid of a surface with n >= 2 stations has
    [(n - 1)(span_res - 1) + 1] slices of [2 * chord_res - 1] points. *)
Lemma surface_grid_shape (self : StructuredMesher) (surface : LiftingSurface) :
  (1 <= chord_res self)%nat -> (1 <= span_res self)%nat ->
  (2 <= length (ls_stations surface))%nat ->
  Forall camber_defined (ls_stations surface) ->
  exists grid,
    surface_grid self surface = ok grid
    /\ pv.dimensions grid
       = ((2 * chord_res self - 1)%nat,
          ((length (ls_stations surface) - 1) * (span_res self - 1) + 1)%nat,
          1%nat)
    /\ length (pv.points grid)
       = (((length (ls_stations surface) - 1) * (span_res self - 1) + 1)
          * (2 * chord_res self - 1))%nat.
Proof.
  intros HN HS Hn Hc.
  destruct (loft_segments_count self HN HS (ls_stations surface) 0 Hc)
    as (segs & E & W & Rw & C).
  replace (length (ls_stations surface) <? 2)%nat with false in C
    by (symmetry; apply Nat.ltb_ge; lia).
  cbn [Nat.eqb] in C.
  destruct segs as [|seg segs'].
  { cbn [flat_map length] in C. exfalso. revert C.
    generalize ((length (ls_stations surface) - 1) * (span_res self - 1))%nat.
    intros; lia. }
  set (rows := flat_map nd_rows (seg :: segs')) in *.
  set (grid := _transform_grid
                 (pv.mkGrid (concat rows) (nd_width seg, length rows, 1%nat)) surface).
  assert (Eg : surface_grid self surface = ok grid).
  { unfold surface_grid. rewrite E. reflexivity. }
  destruct (transform_grid_points
              (pv.mkGrid (concat rows) (nd_width seg, length rows, 1%nat)) surface)
    as [Ep Ed]. fold grid in Ep, Ed. cbn [pv.points pv.dimensions] in Ep, Ed.
  assert (Wseg : nd_width seg = (2 * chord_res self - 1)%nat) by now inversion W.
  exists grid. split; [exact Eg|]. split.
  - now rewrite Ed, Wseg, C.
  - rewrite Ep, length_map, (concat_rows_length _ _ Rw), C. reflexivity.
Qed.


(** ** Merging meshes *)


















(** ** Capping *)



Lemma add_cap_points (body : pv.PolyData) (ring : list P3) (flip : bool) :
  pv.poly_points (_add_cap body ring flip) = pv.merge_points (pv.poly_points body ++ ring).
Proof. reflexivity. Qed.








(** ** The union of the default vehicle *)

Lemma merge_points_nonempty (pts : list P3) : pts <> [] -> pv.merge_points pts <> [].
Proof. destruct pts; [congruence | discriminate]. Qed.

Lemma surface_caps_n_points (grid : pv.StructuredGrid) :
  tip_slice grid <> [] -> pv.n_points (surface_caps grid) <> 0%nat.
Proof.
  intros H. unfold pv.n_points, surface_caps. rewrite add_cap_points.
  intros E. apply length_zero_iff_nil in E. revert E. apply merge_points_nonempty.
  intros E. apply app_eq_nil in E. destruct E as [_ E]. contradiction.
Qed.

Lemma scenario_vehicle_blocks :
  exists p1 p2,
    mesh_vehicle append_kernel default_mesher scenario_vehicle true
    = ok [("Main_Wing"%string, pv.PolyMesh p1); ("Main_Wing_Mirror"%string, pv.PolyMesh p2)]
    /\ pv.n_points p1 <> 0%nat /\ pv.n_points p2 <> 0%nat.
Proof.
  destruct main_wing_grid as (grid & E & _ & _ & _ & Lt & _).
  exists (surface_caps grid), (pv.flip_faces (pv.reflect (surface_caps grid))).
  split.
  - unfold mesh_vehicle, scenario_vehicle. cbn [v_surfaces v_fuselage mesh_surfaces].
    unfold _mesh_surface. rewrite E. reflexivity.
  - assert (H : pv.n_points (surface_caps grid) <> 0%nat).
    { apply surface_caps_n_points. intros N. rewrite N in Lt. discriminate. }
    split; [exact H|].
    unfold pv.n_points, pv.flip_faces, pv.reflect in *. cbn [pv.poly_points].
    now rewrite length_map.
Qed.

(** C7 fails as stated: the union of the default vehicle (a wing and its
    mirror) reports 10, 10, 25, 65 and returns; 100 is never reported. *)
Lemma union_progress_stops_at_65 :
  percents (fst (run_heavy_union append_kernel default_mesher scenario_vehicle))
  = [10; 10; 25; 65]%Z
  /\ last (percents (fst (run_heavy_union append_kernel default_mesher scenario_vehicle))) 0%Z
     <> 100%Z.
Proof.
  assert (E : percents (fst (run_heavy_union append_kernel default_mesher scenario_vehicle))
              = [10; 10; 25; 65]%Z).
  { destruct scenario_vehicle_blocks as (p1 & p2 & Emb & H1 & H2).
    unfold run_heavy_union. rewrite Emb.
    unfold ok at 1. cbn [refine_loop truthy make_solid length].
    apply Nat.eqb_neq in H1, H2. rewrite H1, H2.
    cbn [bind ok all_solids sort_desc fold_right insert_desc append_kernel
         pv.subdivide pv.triangulate pv.clean pv.compute_normals].
    destruct (pv.n_cells p2 <=? pv.n_cells p1)%nat; reflexivity. }
  split; [exact E|]. rewrite E. cbn. lia.
Qed.

(** ** The mirrored open grid of [mesh_vehicle] *)

Lemma thickness_mid_positive : 0 < thickness 0.12 (1 / 2).
Proof.
  unfold thickness, term5.
  assert (Hs : 1 / 2 <= sqrt (1 / 2)).
  { pose proof (sqrt_pos (1 / 2)) as H0.
    pose proof (sqrt_def (1 / 2) ltac:(lra)) as H1.
    nra. }
  simpl pow. lra.
Qed.

Lemma coarse_root_loop :
  _get_airfoil_coords coarse_mesher root_station
  = ok [mkP3 ((1 + 1) / 2) 0 ((0 + - 0) / 2);
        mkP3 (1 / 2) 0 (thickness 0.12 (1 / 2));
        mkP3 0 0 (thickness 0.12 0);
        mkP3 (1 / 2) 0 (- thickness 0.12 (1 / 2));
        mkP3 ((1 + 1) / 2) 0 ((0 + - 0) / 2)].
Proof. now apply coarse_symmetric_loop. Qed.

(** The open grid of the default wing under the coarse mesher: the root loop
    followed by the tip loop. *)
Lemma coarse_wing_grid :
  exists af1 tip,
    _get_airfoil_coords coarse_mesher root_station = ok af1
    /\ length tip = 5%nat
    /\ surface_grid coarse_mesher main_wing
       = ok (pv.mkGrid (_position_profile af1 root_station ++ tip) (5%nat, 2%nat, 1%nat)).
Proof.
  destruct (two_station_slices coarse_mesher main_wing root_station tip_station)
    as (grid & af1 & af2 & E & E1 & E2 & L1 & L2 & Hd & Hl & Hr & Ht);
    [reflexivity | simpl; lia | simpl; lia
     | now apply symmetric_camber_defined | now apply symmetric_camber_defined |].
  exists af1, (_position_profile af2 tip_station).
  split; [exact E1|]. split; [now rewrite position_profile_length, L2|].
  rewrite E. f_equal. destruct grid as [pts dims]. cbn [pv.dimensions pv.points] in *.
  subst dims. f_equal.
  unfold root_slice, tip_slice, np.lastn in *. cbn [pv.dimensions pv.points fst] in *.
  rewrite map_place_identity in Hr, Ht by reflexivity.
  rewrite Hl in Ht. cbn in Ht. cbn in Hr.
  rewrite <- Hr, <- Ht. symmetry. apply (firstn_skipn 5).
Qed.

(** In open mode the mirrored part of [mesh_vehicle] is the y-negated copy
    of the part, point for point. *)
Lemma mesh_surfaces_open_mirror (K : pv.Filters) (self : StructuredMesher)
    (surface : LiftingSurface) (mesh : pv.Mesh) (parts : pv.MultiBlock) :
  ls_mirrored surface = true ->
  _mesh_surface K self surface false = ok mesh ->
  mesh_surfaces K self [surface] false parts
  = ok (parts ++ [(ls_name surface, mesh)]
              ++ [((ls_name surface ++ "_Mirror")%string, negate_y mesh)]).
Proof.
  intros Hm E. cbn [mesh_surfaces]. rewrite E, Hm. cbn [bind ok].
  now rewrite <- app_assoc.
Qed.

(** C5 on the code: for the default vehicle, meshed open with 3 chordwise
    samples and 2 slices, [mesh_vehicle] emits as mirrored part the grid with
    y negated and the chordwise order unchanged.  The mirror of
    [process_component] on the same part reverses every chordwise row, and the
    two grids differ (at chordwise index 1 one holds an upper-surface point,
    the other a lower-surface point). *)
Theorem mesh_vehicle_open_mirror_not_reversed :
  exists g gm gv,
    mesh_vehicle append_kernel coarse_mesher scenario_vehicle false
    = ok [("Main_Wing"%string, pv.GridMesh g); ("Main_Wing_Mirror"%string, pv.GridMesh gm)]
    /\ pv.dimensions g = (5%nat, 2%nat, 1%nat)
    /\ pv.points gm = map pv.neg_y (pv.points g)
    /\ mirror_part false (pv.GridMesh g) = ok (pv.GridMesh gv)
    /\ pv.points gv = concat (map (@rev P3) (chunks 5 2 (map pv.neg_y (pv.points g))))
    /\ pz (nth 1 (pv.points gm) (mkP3 0 0 0)) = 2 * thickness 0.12 (1 / 2)
    /\ pz (nth 1 (pv.points gv) (mkP3 0 0 0)) = - (2 * thickness 0.12 (1 / 2))
    /\ gm <> gv.
Proof.
  destruct coarse_wing_grid as (af1 & tip & E1 & Ltip & E).
  rewrite coarse_root_loop in E1. injection E1 as <-.
  destruct tip as [|b0 [|b1 [|b2 [|b3 [|b4 [|b5 tip]]]]]]; try discriminate. clear Ltip.
  set (g := pv.mkGrid _ _) in E.
  assert (Em : _mesh_surface append_kernel coarse_mesher main_wing false = ok (pv.GridMesh g)).
  { unfold _mesh_surface. now rewrite E. }
  exists g, (pv.map_points pv.neg_y g).
  assert (Ev : flip_winding (negate_y (pv.GridMesh g))
               = ok (pv.GridMesh (pv.mkGrid
                       (concat (map (@rev P3) (chunks 5 (1 * 2) (map pv.neg_y (pv.points g)))))
                       (5%nat, 2%nat, 1%nat)))).
  { cbn [negate_y]. unfold pv.map_points. apply flip_winding_grid. reflexivity. }
  eexists. split.
  { unfold mesh_vehicle, scenario_vehicle. cbn [v_surfaces v_fuselage].
    rewrite (mesh_surfaces_open_mirror append_kernel coarse_mesher main_wing
               (pv.GridMesh g) [] eq_refl Em). reflexivity. }
  split; [reflexivity|]. split; [reflexivity|].
  split; [exact Ev|]. split; [reflexivity|].
  assert (Rz0 : np.radians (- ws_twist root_station) = 0).
  { unfold np.radians. cbn [ws_twist root_station]. lra. }
  assert (P1 : pz (nth 1 (pv.points (pv.map_points pv.neg_y g)) (mkP3 0 0 0))
               = 2 * thickness 0.12 (1 / 2)).
  { unfold g, pv.map_points, _position_profile. rewrite Rz0, cos_0, sin_0.
    cbn [pv.points map app nth pv.neg_y px py pz ws_chord ws_z root_station]. lra. }
  assert (P2 : pz (nth 1 (concat (map (@rev P3)
                     (chunks 5 (1 * 2) (map pv.neg_y (pv.points g))))) (mkP3 0 0 0))
               = - (2 * thickness 0.12 (1 / 2))).
  { unfold g, _position_profile. rewrite Rz0, cos_0, sin_0.
    cbn [pv.points map app nth pv.neg_y px py pz ws_chord ws_z root_station
         chunks firstn skipn rev concat Nat.mul Nat.add]. lra. }
  split; [exact P1|]. split; [exact P2|].
  intros Heq. apply (f_equal (fun gr => pz (nth 1 (pv.points gr) (mkP3 0 0 0)))) in Heq.
  cbv beta in Heq. rewrite P1 in Heq. cbn [pv.points] in Heq. rewrite P2 in Heq.
  pose proof thickness_mid_positive. lra.
Qed.

(** The sibling path: for an open, mirrored surface with the user flip off,
    [process_component] hands to the plotter the part with y negated and
    every chordwise row reversed. *)
Lemma process_component_open_mirror (K : pv.Filters) (mesher : StructuredMesher)
    (s : LiftingSurface) (grid : pv.Mesh) :
  _mesh_surface K mesher s false = ok grid ->
  process_component K mesher (SurfaceObj s) (Some (mkViz false false)) true
  = (m <- flip_winding (negate_y grid) ;; ok (Some m)).
Proof.
  intros E. unfold process_component. cbn [solid_view flip_normals].
  rewrite E. cbn [bind ok]. unfold mirror_part.
  destruct (flip_winding (negate_y grid)); reflexivity.
Qed.

(** * Further properties of the mesher *)

(** ** The airfoil loop *)

(** X1: the outcome of [_get_airfoil_coords].  With [chord_res = 0] the
    write to [yt[-1]] raises [IndexError].  With at least one chordwise
    sample, a cambered section ([m > 0]) whose camber position is [p = 1]
    raises [ZeroDivisionError] (the factor [m / (1 - p)**2]), and every other
    section whose camber position is in range gives a loop of
    [2 * chord_res - 1] points, all in the plane y = 0. *)
Theorem airfoil_loop_shape (self : StructuredMesher) (st : WingStation) :
  (chord_res self = 0%nat -> _get_airfoil_coords self st = raise IndexError)
  /\ ((1 <= chord_res self)%nat -> 0 < ws_m st -> ws_p st = 1 ->
      _get_airfoil_coords self st = raise ZeroDivisionError)
  /\ ((1 <= chord_res self)%nat -> camber_defined st ->
      exists loop,
        _get_airfoil_coords self st = ok loop
        /\ length loop = (2 * chord_res self - 1)%nat
        /\ Forall (fun q => py q = 0) loop).
Proof.
  split; [apply get_airfoil_coords_empty|].
  split; [apply get_airfoil_coords_zero_division|].
  intros HN Hc.
  destruct (get_airfoil_coords_ok self st HN Hc) as (loop & E & L).
  exists loop. split; [exact E|]. split; [exact L|].
  eapply airfoil_loop_in_plane, E.
Qed.

Lemma cambered_station_defined : camber_defined cambered_station.
Proof.
  split.
  - intros _ _. cbn [ws_p cambered_station]. lra.
  - intros [_ H]. cbn [ws_p cambered_station] in H. lra.
Qed.

Lemma airfoil_loop_shape_witness :
  _get_airfoil_coords default_mesher aft_camber_station = raise ZeroDivisionError
  /\ exists loop,
       _get_airfoil_coords default_mesher cambered_station = ok loop
       /\ length loop = 59%nat.
Proof.
  split.
  - apply (airfoil_loop_shape default_mesher aft_camber_station).
    + simpl; lia.
    + cbn [ws_m aft_camber_station]. lra.
    + reflexivity.
  - destruct (airfoil_loop_shape default_mesher cambered_station) as (_ & _ & H).
    destruct (H ltac:(simpl; lia) cambered_station_defined) as (loop & E & L & _).
    exists loop. split; [exact E | exact L].
Defined.

Lemma close_te_hd_last (l : list R) :
  l <> [] ->
  hd 0 (close_te l) = (hd 0 l + last l 0) / 2
  /\ last (close_te l) 0 = (hd 0 l + last l 0) / 2.
Proof.
  intros H. destruct l as [|a l]; [congruence|].
  unfold close_te. cbn [np.set_first].
  set (te := (hd 0 (a :: l) + last (a :: l) 0) / 2).
  destruct l as [|b l].
  - split; reflexivity.
  - split; [reflexivity|].
    change (removelast (te :: b :: l) ++ [te]) with ((te :: removelast (b :: l)) ++ [te]).
    apply last_last.
Qed.

Lemma zipWith_hd {A B C} (f : A -> B -> C) (a : list A) (b : list B) (da : A) (db : B) (dc : C) :
  a <> [] -> b <> [] ->
  hd dc (np.zipWith f a b) = f (hd da a) (hd db b).
Proof.
  destruct a, b; simpl; congruence.
Qed.

Lemma last_is_hd_rev {A} (l : list A) (d : A) : last l d = hd d (rev l).
Proof.
  destruct (rev l) as [|x r] eqn:E.
  - apply (f_equal (@rev A)) in E. rewrite rev_involutive in E. now subst.
  - apply (f_equal (@rev A)) in E. rewrite rev_involutive in E. subst l.
    simpl. apply last_last.
Qed.

Lemma zipWith_last {A B C} (f : A -> B -> C) (a : list A) (b : list B) (da : A) (db : B) (dc : C) :
  a <> [] -> length a = length b ->
  last (np.zipWith f a b) dc = f (last a da) (last b db).
Proof.
  intros Ha HL. rewrite !last_is_hd_rev, zipWith_rev by exact HL.
  apply zipWith_hd.
  - intros E. apply (f_equal (@length A)) in E. rewrite length_rev in E.
    destruct a; [congruence | discriminate].
  - intros E. apply (f_equal (@length B)) in E. rewrite length_rev, <- HL in E.
    destruct a; [congruence | discriminate].
Qed.

(** X2: the airfoil loop is closed.  For a section whose camber position is
    in range: when [_get_airfoil_coords] returns a loop, there was at least
    one chordwise sample and the camber could be evaluated, the loop is not
    empty and its first and last points are the same point.  Its only
    failures are [IndexError], exactly at [chord_res = 0], and
    [ZeroDivisionError], exactly for a cambered section with [p = 1] and at
    least one sample. *)
Theorem airfoil_loop_is_closed (self : StructuredMesher) (st : WingStation) :
  camber_in_range st ->
  match _get_airfoil_coords self st with
  | inr loop =>
      (1 <= chord_res self)%nat /\ camber_defined st
      /\ loop <> [] /\ hd (mkP3 0 0 0) loop = last loop (mkP3 0 0 0)
  | inl e =>
      (e = IndexError /\ chord_res self = 0%nat)
      \/ (e = ZeroDivisionError
          /\ (1 <= chord_res self)%nat /\ 0 < ws_m st /\ ws_p st = 1)
  end.
Proof.
  intros Hrange.
  destruct (chord_res self) as [|n] eqn:EN.
  { rewrite (get_airfoil_coords_empty self st EN). unfold raise. auto. }
  assert (HN : (1 <= chord_res self)%nat) by lia.
  destruct (Rlt_dec 0 (ws_m st)) as [Hm|Hm]; [destruct (Req_dec_T (ws_p st) 1) as [Hp|Hp]|].
  { rewrite (get_airfoil_coords_zero_division self st HN Hm Hp). unfold raise.
    right. repeat split; auto; lia. }
  all: assert (Hs : ~ (0 < ws_m st /\ ws_p st = 1)) by (intros [H1 H2]; auto).
  all: assert (Hc : camber_defined st) by (split; assumption).
  all: destruct (camber_line_ok (ws_m st) (ws_p st) (ws_r st)
                   (chord_samples (chord_res self)) Hs) as (yc & Ec & Lc).
  all: destruct (camber_slope_ok (ws_m st) (ws_p st)
                   (chord_samples (chord_res self)) Hs) as (dyc & Es & Ls).
  all: destruct (get_airfoil_coords_unfold self st yc dyc HN Ec Es) as [Hyt E].
  all: rewrite E; unfold ok.
  all: pose proof (chord_samples_length (chord_res self)) as Hx.
  all: set (xl := rev _ ++ tl _); set (zl := rev _ ++ tl _).
  all: assert (Lx : length xl = (2 * n + 1)%nat)
         by (unfold xl, np.add, np.sub, np.mul;
             rewrite length_app, length_rev, length_tl, !zipWith_length, !length_map,
               Ls, Hyt, Hx; lia).
  all: assert (Lz : length zl = (2 * n + 1)%nat)
         by (unfold zl, np.add, np.sub, np.mul;
             rewrite length_app, length_rev, length_tl, !zipWith_length, !length_map,
               Lc, Ls, Hyt, Hx; lia).
  all: assert (Nx : xl <> []) by (intros N; rewrite N in Lx; simpl in Lx; lia).
  all: assert (Nz : zl <> []) by (intros N; rewrite N in Lz; simpl in Lz; lia).
  all: assert (Cx : close_te xl <> [])
         by (intros N; apply (f_equal (@length R)) in N; rewrite close_te_length in N;
             simpl in N; lia).
  all: assert (Cz : close_te zl <> [])
         by (intros N; apply (f_equal (@length R)) in N; rewrite close_te_length in N;
             simpl in N; lia).
  all: destruct (close_te_hd_last xl Nx) as [Hx1 Hx2].
  all: destruct (close_te_hd_last zl Nz) as [Hz1 Hz2].
  all: split; [lia|]; split; [exact Hc|]; split.
  all: try (intros N; apply (f_equal (@length P3)) in N;
            rewrite zipWith_length, !close_te_length in N; simpl in N; lia).
  all: rewrite (zipWith_hd _ _ _ 0 0) by assumption.
  all: rewrite (zipWith_last _ _ _ 0 0) by (rewrite ?close_te_length; auto; lia).
  all: now rewrite Hx1, Hx2, Hz1, Hz2.
Qed.

Lemma airfoil_loop_is_closed_witness :
  exists loop,
    _get_airfoil_coords default_mesher cambered_station = ok loop
    /\ hd (mkP3 0 0 0) loop = last loop (mkP3 0 0 0).
Proof.
  pose proof (airfoil_loop_is_closed default_mesher cambered_station
                (proj1 cambered_station_defined)) as H.
  destruct (_get_airfoil_coords default_mesher cambered_station) as [e|loop].
  - exfalso. destruct H as [[_ H]|(_ & _ & _ & H)].
    + discriminate H.
    + cbn [ws_p cambered_station] in H. lra.
  - exists loop. split; [reflexivity|]. now destruct H as (_ & _ & _ & H).
Defined.

Lemma close_te_palindrome (l : list R) :
  rev (close_te (rev l ++ tl l)) = close_te (rev l ++ tl l).
Proof.
  destruct l as [|a l]; [reflexivity|].
  destruct (rev l) as [|b r] eqn:E.
  - apply (f_equal (@rev R)) in E. rewrite rev_involutive in E. subst l. reflexivity.
  - assert (L : l = rev r ++ [b]) by (rewrite <- (rev_involutive l), E; reflexivity).
    assert (E2 : rev (a :: l) ++ tl (a :: l) = b :: (r ++ a :: rev r) ++ [b]).
    { cbn [rev tl]. rewrite E, L. cbn [app]. now rewrite <- !app_assoc. }
    rewrite E2, close_te_ends. cbn [rev]. rewrite rev_app_distr. cbn [rev app].
    do 2 f_equal.
    rewrite rev_app_distr. cbn [rev]. rewrite rev_involutive, <- app_assoc. reflexivity.
Qed.

Lemma thickness_flat (x : R) : thickness 0 x = 0.
Proof. unfold thickness. ring. Qed.

(** X3: a section of zero thickness gives a degenerate loop.  With [t = 0],
    a camber that can be evaluated (any reflex) and at least one sample, the
    generator returns a loop whose upper and lower surface coincide, so the
    loop read backwards is the same loop. *)
Theorem zero_thickness_loop_is_flat (self : StructuredMesher) (st : WingStation) :
  ws_t st = 0 -> (1 <= chord_res self)%nat -> camber_defined st ->
  exists loop,
    _get_airfoil_coords self st = ok loop
    /\ length loop = (2 * chord_res self - 1)%nat
    /\ rev loop = loop.
Proof.
  intros Ht HN Hc.
  destruct (get_airfoil_coords_ok self st HN Hc) as (loop & E & L).
  exists loop. split; [exact E|]. split; [exact L|].
  destruct (camber_line_ok (ws_m st) (ws_p st) (ws_r st)
              (chord_samples (chord_res self)) (proj2 Hc)) as (yc & Ec & Lyc).
  destruct (camber_slope_ok (ws_m st) (ws_p st)
              (chord_samples (chord_res self)) (proj2 Hc)) as (dyc & Es & Ldyc).
  destruct (get_airfoil_coords_unfold self st yc dyc HN Ec Es) as [_ E'].
  rewrite E' in E. clear E'. revert E.
  pose proof (chord_samples_length (chord_res self)) as Hx.
  set (x := chord_samples (chord_res self)) in *.
  assert (Hne : map (thickness (ws_t st)) x <> []).
  { intros E. apply (f_equal (@length R)) in E. rewrite length_map in E.
    simpl in E. lia. }
  assert (Hyt : removelast (map (thickness (ws_t st)) x) ++ [0] = map (fun _ => 0) x).
  { rewrite Ht.
    replace (map (thickness 0) x) with (map (fun _ : R => 0) x)
      by (apply map_ext; intros; now rewrite thickness_flat).
    set (z := map (fun _ : R => 0) x).
    assert (Hz : z <> []).
    { intros Ez. apply (f_equal (@length R)) in Ez. unfold z in Ez.
      rewrite length_map in Ez. simpl in Ez. lia. }
    rewrite (app_removelast_last 0 Hz) at 2. do 2 f_equal.
    clear - x. unfold z. induction x as [|a [|b x] IH]; auto. }
  rewrite Hyt.
  set (th := map atan dyc).
  assert (Lth : length th = length x) by (unfold th; now rewrite length_map).
  unfold np.add, np.sub, np.mul.
  rewrite !(zipWith_const_l Rmult 0 x) by (rewrite length_map; lia).
  rewrite !map_map.
  rewrite !(zipWith_map_r _ _ _ th).
  rewrite (zipWith_ext (fun x0 y => x0 - 0 * sin y) (fun x0 _ => x0)) by (intros; ring).
  rewrite (zipWith_ext (fun x0 y => x0 + 0 * sin y) (fun x0 _ => x0)) by (intros; ring).
  rewrite (zipWith_ext (fun x0 y => x0 + 0 * cos y) (fun x0 _ => x0)) by (intros; ring).
  rewrite (zipWith_ext (fun x0 y => x0 - 0 * cos y) (fun x0 _ => x0)) by (intros; ring).
  rewrite (zipWith_fst x th) by lia. rewrite (zipWith_fst yc th) by lia.
  intros E. injection E as <-.
  rewrite zipWith_rev by (rewrite !close_te_length, !length_app, !length_rev, !length_tl; lia).
  now rewrite !close_te_palindrome.
Qed.

Lemma plate_station_defined : camber_defined plate_station.
Proof.
  split.
  - intros _ _. cbn [ws_p plate_station]. lra.
  - intros [_ H]. cbn [ws_p plate_station] in H. lra.
Qed.

Lemma zero_thickness_loop_is_flat_witness :
  exists loop,
    _get_airfoil_coords default_mesher plate_station = ok loop
    /\ length loop = 59%nat
    /\ rev loop = loop.
Proof.
  apply (zero_thickness_loop_is_flat default_mesher plate_station).
  - reflexivity.
  - simpl; lia.
  - exact plate_station_defined.
Defined.

(** ** The station transform without twist *)

(** X4: for a station with zero twist, [_position_profile] scales every
    coordinate by the chord and translates by the station's (x, y, z); the
    point count and order are kept. *)
Theorem position_profile_untwisted (coords : list P3) (st : WingStation) :
  ws_twist st = 0 ->
  _position_profile coords st
  = map (fun q => mkP3 (px q * ws_chord st + ws_x st)
                       (py q * ws_chord st + ws_y st)
                       (pz q * ws_chord st + ws_z st)) coords.
Proof.
  intros H. unfold _position_profile, np.radians. rewrite H.
  replace (- 0 * PI / 180) with 0 by lra. rewrite cos_0, sin_0.
  apply map_ext. intros q. f_equal; ring.
Qed.

Lemma position_profile_untwisted_witness :
  _position_profile [mkP3 1 0 0.5] tip_station = [mkP3 (1 * 1 + 1) (0 * 1 + 5) (0.5 * 1 + 0.5)].
Proof.
  apply (position_profile_untwisted [mkP3 1 0 0.5] tip_station). reflexivity.
Defined.

(** ** The shape of the loft *)

(** X5: the shape of one lofted segment.  For two stations whose camber can
    be evaluated and at least one chordwise sample, [_loft_segment] returns
    [span_res] slices of [2N - 1] points each; the first slice is the first
    station's positioned loop as soon as there is one slice, the last slice
    is the second station's positioned loop only when [span_res >= 2], and
    with [span_res = 1] the segment is the first station's loop alone. *)
Theorem loft_segment_shape (self : StructuredMesher) (st1 st2 : WingStation) :
  (1 <= chord_res self)%nat -> camber_defined st1 -> camber_defined st2 ->
  exists af1 af2 nd,
    _get_airfoil_coords self st1 = ok af1
    /\ _get_airfoil_coords self st2 = ok af2
    /\ _loft_segment self st1 st2 = ok nd
    /\ length (nd_rows nd) = span_res self
    /\ nd_width nd = (2 * chord_res self - 1)%nat
    /\ Forall (fun r => length r = (2 * chord_res self - 1)%nat) (nd_rows nd)
    /\ ((1 <= span_res self)%nat -> hd [] (nd_rows nd) = _position_profile af1 st1)
    /\ ((2 <= span_res self)%nat -> last (nd_rows nd) [] = _position_profile af2 st2)
    /\ (span_res self = 1%nat -> nd_rows nd = [_position_profile af1 st1]).
Proof.
  intros HN Hc1 Hc2.
  destruct (loft_segment_ok self st1 st2 HN Hc1 Hc2)
    as (af1 & af2 & E1 & E2 & L1 & L2 & E).
  eexists af1, af2, _. do 3 (split; [eassumption|]).
  cbn [nd_rows nd_width].
  set (p1 := _position_profile af1 st1). set (p2 := _position_profile af2 st2).
  assert (Lp1 : length p1 = (2 * chord_res self - 1)%nat)
    by (unfold p1; now rewrite position_profile_length).
  assert (Lp2 : length p2 = (2 * chord_res self - 1)%nat)
    by (unfold p2; now rewrite position_profile_length).
  split; [now rewrite length_map, linspace_length|].
  split; [reflexivity|].
  split; [now apply loft_rows_width|].
  assert (First : (1 <= span_res self)%nat ->
                  exists rest, map (fun ti => np.zipWith (lerp ti) p1 p2)
                                   (np.linspace 0 1 (span_res self)) = p1 :: rest
                               /\ (span_res self = 1%nat -> rest = [])).
  { intros HS. destruct (Nat.eq_dec (span_res self) 1) as [E1'|N1].
    - rewrite E1'. exists []. split; [|reflexivity].
      unfold np.linspace. cbn [Nat.ltb Nat.leb seq map]. simpl INR.
      f_equal. replace (0 * ((1 - 0) / 0) + 0) with 0 by (unfold Rdiv; ring).
      apply zipWith_lerp_0. lia.
    - destruct (linspace_ends 0 1 (span_res self) ltac:(lia)) as (mid & Et).
      rewrite Et. cbn [map]. eexists. split; [|intros; lia].
      f_equal. apply zipWith_lerp_0. lia. }
  split; [|split].
  - intros HS. destruct (First HS) as (rest & Er & _). now rewrite Er.
  - intros HS. destruct (linspace_ends 0 1 (span_res self) HS) as (mid & Et).
    rewrite Et. cbn [map]. rewrite map_app. cbn [map].
    change (?a :: ?l ++ [?b]) with ((a :: l) ++ [b]). rewrite last_last.
    apply zipWith_lerp_1. lia.
  - intros HS. destruct (First ltac:(lia)) as (rest & Er & Hr).
    rewrite Er, (Hr HS). reflexivity.
Qed.

Lemma loft_segment_shape_witness :
  exists af1 af2 nd,
    _get_airfoil_coords default_mesher root_station = ok af1
    /\ _get_airfoil_coords default_mesher tip_station = ok af2
    /\ _loft_segment default_mesher root_station tip_station = ok nd
    /\ length (nd_rows nd) = 15%nat
    /\ hd [] (nd_rows nd) = _position_profile af1 root_station
    /\ last (nd_rows nd) [] = _position_profile af2 tip_station.
Proof.
  destruct (loft_segment_shape default_mesher root_station tip_station)
    as (af1 & af2 & nd & E1 & E2 & E & L & _ & _ & Hf & Hl & _);
    [simpl; lia | now apply symmetric_camber_defined | now apply symmetric_camber_defined |].
  exists af1, af2, nd. repeat split; auto.
  - apply Hf. simpl; lia.
  - apply Hl. simpl; lia.
Defined.

(** X6: the shape of the open grid.  For a surface with n >= 2 stations,
    each with a camber that can be evaluated, meshed with [chord_res = N >= 1]
    and [span_res = S >= 1], [_mesh_surface] returns a grid of dimensions
    [(2N - 1, (n - 1)(S - 1) + 1, 1)]: the seam slice shared by two
    consecutive segments appears once.  Its point count is the product of its
    dimensions, so the mirror of [process_component] (which reshapes the
    points by the dimensions) succeeds on it. *)
Theorem open_grid_shape (K : pv.Filters) (self : StructuredMesher) (surface : LiftingSurface) :
  (1 <= chord_res self)%nat -> (1 <= span_res self)%nat ->
  (2 <= length (ls_stations surface))%nat ->
  Forall camber_defined (ls_stations surface) ->
  exists grid,
    _mesh_surface K self surface false = ok (pv.GridMesh grid)
    /\ pv.dimensions grid
       = ((2 * chord_res self - 1)%nat,
          ((length (ls_stations surface) - 1) * (span_res self - 1) + 1)%nat,
          1%nat)
    /\ length (pv.points grid)
       = (((length (ls_stations surface) - 1) * (span_res self - 1) + 1)
          * (2 * chord_res self - 1))%nat
    /\ mirror_ready false (pv.GridMesh grid)
    /\ exists mirrored, mirror_part false (pv.GridMesh grid) = ok mirrored.
Proof.
  intros HN HS Hn Hc.
  destruct (surface_grid_shape self surface HN HS Hn Hc) as (grid & Eg & Hd & Hl).
  assert (Hr : mirror_ready false (pv.GridMesh grid)).
  { unfold mirror_ready. rewrite Hd. split; [reflexivity|]. rewrite Hl. lia. }
  exists grid. split; [unfold _mesh_surface; now rewrite Eg|].
  do 3 (split; [assumption|]).
  destruct grid as [pts [[d0 d1] d2]]. cbn [pv.points pv.dimensions] in *.
  injection Hd as -> -> ->.
  unfold mirror_part. cbn [negate_y]. unfold pv.map_points. cbn [pv.points pv.dimensions].
  rewrite flip_winding_grid; [eexists; reflexivity|].
  rewrite length_map, Hl. lia.
Qed.

Lemma cranked_wing_camber_defined : Forall camber_defined (ls_stations cranked_wing).
Proof.
  repeat (apply Forall_cons; [now apply symmetric_camber_defined|]). apply Forall_nil.
Qed.

Lemma open_grid_shape_witness :
  exists grid,
    _mesh_surface append_kernel default_mesher cranked_wing false = ok (pv.GridMesh grid)
    /\ pv.dimensions grid = (59%nat, 29%nat, 1%nat)
    /\ length (pv.points grid) = (29 * 59)%nat.
Proof.
  destruct (open_grid_shape append_kernel default_mesher cranked_wing)
    as (grid & E & Hd & Hl & _);
    [simpl; lia | simpl; lia | simpl; lia | exact cranked_wing_camber_defined |].
  exists grid. split; [exact E|]. split; [exact Hd | exact Hl].
Defined.

Lemma last_app_nonempty {A} (a b : list A) (d : A) :
  b <> [] -> last (a ++ b) d = last b d.
Proof.
  intros Hb. destruct (exists_last Hb) as (b' & x & ->).
  now rewrite app_assoc, !last_last.
Qed.

Lemma Forall_last_station (stations : list WingStation) (d : WingStation) :
  Forall camber_defined stations -> stations <> [] -> camber_defined (last stations d).
Proof. intros H Hne. now apply Forall_last. Qed.

Lemma loft_segments_last (self : StructuredMesher) :
  (1 <= chord_res self)%nat -> (2 <= span_res self)%nat ->
  forall stations i d, (2 <= length stations)%nat -> Forall camber_defined stations ->
  exists segs af,
    loft_segments self i stations = ok segs
    /\ _get_airfoil_coords self (last stations d) = ok af
    /\ flat_map nd_rows segs <> []
    /\ last (flat_map nd_rows segs) [] = _position_profile af (last stations d).
Proof.
  intros HN HS. induction stations as [|a rest IH]; intros i d Hn Hc; [simpl in Hn; lia|].
  destruct rest as [|b rest']; [simpl in Hn; lia|].
  inversion Hc as [|? ? Hc1 Hc']; subst. inversion Hc' as [|? ? Hc2 _]; subst.
  destruct (loft_segment_ok self a b HN Hc1 Hc2) as (af1 & af2 & _ & E2 & L1 & L2 & E).
  destruct (linspace_ends 0 1 (span_res self) HS) as (mid & Et).
  set (p1 := _position_profile af1 a) in *. set (p2 := _position_profile af2 b) in *.
  assert (Lp : length p1 = length p2)
    by (unfold p1, p2; rewrite !position_profile_length; lia).
  set (row := fun ti => np.zipWith (lerp ti) p1 p2) in *.
  assert (Er : map row (np.linspace 0 1 (span_res self)) = row 0 :: map row mid ++ [p2]).
  { rewrite Et. cbn [map]. rewrite map_app. cbn [map]. unfold row at 3.
    now rewrite zipWith_lerp_1. }
  rewrite Er in E.
  assert (Seg : exists pre,
             nd_rows (if (0 <? i)%nat
                      then mkNd (tl (row 0 :: map row mid ++ [p2])) (2 * chord_res self - 1)
                      else mkNd (row 0 :: map row mid ++ [p2]) (2 * chord_res self - 1))
             = pre ++ [p2]).
  { destruct (0 <? i)%nat; cbn [nd_rows tl].
    - exists (map row mid). reflexivity.
    - exists (row 0 :: map row mid). reflexivity. }
  destruct Seg as (pre & Epre).
  rewrite loft_segments_cons, E. cbn [bind ok nd_rows nd_width].
  destruct rest' as [|c rest''].
  - cbn [loft_segments bind ok]. eexists _, af2. split; [reflexivity|].
    split; [exact E2|]. cbn [flat_map]. rewrite app_nil_r, Epre.
    split; [destruct pre; discriminate | apply last_last].
  - destruct (IH (S i) d ltac:(simpl; lia) Hc') as (more & af & Em & Ea & Nm & Lm).
    rewrite Em. cbn [bind ok]. eexists _, af. split; [reflexivity|].
    split; [exact Ea|]. cbn [flat_map].
    split.
    + intros H. apply app_eq_nil in H. destruct H as [_ H]. contradiction.
    + rewrite last_app_nonempty by exact Nm. exact Lm.
Qed.

Lemma loft_segments_first (self : StructuredMesher) (a b : WingStation)
    (rest : list WingStation) :
  (1 <= chord_res self)%nat -> (1 <= span_res self)%nat ->
  Forall camber_defined (a :: b :: rest) ->
  exists segs af tail,
    loft_segments self 0 (a :: b :: rest) = ok segs
    /\ _get_airfoil_coords self a = ok af
    /\ flat_map nd_rows segs = _position_profile af a :: tail.
Proof.
  intros HN HS Hc.
  inversion Hc as [|? ? Hc1 Hc']; subst. inversion Hc' as [|? ? Hc2 _]; subst.
  destruct (loft_segment_ok self a b HN Hc1 Hc2) as (af1 & af2 & E1 & _ & L1 & L2 & E).
  destruct (loft_segments_ok self (b :: rest) HN Hc' 1) as (more & Em & _).
  rewrite loft_segments_cons, E. cbn [bind ok]. rewrite Em. cbn [bind ok Nat.ltb Nat.leb].
  assert (Et : exists ts, np.linspace 0 1 (span_res self) = 0 :: ts).
  { destruct (Nat.eq_dec (span_res self) 1) as [E1'|N1].
    - rewrite E1'. exists []. unfold np.linspace. cbn [Nat.ltb Nat.leb seq map].
      simpl INR. f_equal. unfold Rdiv. ring.
    - destruct (linspace_ends 0 1 (span_res self) ltac:(lia)) as (mid & Et).
      rewrite Et. eexists; reflexivity. }
  destruct Et as (ts & Et).
  eexists _, af1, _. split; [reflexivity|]. split; [exact E1|].
  cbn [flat_map nd_rows]. rewrite Et. cbn [map app]. f_equal.
  apply zipWith_lerp_0. rewrite !position_profile_length. lia.
Qed.

(** X7: the loft ends for any number of stations.  For a surface with n >= 2
    stations, each with a camber that can be evaluated, [chord_res >= 1] and
    [span_res >= 2], the first slice of the open grid is the first station's
    positioned loop and the last slice is the last station's positioned loop,
    both carried through the surface's global placement, whatever the
    stations in between are.  When the twist of an end station is a whole
    number of half turns, its positioned loop is its loop scaled by the
    chord, rotated by [-twist] and translated by (x, y, z). *)
Theorem loft_ends_any_station_count (K : pv.Filters) (self : StructuredMesher)
    (surface : LiftingSurface) (st_first : WingStation) (others : list WingStation) :
  ls_stations surface = st_first :: others -> others <> [] ->
  (1 <= chord_res self)%nat -> (2 <= span_res self)%nat ->
  Forall camber_defined (ls_stations surface) ->
  exists grid af_first af_last,
    _mesh_surface K self surface false = ok (pv.GridMesh grid)
    /\ _get_airfoil_coords self st_first = ok af_first
    /\ _get_airfoil_coords self (last others st_first) = ok af_last
    /\ root_slice grid = map (place_point surface) (_position_profile af_first st_first)
    /\ tip_slice grid
       = map (place_point surface) (_position_profile af_last (last others st_first))
    /\ (flat_twist st_first ->
        root_slice grid
        = map (place_point surface) (map (station_transform st_first) af_first))
    /\ (flat_twist (last others st_first) ->
        tip_slice grid
        = map (place_point surface)
              (map (station_transform (last others st_first)) af_last)).
Proof.
  intros Hst Ho HN HS Hc. rewrite Hst in Hc.
  destruct others as [|b rest]; [congruence|]. clear Ho.
  destruct (loft_segments_first self st_first b rest HN ltac:(lia) Hc)
    as (segs & af1 & tail & E & E1 & Hhd).
  destruct (loft_segments_last self HN HS (st_first :: b :: rest) 0 st_first
              ltac:(simpl; lia) Hc)
    as (segs' & afl & E' & El & Hne & Hlast).
  rewrite E in E'. injection E' as <-.
  change (last (st_first :: b :: rest) st_first) with (last (b :: rest) st_first) in *.
  destruct (loft_segments_ok self (st_first :: b :: rest) HN Hc 0) as (segs'' & E'' & _ & W).
  rewrite E in E''. injection E'' as <-.
  destruct segs as [|seg segs0]; [discriminate Hhd|].
  assert (Wseg : nd_width seg = (2 * chord_res self - 1)%nat) by now inversion W.
  set (rows := flat_map nd_rows (seg :: segs0)) in *.
  set (grid := _transform_grid
                 (pv.mkGrid (concat rows) (nd_width seg, length rows, 1%nat)) surface).
  assert (Eg : surface_grid self surface = ok grid).
  { unfold surface_grid. rewrite Hst, E. reflexivity. }
  destruct (transform_grid_points
              (pv.mkGrid (concat rows) (nd_width seg, length rows, 1%nat)) surface)
    as [Ep Ed]. fold grid in Ep, Ed. cbn [pv.points pv.dimensions] in Ep, Ed.
  assert (Hcf : camber_defined st_first) by now inversion Hc.
  assert (Hcl : camber_defined (last (b :: rest) st_first)).
  { apply Forall_last_station; [now inversion Hc | discriminate]. }
  destruct (get_airfoil_coords_ok self st_first HN Hcf) as (x & Ex & Lx).
  rewrite E1 in Ex. injection Ex as <-.
  destruct (get_airfoil_coords_ok self (last (b :: rest) st_first) HN Hcl) as (y & Ey & Ly).
  rewrite El in Ey. injection Ey as <-.
  assert (Hroot : root_slice grid
                  = map (place_point surface) (_position_profile af1 st_first)).
  { unfold root_slice. rewrite Ed, Ep, Hhd, Wseg. cbn [fst concat].
    rewrite map_app, <- Lx, <- (position_profile_length af1 st_first),
      <- (length_map (place_point surface)).
    apply firstn_length_app. }
  assert (Htip : tip_slice grid
                 = map (place_point surface)
                       (_position_profile afl (last (b :: rest) st_first))).
  { unfold tip_slice. rewrite Ed, Ep, Wseg. cbn [fst].
    rewrite (app_removelast_last [] Hne), Hlast, concat_app. cbn [concat].
    rewrite app_nil_r, map_app, <- Ly,
      <- (position_profile_length afl (last (b :: rest) st_first)),
      <- (length_map (place_point surface)).
    apply lastn_app. intros Hnil. apply (f_equal (@length P3)) in Hnil.
    rewrite length_map, position_profile_length, Ly in Hnil. simpl in Hnil. lia. }
  exists grid, af1, afl.
  split; [unfold _mesh_surface; now rewrite Eg|].
  do 4 (split; [assumption|]).
  split.
  - intros Hf. now rewrite Hroot, (position_profile_flat_twist af1 st_first Hf).
  - intros Hf. now rewrite Htip, (position_profile_flat_twist afl _ Hf).
Qed.

Lemma loft_ends_any_station_count_witness :
  exists grid af_first af_last,
    _mesh_surface append_kernel default_mesher cranked_wing false = ok (pv.GridMesh grid)
    /\ _get_airfoil_coords default_mesher root_station = ok af_first
    /\ _get_airfoil_coords default_mesher outer_station = ok af_last
    /\ root_slice grid
       = map (place_point cranked_wing) (map (station_transform root_station) af_first)
    /\ tip_slice grid
       = map (place_point cranked_wing) (map (station_transform outer_station) af_last).
Proof.
  destruct (loft_ends_any_station_count append_kernel default_mesher cranked_wing
              root_station [tip_station; outer_station])
    as (grid & af1 & afl & E & E1 & El & _ & _ & Hr & Ht).
  - reflexivity.
  - discriminate.
  - simpl; lia.
  - simpl; lia.
  - exact cranked_wing_camber_defined.
  - exists grid, af1, afl. do 3 (split; [assumption|]). split.
    + apply Hr. now apply untwisted_is_flat.
    + apply Ht. now apply untwisted_is_flat.
Defined.

(** ** Rigid placement *)

Lemma cs2 (a : R) : cos a * cos a + sin a * sin a = 1.
Proof. pose proof (sin2_cos2 a) as H. unfold Rsqr in H. lra. Qed.

Lemma rot_x_dot (a : R) (u v : P3) :
  row_dot (pv.rot_x a u) (pv.rot_x a v) = row_dot u v.
Proof.
  destruct u as [x1 y1 z1], v as [x2 y2 z2]. unfold pv.rot_x, row_dot; simpl.
  set (c := cos (np.radians a)). set (s := sin (np.radians a)).
  replace (x1 * x2 + (c * y1 - s * z1) * (c * y2 - s * z2)
           + (s * y1 + c * z1) * (s * y2 + c * z2))
    with (x1 * x2 + (c * c + s * s) * (y1 * y2 + z1 * z2)) by ring.
  unfold c, s. rewrite cs2. ring.
Qed.

Lemma rot_y_dot (a : R) (u v : P3) :
  row_dot (pv.rot_y a u) (pv.rot_y a v) = row_dot u v.
Proof.
  destruct u as [x1 y1 z1], v as [x2 y2 z2]. unfold pv.rot_y, row_dot; simpl.
  set (c := cos (np.radians a)). set (s := sin (np.radians a)).
  replace ((c * x1 + s * z1) * (c * x2 + s * z2) + y1 * y2
           + (- s * x1 + c * z1) * (- s * x2 + c * z2))
    with (y1 * y2 + (c * c + s * s) * (x1 * x2 + z1 * z2)) by ring.
  unfold c, s. rewrite cs2. ring.
Qed.

Lemma rot_z_dot (a : R) (u v : P3) :
  row_dot (pv.rot_z a u) (pv.rot_z a v) = row_dot u v.
Proof.
  destruct u as [x1 y1 z1], v as [x2 y2 z2]. unfold pv.rot_z, row_dot; simpl.
  set (c := cos (np.radians a)). set (s := sin (np.radians a)).
  replace ((c * x1 - s * y1) * (c * x2 - s * y2)
           + (s * x1 + c * y1) * (s * x2 + c * y2) + z1 * z2)
    with (z1 * z2 + (c * c + s * s) * (x1 * x2 + y1 * y2)) by ring.
  unfold c, s. rewrite cs2. ring.
Qed.

Lemma sq_dist_dot (p q : P3) : sq_dist p q = row_dot (vec_sub p q) (vec_sub p q).
Proof. unfold sq_dist, row_dot, vec_sub; simpl. ring. Qed.

Lemma rot_x_sub (a : R) (p q : P3) :
  vec_sub (pv.rot_x a p) (pv.rot_x a q) = pv.rot_x a (vec_sub p q).
Proof. unfold vec_sub, pv.rot_x; simpl. f_equal; ring. Qed.

Lemma rot_y_sub (a : R) (p q : P3) :
  vec_sub (pv.rot_y a p) (pv.rot_y a q) = pv.rot_y a (vec_sub p q).
Proof. unfold vec_sub, pv.rot_y; simpl. f_equal; ring. Qed.

Lemma rot_z_sub (a : R) (p q : P3) :
  vec_sub (pv.rot_z a p) (pv.rot_z a q) = pv.rot_z a (vec_sub p q).
Proof. unfold vec_sub, pv.rot_z; simpl. f_equal; ring. Qed.

Lemma shift_sub (v p q : P3) : vec_sub (pv.shift v p) (pv.shift v q) = vec_sub p q.
Proof. unfold vec_sub, pv.shift; simpl. f_equal; ring. Qed.

(** X8: [_transform_grid] is a rigid motion.  It maps every point of the
    grid through one placement, keeps the dimensions and the point count, and
    the placement preserves the distance between any two points. *)
Theorem transform_grid_is_rigid (grid : pv.StructuredGrid) (surface : LiftingSurface) :
  pv.points (_transform_grid grid surface) = map (place_point surface) (pv.points grid)
  /\ pv.dimensions (_transform_grid grid surface) = pv.dimensions grid
  /\ length (pv.points (_transform_grid grid surface)) = length (pv.points grid)
  /\ forall p q, sq_dist (place_point surface p) (place_point surface q) = sq_dist p q.
Proof.
  destruct (transform_grid_points grid surface) as [Ep Ed].
  split; [exact Ep|]. split; [exact Ed|]. split; [now rewrite Ep, length_map|].
  intros p q. rewrite !sq_dist_dot. unfold place_point.
  rewrite shift_sub, rot_z_sub, rot_y_sub, rot_x_sub.
  now rewrite rot_z_dot, rot_y_dot, rot_x_dot.
Qed.

Lemma rotation_matrix_dot (roll pitch yaw : R) (u v : P3) :
  row_dot (mat_vec (get_rotation_matrix roll pitch yaw) u)
          (mat_vec (get_rotation_matrix roll pitch yaw) v) = row_dot u v.
Proof.
  rewrite <- !sequential_rotation_point.
  now rewrite rot_z_dot, rot_y_dot, rot_x_dot.
Qed.

(** X9: the matrix of [get_rotation_matrix] is orthogonal: multiplying by it
    preserves the dot product of any two vectors, hence lengths and angles,
    for every roll, pitch and yaw. *)
Theorem rotation_matrix_is_orthogonal (roll pitch yaw : R) (u v : P3) :
  let Rm := get_rotation_matrix roll pitch yaw in
  row_dot (mat_vec Rm u) (mat_vec Rm v) = row_dot u v
  /\ row_dot (mat_vec Rm u) (mat_vec Rm u) = row_dot u u
  /\ sq_dist (mat_vec Rm u) (mat_vec Rm v) = sq_dist u v.
Proof.
  intros Rm. unfold Rm. split; [apply rotation_matrix_dot|].
  split; [apply rotation_matrix_dot|].
  rewrite <- !sequential_rotation_point, !sq_dist_dot.
  rewrite rot_z_sub, rot_y_sub, rot_x_sub.
  now rewrite rot_z_dot, rot_y_dot, rot_x_dot.
Qed.

Lemma local_axes_are_columns (rotation_deg : P3) :
  _get_local_axes rotation_deg
  = (mat_vec (get_rotation_matrix (px rotation_deg) (py rotation_deg) (pz rotation_deg))
             (mkP3 1 0 0),
     mat_vec (get_rotation_matrix (px rotation_deg) (py rotation_deg) (pz rotation_deg))
             (mkP3 0 1 0),
     mat_vec (get_rotation_matrix (px rotation_deg) (py rotation_deg) (pz rotation_deg))
             (mkP3 0 0 1)).
Proof. reflexivity. Qed.

(** X10: the local axes drawn by the editor are orthonormal: for every
    orientation the three vectors of [_get_local_axes] have length 1 and are
    pairwise perpendicular. *)
Theorem local_axes_are_orthonormal (rotation_deg : P3) :
  let '(vx, vy, vz) := _get_local_axes rotation_deg in
  row_dot vx vx = 1 /\ row_dot vy vy = 1 /\ row_dot vz vz = 1
  /\ row_dot vx vy = 0 /\ row_dot vx vz = 0 /\ row_dot vy vz = 0.
Proof.
  rewrite local_axes_are_columns.
  rewrite !rotation_matrix_dot. unfold row_dot; simpl.
  repeat split; ring.
Qed.

(** ** Face indices of the capped surface *)







(** ** The fuselage *)

Lemma fuselage_grid_points (self : StructuredMesher) (f : Fuselage) (x0 r0 : R)
    (rest : list (R * R)) :
  fu_profile f = (x0, r0) :: rest ->
  let profile := fu_profile f in
  let x_dense := np.linspace x0 (fst (last profile (0, 0))) (fus_long_res self) in
  let r_dense := map (fun x => np.interp x profile) x_dense in
  let theta := np.linspace 0 (2 * PI) (fus_rad_res self) in
  fuselage_grid self f
  = ok (pv.mkGrid
          (map (pv.shift (fu_position f))
               (flat_map (fun xr => map (fun t => mkP3 (fst xr) (snd xr * cos t) (snd xr * sin t))
                                        theta)
                         (combine x_dense r_dense)))
          (fus_rad_res self, fus_long_res self, 1%nat),
        r_dense).
Proof.
  intros Hp. unfold fuselage_grid. rewrite Hp. reflexivity.
Qed.

Lemma flat_map_rings_length {A} (f : A -> list P3) (l : list A) (w : nat) :
  (forall a, length (f a) = w) -> length (flat_map f l) = (length l * w)%nat.
Proof.
  intros H. induction l as [|a l IH]; cbn [flat_map length]; [reflexivity|].
  now rewrite length_app, H, IH.
Qed.

(** X12: the fuselage grid.  An empty profile makes [_mesh_fuselage] raise
    [IndexError] in both modes.  With a non-empty profile the open mesh is
    always produced: a grid of dimensions [(fus_rad_res, fus_long_res, 1)]
    with [fus_long_res * fus_rad_res] points, which the mirror's reshape
    accepts. *)
Theorem fuselage_grid_shape (K : pv.Filters) (self : StructuredMesher) (f : Fuselage) :
  match fu_profile f with
  | [] => forall solid, _mesh_fuselage K self f solid = raise IndexError
  | _ :: _ =>
      exists grid,
        _mesh_fuselage K self f false = ok (pv.GridMesh grid)
        /\ pv.dimensions grid = (fus_rad_res self, fus_long_res self, 1%nat)
        /\ length (pv.points grid) = (fus_long_res self * fus_rad_res self)%nat
        /\ mirror_ready false (pv.GridMesh grid)
  end.
Proof.
  destruct (fu_profile f) as [|[x0 r0] rest] eqn:Hp.
  - intros solid. unfold _mesh_fuselage, fuselage_grid. rewrite Hp. reflexivity.
  - pose proof (fuselage_grid_points self f x0 r0 rest Hp) as E. cbv zeta in E.
    eexists. unfold _mesh_fuselage. rewrite E. cbn [bind ok negb].
    split; [reflexivity|]. cbn [pv.dimensions pv.points pv.translate pv.map_points].
    split; [reflexivity|].
    assert (L : forall pts, length (map (pv.shift (fu_position f)) pts) = length pts)
      by (intros; apply length_map).
    assert (Len : length
              (map (pv.shift (fu_position f))
                 (flat_map
                    (fun xr => map (fun t => mkP3 (fst xr) (snd xr * cos t) (snd xr * sin t))
                                   (np.linspace 0 (2 * PI) (fus_rad_res self)))
                    (combine
                       (np.linspace x0 (fst (last (fu_profile f) (0, 0))) (fus_long_res self))
                       (map (fun x => np.interp x (fu_profile f))
                          (np.linspace x0 (fst (last (fu_profile f) (0, 0)))
                             (fus_long_res self))))))
              = (fus_long_res self * fus_rad_res self)%nat).
    { rewrite L, (flat_map_rings_length _ _ (fus_rad_res self)).
      - rewrite length_combine, length_map, linspace_length. f_equal. lia.
      - intros a. now rewrite length_map, linspace_length. }
    split; [exact Len|].
    unfold mirror_ready. cbn [pv.dimensions pv.points].
    split; [reflexivity|]. rewrite Len. lia.
Qed.

Lemma in_combine_map {A B} (g : A -> B) (l : list A) (a : A) (b : B) :
  In (a, b) (combine l (map g l)) -> In a l /\ b = g a.
Proof.
  induction l as [|x l IH]; cbn [combine map In]; [tauto|].
  intros [H|H].
  - injection H as <- <-. auto.
  - destruct (IH H). auto.
Qed.

Lemma interp_from_nonneg (x : R) (rest : list (R * R)) :
  forall x0 f0,
    x0 <= x -> 0 <= f0 -> Forall (fun n => 0 <= snd n) rest ->
    profile_ascending ((x0, f0) :: rest) ->
    0 <= np.interp_from x x0 f0 rest.
Proof.
  induction rest as [|[x1 f1] rest IH]; intros x0 f0 Hx Hf Hr Hs; cbn [np.interp_from];
    [exact Hf|].
  inversion Hr as [|? ? Hf1 Hr']; subst. cbn [snd] in Hf1.
  inversion Hs as [|? ? Hs' Hlt]; subst.
  inversion Hlt as [|? ? Hx1 _]; subst. cbn [fst] in Hx1.
  destruct (Rlt_dec x x1) as [Hlt1|Hge].
  - set (t := (x - x0) / (x1 - x0)).
    assert (Ht : 0 <= t <= 1).
    { unfold t. split.
      - apply Rmult_le_pos; [lra|]. left. apply Rinv_0_lt_compat. lra.
      - apply (Rmult_le_reg_r (x1 - x0)); [lra|].
        unfold Rdiv. rewrite Rmult_assoc, Rinv_l by lra. lra. }
    replace ((f1 - f0) / (x1 - x0) * (x - x0) + f0) with ((1 - t) * f0 + t * f1)
      by (unfold t; field; lra).
    nra.
  - apply IH; [lra | exact Hf1 | exact Hr' | exact Hs'].
Qed.

Lemma interp_nonneg (x : R) (profile : list (R * R)) :
  profile_ascending profile -> Forall (fun n => 0 <= snd n) profile ->
  0 <= np.interp x profile.
Proof.
  intros Hs Hr. destruct profile as [|[x0 f0] rest]; cbn [np.interp]; [lra|].
  inversion Hr as [|? ? Hf0 Hr']; subst. cbn [snd] in Hf0.
  destruct (Rle_dec x x0) as [_|Hgt]; [exact Hf0|].
  apply interp_from_nonneg; [lra | exact Hf0 | exact Hr' | exact Hs].
Qed.

(** X13: the fuselage is a body of revolution.  For a profile in strictly
    ascending x, every point of the open grid sits at one of the longitudinal
    samples x of [linspace(x_first, x_last, fus_long_res)] (shifted by the
    fuselage position) and lies on the circle around the fuselage axis whose
    radius is the profile interpolated at x; when no profile radius is
    negative, no interpolated radius is. *)
Theorem fuselage_is_body_of_revolution (K : pv.Filters) (self : StructuredMesher)
    (f : Fuselage) (grid : pv.StructuredGrid) :
  profile_ascending (fu_profile f) ->
  _mesh_fuselage K self f false = ok (pv.GridMesh grid) ->
  forall q, In q (pv.points grid) ->
  exists x,
    In x (np.linspace (fst (hd (0, 0) (fu_profile f))) (fst (last (fu_profile f) (0, 0)))
            (fus_long_res self))
    /\ px q = x + px (fu_position f)
    /\ (py q - py (fu_position f)) ^ 2 + (pz q - pz (fu_position f)) ^ 2
       = (np.interp x (fu_profile f)) ^ 2
    /\ (Forall (fun n => 0 <= snd n) (fu_profile f) -> 0 <= np.interp x (fu_profile f)).
Proof.
  intros Hs E q Hq.
  destruct (fu_profile f) as [|[x0 r0] rest] eqn:Hp.
  - unfold _mesh_fuselage, fuselage_grid in E. rewrite Hp in E. discriminate.
  - pose proof (fuselage_grid_points self f x0 r0 rest Hp) as Eg. cbv zeta in Eg.
    unfold _mesh_fuselage in E. rewrite Eg in E. cbn [bind ok negb] in E.
    injection E as <-. cbn [pv.points pv.translate pv.map_points] in Hq.
    apply in_map_iff in Hq. destruct Hq as (q0 & <- & Hq0).
    apply in_flat_map in Hq0. destruct Hq0 as ([x r] & Hxr & Hq0).
    apply in_map_iff in Hq0. destruct Hq0 as (t & <- & _).
    apply in_combine_map in Hxr. destruct Hxr as [Hx ->].
    exists x. rewrite Hp in Hx |- *. split; [exact Hx|].
    unfold pv.shift. cbn [px py pz fst snd]. split; [reflexivity|].
    rewrite <- Hp. split.
    + replace (np.interp x (fu_profile f) * cos t + py (fu_position f) - py (fu_position f))
        with (np.interp x (fu_profile f) * cos t) by ring.
      replace (np.interp x (fu_profile f) * sin t + pz (fu_position f) - pz (fu_position f))
        with (np.interp x (fu_profile f) * sin t) by ring.
      pose proof (cs2 t) as C. simpl pow. nra.
    + intros Hr. apply interp_nonneg; [now rewrite Hp | exact Hr].
Qed.

Lemma scenario_fuselage_grid :
  exists grid,
    _mesh_fuselage append_kernel default_mesher scenario_fuselage false
    = ok (pv.GridMesh grid).
Proof.
  pose proof (fuselage_grid_points default_mesher scenario_fuselage 0 0
                [(0.5, 0.4); (4.0, 0.4); (5.0, 0)] eq_refl) as E. cbv zeta in E.
  unfold _mesh_fuselage. rewrite E. eexists. reflexivity.
Qed.

Lemma scenario_fuselage_ascending : profile_ascending (fu_profile scenario_fuselage).
Proof.
  unfold profile_ascending, scenario_fuselage. cbn [fu_profile].
  repeat constructor; cbn [fst]; lra.
Qed.

Lemma fuselage_is_body_of_revolution_witness :
  exists grid,
    _mesh_fuselage append_kernel default_mesher scenario_fuselage false = ok (pv.GridMesh grid)
    /\ forall q, In q (pv.points grid) ->
       exists x, px q = x + 0
                 /\ (py q - 0) ^ 2 + (pz q - 0) ^ 2
                    = (np.interp x (fu_profile scenario_fuselage)) ^ 2
                 /\ 0 <= np.interp x (fu_profile scenario_fuselage).
Proof.
  destruct scenario_fuselage_grid as (grid & E).
  exists grid. split; [exact E|]. intros q Hq.
  destruct (fuselage_is_body_of_revolution append_kernel default_mesher scenario_fuselage
              grid scenario_fuselage_ascending E q Hq) as (x & _ & Hx & Hr & Hn).
  exists x. split; [exact Hx|]. split; [exact Hr|].
  apply Hn. cbn [fu_profile scenario_fuselage].
  repeat constructor; cbn [snd]; lra.
Defined.









(** ** The assembled vehicle *)

Lemma mesh_surface_kind (K : pv.Filters) (self : StructuredMesher) (s : LiftingSurface)
    (solid : bool) (mesh : pv.Mesh) :
  _mesh_surface K self s solid = ok mesh -> is_poly mesh = solid.
Proof.
  unfold _mesh_surface. destruct (surface_grid self s) as [e|grid]; [discriminate|].
  cbn [bind]. destruct solid; cbn [negb]; intros E; injection E as <-; reflexivity.
Qed.

Lemma mesh_fuselage_kind (K : pv.Filters) (self : StructuredMesher) (f : Fuselage)
    (solid : bool) (mesh : pv.Mesh) :
  _mesh_fuselage K self f solid = ok mesh -> is_poly mesh = solid.
Proof.
  unfold _mesh_fuselage. destruct (fuselage_grid self f) as [e|[grid r]]; [discriminate|].
  cbn [bind]. destruct solid; cbn [negb].
  - destruct (fuselage_caps self grid r) as [e|poly]; [discriminate|].
    cbn [bind]. intros E; injection E as <-; reflexivity.
  - intros E; injection E as <-; reflexivity.
Qed.

Lemma mirror_step_kind (solid : bool) (mesh mm : pv.Mesh) :
  is_poly mesh = solid ->
  (if solid then reflect_flip mesh else ok (negate_y mesh)) = ok mm ->
  is_poly mm = solid.
Proof.
  destruct solid, mesh; cbn; intros H E; try discriminate;
    injection E as <-; reflexivity.
Qed.

Lemma mesh_surfaces_names (K : pv.Filters) (self : StructuredMesher) (solid : bool)
    (surfaces : list LiftingSurface) :
  forall parts parts',
    mesh_surfaces K self surfaces solid parts = ok parts' ->
    map fst parts'
    = map fst parts
      ++ flat_map (fun s => ls_name s :: (if ls_mirrored s
                                          then [(ls_name s ++ "_Mirror")%string] else []))
                  surfaces
    /\ (Forall (fun p => is_poly (snd p) = solid) parts ->
        Forall (fun p => is_poly (snd p) = solid) parts').
Proof.
  induction surfaces as [|s rest IH]; intros parts parts'; cbn [mesh_surfaces flat_map].
  - intros E. injection E as <-. now rewrite app_nil_r.
  - destruct (_mesh_surface K self s solid) as [e|mesh] eqn:Em; [discriminate|].
    cbn [bind]. pose proof (mesh_surface_kind K self s solid mesh Em) as Hk.
    destruct (ls_mirrored s).
    + destruct (if solid then reflect_flip mesh else ok (negate_y mesh)) as [e|mm] eqn:Emm;
        [discriminate|].
      cbn [bind]. intros E. destruct (IH _ _ E) as [Hn Hf]. split.
      * rewrite Hn, !map_app. cbn [map fst app]. now rewrite <- !app_assoc.
      * intros Hp. apply Hf.
        apply Forall_app; split; [apply Forall_app; split|].
        -- exact Hp.
        -- constructor; [exact Hk | constructor].
        -- constructor; [|constructor]. cbn [snd].
           now apply (mirror_step_kind solid mesh mm).
    + intros E. destruct (IH _ _ E) as [Hn Hf]. split.
      * rewrite Hn, !map_app. cbn [map fst app]. now rewrite <- !app_assoc.
      * intros Hp. apply Hf. apply Forall_app; split; [exact Hp|].
        constructor; [exact Hk | constructor].
Qed.

Lemma mesh_vehicle_names_kinds (K : pv.Filters) (self : StructuredMesher) (vehicle : Vehicle)
    (solid : bool) (parts : pv.MultiBlock) :
  mesh_vehicle K self vehicle solid = ok parts ->
  map fst parts = part_names vehicle
  /\ Forall (fun p => is_poly (snd p) = solid) parts.
Proof.
  unfold mesh_vehicle, part_names.
  destruct (mesh_surfaces K self (v_surfaces vehicle) solid []) as [e|ps] eqn:Es;
    [discriminate|].
  cbn [bind]. destruct (mesh_surfaces_names K self solid _ _ _ Es) as [Hn Hk].
  specialize (Hk (Forall_nil _)). cbn [map app] in Hn.
  destruct (v_fuselage vehicle) as [f|].
  - destruct (_mesh_fuselage K self f solid) as [e|fm] eqn:Ef; [discriminate|].
    cbn [bind]. intros E. injection E as <-. split.
    + rewrite map_app, Hn. reflexivity.
    + apply Forall_app. split; [exact Hk|].
      constructor; [|constructor]. cbn [snd]. eapply mesh_fuselage_kind, Ef.
  - intros E. injection E as <-. split; [now rewrite Hn, app_nil_r | exact Hk].
Qed.

(** X15: what [mesh_vehicle] returns.  Whenever it returns a collection, the
    parts are labelled, in order: each surface under its name, directly
    followed by its mirror under the name with "_Mirror" appended exactly
    when the surface is mirrored, and the fuselage (never mirrored) last.
    Every part is a structured grid in open mode and PolyData in solid
    mode. *)
Theorem mesh_vehicle_parts (K : pv.Filters) (self : StructuredMesher) (vehicle : Vehicle)
    (solid : bool) (parts : pv.MultiBlock) :
  mesh_vehicle K self vehicle solid = ok parts ->
  map fst parts = part_names vehicle
  /\ Forall (fun p => is_poly (snd p) = solid) parts.
Proof. apply mesh_vehicle_names_kinds. Qed.

Lemma part_names_length (vehicle : Vehicle) :
  length (part_names vehicle)
  = (length (v_surfaces vehicle)
     + length (filter ls_mirrored (v_surfaces vehicle))
     + (match v_fuselage vehicle with Some _ => 1 | None => 0 end))%nat.
Proof.
  unfold part_names. rewrite length_app.
  assert (G : forall l,
             length (flat_map (fun s => ls_name s :: (if ls_mirrored s
                                       then [(ls_name s ++ "_Mirror")%string] else [])) l)
             = (length l + length (filter ls_mirrored l))%nat).
  { induction l as [|s l IH]; cbn [flat_map filter length]; [reflexivity|].
    rewrite length_app, IH. destruct (ls_mirrored s); cbn [length]; lia. }
  rewrite G. destruct (v_fuselage vehicle); reflexivity.
Qed.

(** A surface the mesher accepts: at least two stations, each with a camber
    that can be evaluated. *)
Lemma mesh_surfaces_ok (K : pv.Filters) (self : StructuredMesher) (solid : bool)
    (surfaces : list LiftingSurface) :
  (1 <= chord_res self)%nat ->
  Forall (fun s => (2 <= length (ls_stations s))%nat
                   /\ Forall camber_defined (ls_stations s)) surfaces ->
  forall parts, exists parts', mesh_surfaces K self surfaces solid parts = ok parts'.
Proof.
  intros HN. induction 1 as [|s rest [Hs Hc] _ IH]; intros parts; cbn [mesh_surfaces].
  - eexists; reflexivity.
  - destruct (mesh_surface_ok K self s solid HN Hs Hc) as (mesh & Em).
    rewrite Em. cbn [bind ok].
    pose proof (mesh_surface_kind K self s solid mesh Em) as Hk.
    destruct (ls_mirrored s); [|apply IH].
    assert (Hm : exists mm, (if solid then reflect_flip mesh else ok (negate_y mesh)) = ok mm).
    { destruct solid, mesh; cbn in *; try discriminate; eexists; reflexivity. }
    destruct Hm as (mm & Hm). rewrite Hm. cbn [bind ok]. apply IH.
Qed.

(** X16: when [mesh_vehicle] succeeds.  With every resolution at least 1, at
    least two stations on every surface, each with a camber that can be
    evaluated ([m > 0] with [p = 1] excluded), and, if there is a fuselage, a
    non-empty profile, [mesh_vehicle] returns a collection; it holds one part
    per surface, one more per mirrored surface, and one for the fuselage. *)
Theorem mesh_vehicle_succeeds (K : pv.Filters) (self : StructuredMesher) (vehicle : Vehicle)
    (solid : bool) :
  (1 <= chord_res self)%nat -> (1 <= span_res self)%nat ->
  (1 <= fus_rad_res self)%nat -> (1 <= fus_long_res self)%nat ->
  Forall (fun s => (2 <= length (ls_stations s))%nat
                   /\ Forall camber_defined (ls_stations s)) (v_surfaces vehicle) ->
  (forall f, v_fuselage vehicle = Some f -> fu_profile f <> []) ->
  exists parts,
    mesh_vehicle K self vehicle solid = ok parts
    /\ length parts
       = (length (v_surfaces vehicle)
          + length (filter ls_mirrored (v_surfaces vehicle))
          + (match v_fuselage vehicle with Some _ => 1 | None => 0 end))%nat.
Proof.
  intros HN HS HR HL Hs Hf.
  assert (E : exists parts, mesh_vehicle K self vehicle solid = ok parts).
  { unfold mesh_vehicle.
    destruct (mesh_surfaces_ok K self solid _ HN Hs []) as (ps & ->). cbn [bind].
    destruct (v_fuselage vehicle) as [f|]; [|eexists; reflexivity].
    pose proof (Hf f eq_refl) as Hp.
    destruct (fu_profile f) as [|[x0 r0] rest] eqn:Ep; [congruence|].
    pose proof (fuselage_grid_points self f x0 r0 rest Ep) as Eg. cbv zeta in Eg.
    unfold _mesh_fuselage. rewrite Eg. cbn [bind ok].
    destruct solid; cbn [negb]; [|eexists; reflexivity].
    set (r_dense := map (fun x => np.interp x (fu_profile f)) _).
    assert (Lr : length r_dense = fus_long_res self)
      by (unfold r_dense; now rewrite length_map, linspace_length).
    clearbody r_dense.
    destruct r_dense as [|r0' rs]; [simpl in Lr; lia|].
    unfold fuselage_caps. cbn [bind ok]. eexists; reflexivity. }
  destruct E as (parts & E). exists parts. split; [exact E|].
  destruct (mesh_vehicle_names_kinds K self vehicle solid parts E) as [Hn _].
  rewrite <- part_names_length, <- Hn. now rewrite length_map.
Qed.

Lemma full_vehicle_surfaces :
  Forall (fun s => (2 <= length (ls_stations s))%nat
                   /\ Forall camber_defined (ls_stations s)) (v_surfaces full_vehicle).
Proof.
  repeat (apply Forall_cons;
          [split;
           [simpl; lia
           |repeat (apply Forall_cons; [now apply symmetric_camber_defined|]);
            apply Forall_nil]|]).
  apply Forall_nil.
Qed.

Lemma mesh_vehicle_succeeds_witness :
  exists parts,
    mesh_vehicle append_kernel default_mesher full_vehicle true = ok parts
    /\ length parts = 5%nat.
Proof.
  apply (mesh_vehicle_succeeds append_kernel default_mesher full_vehicle true).
  - simpl; lia.
  - simpl; lia.
  - simpl; lia.
  - simpl; lia.
  - exact full_vehicle_surfaces.
  - intros f Hf. injection Hf as <-. discriminate.
Defined.

Lemma mesh_vehicle_parts_witness :
  exists parts,
    mesh_vehicle append_kernel default_mesher full_vehicle false = ok parts
    /\ map fst parts
       = ["Main_Wing"; "Main_Wing_Mirror"; "Cranked"; "Cranked_Mirror"; "Fuselage"]%string
    /\ Forall (fun p => is_poly (snd p) = false) parts.
Proof.
  assert (E : exists parts,
             mesh_vehicle append_kernel default_mesher full_vehicle false = ok parts).
  { unfold mesh_vehicle.
    destruct (mesh_surfaces_ok append_kernel default_mesher false
                (v_surfaces full_vehicle) ltac:(simpl; lia)
                full_vehicle_surfaces []) as (ps & ->).
    cbn [bind v_fuselage full_vehicle].
    destruct scenario_fuselage_grid as (g & ->). eexists; reflexivity. }
  destruct E as (parts & E). exists parts. split; [exact E|].
  exact (mesh_vehicle_parts append_kernel default_mesher full_vehicle false parts E).
Defined.


(** ** Winding flips *)

Lemma flip_rows_nth (w : nat) (d : P3) :
  forall k pts, length pts = (k * w)%nat ->
  forall j i, (j < k)%nat -> (i < w)%nat ->
  nth (j * w + i) (concat (map (@rev P3) (chunks w k pts))) d
  = nth (j * w + (w - 1 - i)) pts d.
Proof.
  induction k as [|k IH]; intros pts HL j i Hj Hi; [lia|].
  cbn [chunks map concat].
  assert (Lf : length (firstn w pts) = w) by (rewrite length_firstn; nia).
  destruct j as [|j].
  - cbn [Nat.mul Nat.add].
    rewrite app_nth1 by (rewrite length_rev; lia).
    rewrite rev_nth by lia. rewrite Lf.
    rewrite nth_firstn. replace (w - S i <? w)%nat with true
      by (symmetry; apply Nat.ltb_lt; lia).
    f_equal. lia.
  - rewrite app_nth2 by (rewrite length_rev; nia).
    rewrite length_rev, Lf.
    replace (S j * w + i - w)%nat with (j * w + i)%nat by nia.
    rewrite IH; [|rewrite length_skipn; nia | lia | lia].
    rewrite nth_skipn. f_equal. nia.
Qed.

(** X18: what [flip_winding] does.  On a structured grid whose point count
    is not the product of its dimensions the reshape raises [ValueError].
    Otherwise the result has the same dimensions and point count, and the
    point at chordwise index i of row j is the input's point at chordwise
    index [d0 - 1 - i] of the same row.  PolyData is returned unchanged. *)
Theorem flip_winding_reverses_rows (pts : list P3) (d0 d1 d2 : nat) (p : pv.PolyData) :
  flip_winding (pv.PolyMesh p) = ok (pv.PolyMesh p)
  /\ match flip_winding (pv.GridMesh (pv.mkGrid pts (d0, d1, d2))) with
     | inl e => e = ValueError /\ length pts <> (d2 * d1 * d0)%nat
     | inr (pv.PolyMesh _) => False
     | inr (pv.GridMesh g) =>
         length pts = (d2 * d1 * d0)%nat
         /\ pv.dimensions g = (d0, d1, d2)
         /\ length (pv.points g) = length pts
         /\ forall j i, (j < d2 * d1)%nat -> (i < d0)%nat ->
              nth (j * d0 + i) (pv.points g) (mkP3 0 0 0)
              = nth (j * d0 + (d0 - 1 - i)) pts (mkP3 0 0 0)
     end.
Proof.
  split; [reflexivity|].
  destruct (Nat.eq_dec (length pts) (d2 * d1 * d0)) as [H|H].
  - rewrite (flip_winding_grid pts d0 d1 d2 H). unfold ok. cbn [pv.dimensions pv.points].
    split; [exact H|]. split; [reflexivity|].
    split; [rewrite flip_rows_length by exact H; now rewrite H|].
    intros j i Hj Hi. now apply flip_rows_nth.
  - unfold flip_winding, reshape. cbn [pv.dimensions pv.points].
    apply Nat.eqb_neq in H. rewrite H. cbn [bind raise].
    apply Nat.eqb_neq in H. auto.
Qed.

(** X17: how the two flips of [process_component] compose.  On a well-shaped
    open grid the user flip undoes the winding correction of the mirror, so
    mirror followed by user flip is the plain y-negation of the part; on a
    solid, mirror followed by user flip is the plain reflection. *)
Theorem user_flip_cancels_mirror_winding (use_solid : bool) (part : pv.Mesh) :
  mirror_ready use_solid part -> is_poly part = use_solid ->
  exists m,
    mirror_part use_solid part = ok m
    /\ user_flip m = ok (negate_y part).
Proof.
  intros H Hk. destruct part as [[pts [[d0 d1] d2]]|p].
  - cbn in H. destruct H as [-> HL]. unfold mirror_part.
    cbn [negate_y]. unfold pv.map_points. cbn [pv.points pv.dimensions].
    rewrite flip_winding_grid by now rewrite length_map.
    eexists; split; [reflexivity|]. cbn [user_flip].
    rewrite flip_winding_grid.
    + rewrite flip_rows_involutive by now rewrite length_map. reflexivity.
    + apply flip_rows_length. now rewrite length_map.
  - cbn in Hk. subst use_solid. unfold mirror_part, reflect_flip.
    eexists; split; [reflexivity|]. cbn [user_flip negate_y].
    now rewrite flip_faces_involutive.
Qed.

Lemma user_flip_cancels_mirror_winding_witness :
  exists m,
    mirror_part false (pv.GridMesh small_grid) = ok m
    /\ user_flip m = ok (negate_y (pv.GridMesh small_grid)).
Proof.
  apply (user_flip_cancels_mirror_winding false (pv.GridMesh small_grid)).
  - simpl; auto.
  - reflexivity.
Defined.

(** X24: the export meshes what the view shows.  For a lifting surface and
    for a fuselage, with any display preferences and for the part or its
    mirror, [get_grid] of [export_obj] and [process_component] of the view
    produce the same mesh or fail with the same exception. *)
Theorem export_grid_matches_view (K : pv.Filters) (mesher : StructuredMesher)
    (viz : option Viz) (mirrored : bool) :
  (forall s, process_component K mesher (SurfaceObj s) viz mirrored
             = (g <- get_grid K mesher (SurfaceObj s) viz mirrored ;; ok (Some g)))
  /\ (forall f, process_component K mesher (FuselageObj f) viz mirrored
                = (g <- get_grid K mesher (FuselageObj f) viz mirrored ;; ok (Some g))).
Proof.
  assert (G : forall (solid flip : bool) (g : pv.Mesh), is_poly g = solid ->
            (g1 <- (if mirrored then mirror_part solid g else ok g) ;;
             g2 <- (if flip then user_flip g1 else ok g1) ;; ok (Some g2))
            = (g3 <- (g1 <- (if mirrored
                             then if solid then reflect_flip g
                                  else reverse_chordwise (negate_y g)
                             else ok g) ;;
                      g2 <- (if flip
                             then if solid then flip_faces_inplace g1
                                  else reverse_chordwise g1
                             else ok g1) ;;
                      ok g2) ;; ok (Some g3))).
  { intros solid flip g Hk. unfold mirror_part.
    destruct g as [sg|p]; cbn in Hk; subst solid.
    - destruct mirrored; cbn [negate_y reverse_chordwise bind ok].
      + destruct (flip_winding (pv.GridMesh (pv.map_points pv.neg_y sg))) as [e|g1] eqn:E1;
          cbn [bind]; [reflexivity|].
        assert (exists sg1, g1 = pv.GridMesh sg1) as (sg1 & ->).
        { unfold flip_winding in E1. cbn in E1.
          destruct (pv.dimensions sg) as [[a b] c]. cbn in E1.
          destruct (reshape _ _ _); cbn in E1; [discriminate|].
          injection E1 as <-. eexists; reflexivity. }
        destruct flip; cbn [user_flip reverse_chordwise bind ok]; [|reflexivity].
        destruct (flip_winding (pv.GridMesh sg1)); reflexivity.
      + destruct flip; cbn [user_flip reverse_chordwise bind ok]; [|reflexivity].
        destruct (flip_winding (pv.GridMesh sg)); reflexivity.
    - destruct mirrored, flip; reflexivity. }
  split.
  - intros s. unfold process_component, get_grid.
    destruct (_mesh_surface K mesher s _) as [e|g] eqn:E; cbn [bind]; [reflexivity|].
    apply G. eapply mesh_surface_kind, E.
  - intros f. unfold process_component, get_grid.
    destruct (_mesh_fuselage K mesher f _) as [e|g] eqn:E; cbn [bind]; [reflexivity|].
    apply G. eapply mesh_fuselage_kind, E.
Qed.

(** ** Outcome of the union *)

Lemma refine_loop_all (K : pv.Filters) (count : nat) (blocks : pv.MultiBlock) :
  Forall refinable blocks ->
  forall i, exists log solids,
    refine_loop K count i blocks = (log, ok solids)
    /\ length log = length blocks
    /\ exists ps, all_solids solids = ok ps /\ length ps = length blocks.
Proof.
  induction 1 as [|[name block] rest Hb _ IH]; intros i.
  - exists [], []. cbn. split; [reflexivity|]. split; [reflexivity|].
    exists []. auto.
  - destruct (IH (S i)) as (log & solids & E & Ll & ps & Ep & Lp).
    unfold refinable in Hb. cbn [snd] in Hb. destruct block as [g|p]; [contradiction|].
    cbn [refine_loop truthy make_solid]. apply Nat.eqb_neq in Hb. rewrite Hb, E.
    cbn [bind ok]. eexists _, _. split; [reflexivity|].
    split; [cbn [length]; now rewrite Ll|].
    cbn [all_solids]. rewrite Ep. cbn [bind ok]. eexists. split; [reflexivity|].
    cbn [length]. now rewrite Lp.
Qed.

Lemma merge_loop_length (K : pv.Filters) (total : nat) (rest : list pv.PolyData) :
  forall i unified, length (fst (merge_loop K total i unified rest)) = length rest.
Proof.
  induction rest as [|s rest IH]; intros i unified; cbn [merge_loop]; [reflexivity|].
  match goal with |- context [merge_loop K total (S i) ?u rest] =>
    specialize (IH (S i) u); destruct (merge_loop K total (S i) u rest) as [log u'] end.
  cbn [fst length] in *. now rewrite IH.
Qed.

(** X20: when the union returns.  If the solid meshing of the vehicle gives
    at least one block and every block is PolyData with at least one point,
    [run_heavy_union] returns a mesh, whatever the kernel's boolean union
    does (a failing union is replaced by the plain merge), and it has called
    the progress callback exactly twice per block: once at the start, once
    per refined block and once per merge. *)
Theorem union_returns_a_mesh (K : pv.Filters) (mesher : StructuredMesher) (vehicle : Vehicle)
    (blocks : pv.MultiBlock) :
  mesh_vehicle K mesher vehicle true = ok blocks ->
  blocks <> [] -> Forall refinable blocks ->
  exists u,
    snd (run_heavy_union K mesher vehicle) = ok u
    /\ length (fst (run_heavy_union K mesher vehicle)) = (2 * length blocks)%nat.
Proof.
  intros E Hne Hr.
  destruct blocks as [|b0 bs]; [congruence|]. clear Hne.
  destruct (refine_loop_all K (length (b0 :: bs)) (b0 :: bs) Hr 0)
    as (log1 & solids & E1 & L1 & ps & Ep & Lp).
  destruct solids as [|s0 ss].
  { cbn in Ep. injection Ep as <-. discriminate. }
  destruct (sort_desc ps) as [|unified rest] eqn:Esort.
  { apply (f_equal (@length pv.PolyData)) in Esort.
    rewrite sort_desc_length, Lp in Esort. discriminate. }
  assert (Lr : length rest = length bs).
  { apply (f_equal (@length pv.PolyData)) in Esort.
    rewrite sort_desc_length, Lp in Esort. cbn [length] in Esort. lia. }
  pose proof (merge_loop_length K (length (s0 :: ss)) rest 1 unified) as L2.
  destruct (merge_loop K (length (s0 :: ss)) 1 unified rest) as [log2 u] eqn:Em.
  assert (Run : run_heavy_union K mesher vehicle
                = ((GeneratingSolids, 10%Z) :: log1 ++ log2, ok u)).
  { unfold run_heavy_union. rewrite E. unfold ok at 1. cbv beta iota zeta.
    rewrite E1. unfold ok at 1. cbv beta iota zeta.
    rewrite Ep. unfold ok at 1. cbv beta iota zeta.
    rewrite Esort, Em. reflexivity. }
  rewrite Run. cbn [fst snd] in *. exists u. split; [reflexivity|].
  cbn [length]. rewrite length_app, L1, L2, Lr. cbn [length]. lia.
Qed.

Lemma scenario_blocks_refinable :
  exists blocks,
    mesh_vehicle append_kernel default_mesher scenario_vehicle true = ok blocks
    /\ blocks <> [] /\ Forall refinable blocks /\ length blocks = 2%nat.
Proof.
  destruct scenario_vehicle_blocks as (p1 & p2 & E & H1 & H2).
  eexists. split; [exact E|]. split; [discriminate|].
  split; [|reflexivity].
  repeat constructor; assumption.
Qed.

Lemma union_returns_a_mesh_witness :
  exists u,
    snd (run_heavy_union append_kernel default_mesher scenario_vehicle) = ok u
    /\ length (fst (run_heavy_union append_kernel default_mesher scenario_vehicle)) = 4%nat.
Proof.
  destruct scenario_blocks_refinable as (blocks & E & Hne & Hr & L).
  destruct (union_returns_a_mesh append_kernel default_mesher scenario_vehicle blocks
              E Hne Hr) as (u & Eu & Hl).
  exists u. split; [exact Eu|]. rewrite Hl, L. reflexivity.
Defined.

(** X19: the union of nothing.  For a vehicle with no surface and no
    fuselage, [run_heavy_union] reports the single progress value 10 and
    raises [ValueError] ("No data"); it returns no mesh. *)
Theorem union_of_empty_vehicle (K : pv.Filters) (mesher : StructuredMesher) (vehicle : Vehicle) :
  v_surfaces vehicle = [] -> v_fuselage vehicle = None ->
  run_heavy_union K mesher vehicle = ([(GeneratingSolids, 10%Z)], raise ValueError).
Proof.
  intros Hs Hf. unfold run_heavy_union, mesh_vehicle. rewrite Hs, Hf. reflexivity.
Qed.

Lemma union_of_empty_vehicle_witness :
  run_heavy_union append_kernel default_mesher (mkVehicle "Empty" [] None)
  = ([(GeneratingSolids, 10%Z)], raise ValueError).
Proof.
  apply (union_of_empty_vehicle append_kernel default_mesher (mkVehicle "Empty" [] None));
    reflexivity.
Defined.



(** ** Stations *)

(** X22: the airfoil parameters of a new station.  With fewer than three
    parameters the constructor raises [ValueError]; otherwise the station
    keeps the list and takes [m], [p], [t] from its first three entries and
    the reflex [r] from the fourth, or 0 when there is no fourth.  Without a
    list the section is NACA 0012 with no reflex. *)
Theorem wing_station_init_params (y chord x z twist : R) (params : list R) :
  (if (length params <? 3)%nat
   then WingStation_init y chord x z twist (Some params) = raise ValueError
   else exists st,
       WingStation_init y chord x z twist (Some params) = ok st
       /\ ws_airfoil_params st = params
       /\ ws_m st = nth 0 params 0 /\ ws_p st = nth 1 params 0
       /\ ws_t st = nth 2 params 0 /\ ws_r st = nth 3 params 0
       /\ ws_y st = y /\ ws_chord st = chord /\ ws_x st = x /\ ws_z st = z
       /\ ws_twist st = twist)
  /\ exists st0,
       WingStation_init y chord x z twist None = ok st0
       /\ ws_m st0 = 0 /\ ws_p st0 = 0 /\ ws_t st0 = 0.12 /\ ws_r st0 = 0.
Proof.
  split.
  - destruct params as [|a [|b [|c [|d l]]]]; cbn [length Nat.ltb Nat.leb];
      try reflexivity.
    + eexists. split; [reflexivity|]. cbn. repeat split; reflexivity.
    + eexists. split; [reflexivity|]. cbn. repeat split; reflexivity.
  - eexists. split; [reflexivity|]. cbn. repeat split; reflexivity.
Qed.

(** X23: the station added by the editor.  On a surface with at least one
    station, [add_station_to_selected] appends one station: one unit further
    out in y, with the last station's chord, x, z, twist, parameter list and
    [m], [p], [t], but with reflex [r = 0] whatever the last station's reflex
    is (the reflex is not copied). *)
Theorem add_station_drops_reflex (surf : LiftingSurface) (st0 : WingStation)
    (others : list WingStation) :
  ls_stations surf = st0 :: others ->
  let last_st := last (ls_stations surf) st0 in
  exists surf' new_st,
    add_station surf = ok surf'
    /\ ls_stations surf' = ls_stations surf ++ [new_st]
    /\ length (ls_stations surf') = S (length (ls_stations surf))
    /\ ls_name surf' = ls_name surf /\ ls_mirrored surf' = ls_mirrored surf
    /\ ws_y new_st = ws_y last_st + 1
    /\ ws_chord new_st = ws_chord last_st /\ ws_x new_st = ws_x last_st
    /\ ws_z new_st = ws_z last_st /\ ws_twist new_st = ws_twist last_st
    /\ ws_airfoil_params new_st = ws_airfoil_params last_st
    /\ ws_m new_st = ws_m last_st /\ ws_p new_st = ws_p last_st
    /\ ws_t new_st = ws_t last_st
    /\ ws_r new_st = 0.
Proof.
  intros Hst last_st. unfold add_station. rewrite Hst. fold last_st.
  rewrite <- Hst. fold last_st.
  eexists _, _. split; [reflexivity|]. cbn [ls_stations ls_name ls_mirrored].
  split; [reflexivity|].
  split; [rewrite length_app; cbn [length]; lia|].
  cbn. repeat split; try reflexivity. lra.
Qed.

Lemma add_station_drops_reflex_witness :
  exists surf' new_st,
    add_station reflex_wing = ok surf'
    /\ ls_stations surf' = [reflex_station; reflex_station; new_st]
    /\ ws_r reflex_station = 1
    /\ ws_airfoil_params new_st = [0; 0; 0.12; 1]
    /\ ws_r new_st = 0.
Proof.
  destruct (add_station_drops_reflex reflex_wing reflex_station [reflex_station] eq_refl)
    as (surf' & new_st & E & Hs & _ & _ & _ & _ & _ & _ & _ & _ & Hp & _ & _ & _ & Hr).
  exists surf', new_st. split; [exact E|]. split; [exact Hs|].
  split; [reflexivity|]. split; [exact Hp | exact Hr].
Defined.

(** ** Chordwise samples and thickness *)

Lemma chord_sample_bounds (b : R) : 0 <= (1 - cos b) / 2 <= 1.
Proof. pose proof (COS_bound b) as [H1 H2]. lra. Qed.

(** X25: the chordwise samples.  [chord_res = n] gives n samples, all in the
    interval [0, 1] (so the thickness formula never takes the square root of
    a negative number); from two samples on, the first is exactly 0 (the
    leading edge) and the last exactly 1 (the trailing edge). *)
Theorem chord_samples_in_unit_interval (n : nat) :
  length (chord_samples n) = n
  /\ Forall (fun x => 0 <= x <= 1) (chord_samples n)
  /\ match n with
     | S (S _) => hd 0 (chord_samples n) = 0 /\ last (chord_samples n) 0 = 1
     | _ => True
     end.
Proof.
  split; [apply chord_samples_length|]. split.
  - unfold chord_samples. apply Forall_map, Forall_forall.
    intros b _. apply chord_sample_bounds.
  - destruct n as [|[|n]]; auto.
    destruct (linspace_ends 0 PI (S (S n)) ltac:(lia)) as (mid & E).
    unfold chord_samples. rewrite E. cbn [map hd]. rewrite map_app. cbn [map].
    split.
    + rewrite cos_0. lra.
    + change (?a :: ?l ++ [?b]) with ((a :: l) ++ [b]). rewrite last_last, cos_PI. lra.
Qed.

Lemma thickness_core_nonneg (s : R) : 0 <= s <= 1 ->
  0 <= 0.2969 - 0.1260 * s - 0.3516 * s ^ 3 + 0.2843 * s ^ 5 - 0.1015 * s ^ 7.
Proof.
  intros [H0 H1].
  assert (E : 0.2969 - 0.1260 * s - 0.3516 * s ^ 3 + 0.2843 * s ^ 5 - 0.1015 * s ^ 7
              = 0.0021 + (1 - s) * (0.1260 + 0.3516 * (1 + s + s ^ 2)
                   - 0.2843 * (1 + s + s ^ 2 + s ^ 3 + s ^ 4)
                   + 0.1015 * (1 + s + s ^ 2 + s ^ 3 + s ^ 4 + s ^ 5 + s ^ 6))) by lra.
  rewrite E. clear E.
  assert (Hh : 0 <= 0.1260 + 0.3516 * (1 + s + s ^ 2)
                    - 0.2843 * (1 + s + s ^ 2 + s ^ 3 + s ^ 4)
                    + 0.1015 * (1 + s + s ^ 2 + s ^ 3 + s ^ 4 + s ^ 5 + s ^ 6)).
  { assert (0 <= s ^ 2) by nra. assert (s ^ 2 <= 1) by nra.
    assert (0 <= s ^ 3) by (simpl; nra). assert (s ^ 3 <= s ^ 2) by (simpl; nra).
    assert (0 <= s ^ 4) by (simpl; nra). assert (s ^ 4 <= s ^ 2) by (simpl; nra).
    assert (0 <= s ^ 5) by (simpl; nra). assert (0 <= s ^ 6) by (simpl; nra).
    nra. }
  nra.
Qed.

Lemma thickness_nonneg (t_max x : R) :
  0 <= t_max -> 0 <= x <= 1 -> 0 <= thickness t_max x.
Proof.
  intros Ht [H0 H1]. unfold thickness, term5.
  pose proof (sqrt_pos x) as Hs0.
  pose proof (sqrt_def x H0) as Hs.
  set (s := sqrt x) in *.
  assert (Hs1 : s <= 1) by nra.
  pose proof (thickness_core_nonneg s (conj Hs0 Hs1)) as Hg.
  replace (5 * t_max * (0.2969 * s - 0.1260 * x - 0.3516 * x ^ 2 + 0.2843 * x ^ 3
                        + -0.1015 * x ^ 4))
    with (5 * t_max * (s * (0.2969 - 0.1260 * s - 0.3516 * s ^ 3 + 0.2843 * s ^ 5
                            - 0.1015 * s ^ 7))).
  - apply Rmult_le_pos; [lra|]. apply Rmult_le_pos; assumption.
  - rewrite <- Hs. lra.
Qed.

(** X26: the thickness distribution is never negative.  For a thickness
    parameter [t >= 0] the half-thickness [yt] is non-negative at every
    chordwise position in [0, 1], in particular at every sample the mesher
    uses, so the upper surface of a symmetric section is never below its
    lower surface. *)
Theorem thickness_is_nonnegative (t_max : R) (n : nat) :
  0 <= t_max ->
  (forall x, 0 <= x <= 1 -> 0 <= thickness t_max x)
  /\ Forall (fun x => 0 <= thickness t_max x) (chord_samples n).
Proof.
  intros Ht. split.
  - intros x Hx. now apply thickness_nonneg.
  - unfold chord_samples. apply Forall_map, Forall_forall.
    intros b _. apply thickness_nonneg; [exact Ht | apply chord_sample_bounds].
Qed.

Lemma thickness_is_nonnegative_witness :
  Forall (fun x => 0 <= thickness 0.12 x) (chord_samples 30).
Proof.
  apply (thickness_is_nonnegative 0.12 30). lra.
Defined.

(** ** Editing a station's parameters *)

Lemma list_set_spec (arr : list R) :
  forall idx val,
    match list_set arr idx val with
    | inr arr' =>
        (idx < length arr)%nat /\ length arr' = length arr
        /\ nth idx arr' 0 = val
        /\ forall j, j <> idx -> nth j arr' 0 = nth j arr 0
    | inl e => e = IndexError /\ (length arr <= idx)%nat
    end.
Proof.
  induction arr as [|a arr IH]; intros idx val.
  - cbn. split; [reflexivity|lia].
  - destruct idx as [|i]; cbn [list_set].
    + cbn. repeat split; try lia. intros [|j] Hj; [congruence | reflexivity].
    + specialize (IH i val). destruct (list_set arr i val) as [e|arr']; cbn [bind ok length].
      * destruct IH. split; [assumption | lia].
      * destruct IH as (H1 & H2 & H3 & H4). repeat split; try lia.
        -- exact H3.
        -- intros [|j] Hj; [reflexivity|]. cbn [nth]. apply H4. lia.
Qed.

(** X27: editing a section parameter keeps the station coherent.  Writing
    entry [idx] of a station's parameter list through [set_arr] fails with
    [IndexError] exactly when the list has no such entry, and with
    [ValueError] exactly when it has the entry but fewer than three entries;
    it succeeds exactly when the list has the entry and at least three
    entries, and then the entry holds the new value, the other entries are
    unchanged, [m], [p], [t] again equal the first three entries, and the
    reflex [r] keeps its old value (also when the fourth entry is the one
    written). *)
Theorem set_arr_keeps_station_in_sync (st : WingStation) (idx : nat) (val : R) :
  let n := length (ws_airfoil_params st) in
  match set_arr_station st idx val with
  | inr st' =>
      (idx < n)%nat /\ (3 <= n)%nat
      /\ length (ws_airfoil_params st') = n
      /\ params_in_sync st'
      /\ nth idx (ws_airfoil_params st') 0 = val
      /\ (forall j, j <> idx -> nth j (ws_airfoil_params st') 0 = nth j (ws_airfoil_params st) 0)
      /\ ws_r st' = ws_r st
      /\ ws_y st' = ws_y st /\ ws_chord st' = ws_chord st /\ ws_x st' = ws_x st
      /\ ws_z st' = ws_z st /\ ws_twist st' = ws_twist st
  | inl e =>
      (e = IndexError /\ (n <= idx)%nat)
      \/ (e = ValueError /\ (idx < n)%nat /\ (n < 3)%nat)
  end.
Proof.
  intros n. unfold n, set_arr_station.
  pose proof (list_set_spec (ws_airfoil_params st) idx val) as H.
  destruct (list_set (ws_airfoil_params st) idx val) as [e|params]; cbn [bind].
  - left. exact H.
  - destruct H as (H1 & H2 & H3 & H4).
    destruct params as [|a [|b [|c l]]]; cbn [firstn].
    + right. split; [reflexivity|]. simpl in H2. lia.
    + right. split; [reflexivity|]. simpl in H2. lia.
    + right. split; [reflexivity|]. simpl in H2. lia.
    + unfold ok, params_in_sync. cbn [ws_airfoil_params ws_m ws_p ws_t ws_r ws_y ws_chord
        ws_x ws_z ws_twist firstn].
      split; [exact H1|]. split; [rewrite <- H2; cbn [length]; lia|].
      repeat split; auto.
Qed.

(** With too few parameters or an index beyond the list the write fails; a
    write inside a full list succeeds. *)
Lemma set_arr_keeps_station_in_sync_witness :
  set_arr_station root_station 4 0.5 = raise IndexError
  /\ exists st', set_arr_station reflex_station 3 0.5 = ok st' /\ ws_r st' = 1.
Proof.
  pose proof (set_arr_keeps_station_in_sync root_station 4 0.5) as H1.
  pose proof (set_arr_keeps_station_in_sync reflex_station 3 0.5) as H2.
  cbv zeta in H1, H2.
  destruct (set_arr_station root_station 4 0.5) as [e|st1].
  - destruct H1 as [[-> _]|(_ & H & _)]; [|cbn in H; lia].
    split; [reflexivity|].
    destruct (set_arr_station reflex_station 3 0.5) as [e|st2].
    + exfalso. destruct H2 as [[_ H]|(_ & _ & H)]; cbn in H; lia.
    + exists st2. split; [reflexivity|].
      destruct H2 as (_ & _ & _ & _ & _ & _ & Hr & _). rewrite Hr. reflexivity.
  - exfalso. destruct H1 as (H & _). cbn in H. lia.
Defined.

(** ** The view *)

Lemma view_surfaces_app (K : pv.Filters) (mesher : StructuredMesher)
    (good : list (LiftingSurface * option Viz)) :
  forall rest drawn drawn',
    view_surfaces K mesher good drawn = (drawn', None) ->
    view_surfaces K mesher (good ++ rest) drawn = view_surfaces K mesher rest drawn'.
Proof.
  induction good as [|[surf viz] good IH]; intros rest drawn drawn'; cbn [view_surfaces app].
  - intros E. now injection E as <-.
  - destruct (process_component K mesher (SurfaceObj surf) viz false) as [e|g];
      [discriminate|].
    destruct (ls_mirrored surf).
    + destruct (process_component K mesher (SurfaceObj surf) viz true) as [e|g'];
        [discriminate|].
      apply IH.
    + apply IH.
Qed.

(** X28: a failing component in the view.  [update_3d_view] draws the
    components in order and stops at the first exception: when the surfaces
    before some surface are drawn without error and that surface cannot be
    meshed, the plotter holds exactly the meshes of the earlier surfaces (and
    their mirrors); the failing surface, every later surface and the fuselage
    are not drawn. *)
Theorem view_stops_at_first_failure (K : pv.Filters) (mesher : StructuredMesher)
    (good rest : list (LiftingSurface * option Viz)) (bad : LiftingSurface)
    (viz : option Viz) (fuselage : option (Fuselage * option Viz))
    (drawn : list pv.Mesh) (e : exn) :
  update_3d_view K mesher good None = (drawn, None) ->
  process_component K mesher (SurfaceObj bad) viz false = inl e ->
  update_3d_view K mesher (good ++ (bad, viz) :: rest) fuselage = (drawn, Some e).
Proof.
  unfold update_3d_view. intros Hg Hb.
  destruct (view_surfaces K mesher good []) as [d [e0|]] eqn:Eg; [discriminate|].
  injection Hg as <-.
  rewrite (view_surfaces_app K mesher good _ [] d Eg).
  cbn [view_surfaces]. rewrite Hb. reflexivity.
Qed.

Lemma main_wing_view :
  exists g gm,
    update_3d_view append_kernel default_mesher [(main_wing, Some (mkViz false false))] None
    = ([g; gm], None).
Proof.
  destruct main_wing_grid as (grid & E & Hd & Hl & _).
  assert (Em : _mesh_surface append_kernel default_mesher main_wing false
               = ok (pv.GridMesh grid)).
  { unfold _mesh_surface. now rewrite E. }
  assert (Ef : exists gm, flip_winding (negate_y (pv.GridMesh grid)) = ok gm).
  { destruct grid as [pts dims]. cbn [pv.dimensions pv.points] in *. subst dims.
    cbn [negate_y]. unfold pv.map_points. cbn [pv.points pv.dimensions].
    rewrite flip_winding_grid; [eexists; reflexivity|].
    rewrite length_map, Hl. reflexivity. }
  destruct Ef as (gm & Ef).
  exists (pv.GridMesh grid), gm.
  unfold update_3d_view. cbn [view_surfaces].
  rewrite (process_component_open_mirror _ _ _ _ Em), Ef.
  replace (process_component append_kernel default_mesher (SurfaceObj main_wing)
             (Some (mkViz false false)) false)
    with (ok (Some (pv.GridMesh grid)))
    by (unfold process_component; cbn [solid_view flip_normals]; now rewrite Em).
  reflexivity.
Qed.

Lemma view_stops_at_first_failure_witness :
  exists g gm,
    update_3d_view append_kernel default_mesher
      ([(main_wing, Some (mkViz false false))] ++ (stub_fin, None) :: [(main_wing, None)])
      (Some (scenario_fuselage, None))
    = ([g; gm], Some ValueError).
Proof.
  destruct main_wing_view as (g & gm & E).
  exists g, gm.
  apply (view_stops_at_first_failure append_kernel default_mesher
           [(main_wing, Some (mkViz false false))] [(main_wing, None)] stub_fin None
           (Some (scenario_fuselage, None)) [g; gm] ValueError E).
  unfold process_component. now rewrite stub_fin_fails.
Defined.
